(** * pose_tracking_bin-bundle.js: loader guard, Solution facade, PoseSolution

    A shallow embedding of the parts of the bundle that its specification
    talks about:

    - [Goog]: [goog.module] with the module-identifier pattern
      [goog.VALID_MODULE_RE_] and the loader state it touches;
    - [SolutionsApi]: the [Solution] class of solutions_api (two-phase
      initialisation, option changes, frame submission, result listeners);
    - [PoseTracking]: the [PoseSolution] wrapper and its static configuration;
    - [Awaiter]: the methods of [Solution] that [yield], as generators,
      for calls that are made without awaiting the one before;
    - [GoogPaths], [GoogScript]: [goog.normalizePath_] and
      [goog.protectScriptTag_], on strings;
    - [GoogLoading]: [goog.loadModule] and [goog.module.get], on the same
      loader state as [goog.module];
    - [GoogDependency], [GoogUid]: the load callbacks of [goog.Dependency]
      and the unique ids of [goog.getUid];
    - [Tslib]: the array iterator of [__values] and the private-field
      helpers.

    JavaScript objects are records, [undefined]-able fields are [option]s,
    numbers are IEEE doubles ([float]).  The calls that leave the bundle
    (DOM, window, WebGL, the WASM engine, user callbacks) are recorded, in
    order, in a trace of [event]s kept in the [World]; the embind vectors
    built only to carry arguments are the lists they hold.  The few answers
    the outside gives back (does [getContext('webgl2')] succeed, what does
    [performance.now()] read, does the fetched response have a body) are
    read from the [Browser], which is a page: [window] and [document] are
    there.

    In [SolutionsApi] the methods built with [__awaiter] are run to
    completion: a caller awaits each promise before issuing the next call.
    In [Awaiter] the same methods are cut at their [yield]s, and a call
    returns its promise at the first of them.  In both, the promises that
    come from outside and are awaited inside ([loadScript], the module
    factory, [fetch]) resolve.  A rejected promise is an [outcome]
    [Throws].

    The module factory [window.createMediapipeSolutionsWasm] is installed
    by the scripts of [config.files] when they are loaded.  With at least
    one script to load, the factory is there and gives the WASM module;
    with none ([files] missing or empty) the variable still holds the
    object that [tryToInitializeWasm] has stored in it, and calling it
    throws a [TypeError]. *)

From Stdlib Require Import Floats Ascii String NArith ZArith.
From stdpp Require Import gmap strings list.
From Equations Require Import Equations.

Open Scope string_scope.

(** ** JavaScript values, errors and the effect monad *)

Module JS.

(** [HTMLVideoElement]: the two properties read by the bundle, and an
    identity for the frame it currently shows. *)
Record HTMLVideoElement := {
  videoWidth : float;
  videoHeight : float;
  frame : nat
}.

(** [NormalizedLandmark] as declared in pose_tracking. *)
Record NormalizedLandmark := {
  x : float;
  y : float;
  visibility : float
}.

(** [NormalizedRect] is declared in solutions_wasm, outside the bundle; the
    bundle only passes it along, so a reference is all that is needed. *)
Definition NormalizedRect : Type := nat.

Inductive value :=
| VUndefined
| VNull
| VBoolean (b : bool)
| VNumber (n : float)
| VString (s : string)
| VVideo (v : HTMLVideoElement)
| VRect (r : NormalizedRect)
| VLandmarks (l : list NormalizedLandmark)
| VObject (ref : nat).

(** ToBoolean. *)
Definition truthy (v : value) : bool :=
  match v with
  | VUndefined | VNull => false
  | VBoolean b => b
  | VNumber n => negb (PrimFloat.eqb n 0%float || PrimFloat.is_nan n)
  | VString s => negb (String.eqb s "")
  | VVideo _ | VRect _ | VLandmarks _ | VObject _ => true
  end.

Inductive error :=
| TypeError (msg : string)
| Error (msg : string).

(** How a call ends: it returns (an awaited promise resolves) or it throws
    (the promise rejects). *)
Inductive outcome (A : Type) :=
| Returns (a : A)
| Throws (e : error).
Arguments Returns {A} a.
Arguments Throws {A} e.

(** State and exception monad; the state written before a throw stays
    written. *)
Definition M (S A : Type) : Type := S → outcome A * S.

Definition ret {S A} (a : A) : M S A := λ s, (Returns a, s).

Definition bind {S A B} (m : M S A) (k : A → M S B) : M S B :=
  λ s, match m s with
       | (Returns a, s') => k a s'
       | (Throws e, s') => (Throws e, s')
       end.

Definition throw {S A} (e : error) : M S A := λ s, (Throws e, s).
Definition get {S} : M S S := λ s, (Returns s, s).
Definition put {S} (s : S) : M S unit := λ _, (Returns tt, s).
Definition modify {S} (f : S → S) : M S unit := λ s, (Returns tt, f s).

(** Run [m] on a part of the state ([this.solution.method()]). *)
Definition zoom {S T A} (proj : S → T) (upd : T → S → S) (m : M T A) : M S A :=
  λ s, let '(r, t) := m (proj s) in (r, upd t s).

(** [for (const x of xs) body(x)]. *)
Fixpoint for_each {S A} (xs : list A) (body : A → M S unit) : M S unit :=
  match xs with
  | [] => ret tt
  | x :: xs' => bind (body x) (λ _, for_each xs' body)
  end.

#[export] Instance M_ret {S} : MRet (M S) := λ A, ret.
#[export] Instance M_bind {S} : MBind (M S) := λ A B k m, bind m k.

End JS.

(** ** The Closure loader: [goog.module] *)

Module Goog.
Import JS.

(** *** Regular expressions of the shape used by [VALID_MODULE_RE_]

    A pattern [^ i1 i2 ... $] whose items are character classes, each taken
    once or under [*].  Without the [m] flag, [^] and [$] match only at the
    two ends of the input. *)

Inductive class_item :=
| Range (lo hi : ascii)
| Single (c : ascii).

Definition class := list class_item.

Definition class_item_matches (i : class_item) (c : ascii) : bool :=
  match i with
  | Range lo hi =>
      (N_of_ascii lo <=? N_of_ascii c)%N && (N_of_ascii c <=? N_of_ascii hi)%N
  | Single c' => Ascii.eqb c' c
  end.

Definition class_matches (cl : class) (c : ascii) : bool :=
  existsb (λ i, class_item_matches i c) cl.

Inductive quantifier := Once | Star.

Definition RegExp := list (class * quantifier).

(** Does the whole of [s] match the items?  [Star] is tried empty first and
    then one character longer, which for a yes/no answer is as good as the
    greedy order. *)
Fixpoint match_here (re : RegExp) : string → bool :=
  match re with
  | [] => λ s, match s with EmptyString => true | _ => false end
  | (cl, Once) :: re' =>
      λ s, match s with
           | EmptyString => false
           | String c s' => class_matches cl c && match_here re' s'
           end
  | (cl, Star) :: re' =>
      fix star (s : string) : bool :=
        match_here re' s ||
        match s with
        | EmptyString => false
        | String c s' => class_matches cl c && star s'
        end
  end.

(** [String.prototype.search] for a pattern anchored at both ends: the only
    place a match can start is index 0. *)
Definition search (s : string) (re : RegExp) : Z :=
  if match_here re s then 0%Z else (-1)%Z.

(** [/^[a-zA-Z_$][a-zA-Z0-9._$]*$/] *)
Definition VALID_MODULE_RE_ : RegExp :=
  [ ([Range "a" "z"; Range "A" "Z"; Single "_"; Single "$"], Once);
    ([Range "a" "z"; Range "A" "Z"; Range "0" "9";
      Single "."; Single "_"; Single "$"], Star) ].

(** *** Loader state *)

Inductive ModuleType := ES6 | GOOG.

Record ModuleLoaderState := {
  moduleName : option string;
  declareLegacyNamespace : bool;
  type : option ModuleType
}.

(** The global object as far as [goog.getObjectByName] can see it: a tree of
    the properties, own or inherited, whose value is neither [null] nor
    [undefined]. *)
#[warnings="-register-all"]
Inductive jsobject := Obj (props : list (string * jsobject)).

Definition get_prop (o : jsobject) (k : string) : option jsobject :=
  let 'Obj props := o in
  snd <$> List.find (λ p, String.eqb (fst p) k) props.

Record Loader := {
  moduleLoaderState_ : option ModuleLoaderState;
  loadedModules_ : gmap string nat;
  implicitNamespaces_ : gmap string bool;
  global : jsobject
}.

(** [var COMPILED = false;] *)
Definition COMPILED : bool := false.

(** [name.split('.')] *)
Fixpoint split_dots_aux (s : string) (cur : string) : list string :=
  match s with
  | EmptyString => [cur]
  | String c s' =>
      if Ascii.eqb c "." then cur :: split_dots_aux s' ""
      else split_dots_aux s' (cur ++ String c "")
  end.

Definition split_dots (s : string) : list string := split_dots_aux s "".

(** [goog.getObjectByName(name)], from [goog.global]; [None] is [null]. *)
Definition getObjectByName (name : string) (l : Loader) : option jsobject :=
  foldl (λ cur part, cur' ← cur; get_prop cur' part)
        (Some (global l)) (split_dots name).

(** Names every plain object inherits from [Object.prototype]; [in] and a
    property read see them too. *)
Definition Object_prototype_keys : list string :=
  [ "constructor"; "toString"; "toLocaleString"; "valueOf";
    "hasOwnProperty"; "isPrototypeOf"; "propertyIsEnumerable";
    "__proto__"; "__defineGetter__"; "__defineSetter__";
    "__lookupGetter__"; "__lookupSetter__" ].

Definition inherited (k : string) : bool :=
  existsb (String.eqb k) Object_prototype_keys.

Definition isProvided_ (name : string) (l : Loader) : bool :=
  (* name in goog.loadedModules_ *)
  (bool_decide (is_Some (loadedModules_ l !! name)) || inherited name)
  || (negb (match implicitNamespaces_ l !! name with
            | Some b => b
            | None => inherited name
            end)
      && bool_decide (is_Some (getObjectByName name l))).

Definition isInGoogModuleLoader_ (l : Loader) : bool :=
  match moduleLoaderState_ l with
  | Some st => match type st with Some GOOG => true | _ => false end
  | None => false
  end.

Definition set_moduleName (name : string) (l : Loader) : Loader :=
  {| moduleLoaderState_ :=
       (λ st, {| moduleName := Some name;
                 declareLegacyNamespace := declareLegacyNamespace st;
                 type := type st |}) <$> moduleLoaderState_ l;
     loadedModules_ := loadedModules_ l;
     implicitNamespaces_ := implicitNamespaces_ l;
     global := global l |}.

Definition delete_implicitNamespace (name : string) (l : Loader) : Loader :=
  {| moduleLoaderState_ := moduleLoaderState_ l;
     loadedModules_ := loadedModules_ l;
     implicitNamespaces_ := delete name (implicitNamespaces_ l);
     global := global l |}.

Definition loaded_incorrectly (name : string) : string :=
  "Module " ++ name ++ " has been loaded incorrectly. Note, " ++
  "modules cannot be loaded as normal scripts. They require some kind of " ++
  "pre-processing step. You're likely trying to load a module via a " ++
  "script tag or as a part of a concatenated bundle without rewriting the " ++
  "module. For more info see: " ++
  "https://github.com/google/closure-library/wiki/goog.module:-an-ES6-module-like-alternative-to-goog.provide.".

Definition quoted (s : string) : string :=
  let q := String (ascii_of_nat 34) "" in q ++ s ++ q.

(** [goog.module = function(name) { ... }] *)
Definition module (name : value) : M Loader unit :=
  match name with
  | VString s =>
      if negb (truthy name) || (search s VALID_MODULE_RE_ =? -1)%Z then
        throw (Error "Invalid module identifier")
      else
        l ← get;
        if negb (isInGoogModuleLoader_ l) then
          throw (Error (loaded_incorrectly s))
        else if match moduleLoaderState_ l ≫= moduleName with
                | Some m => truthy (VString m)
                | None => false
                end then
          throw (Error "goog.module may only be called once per module.")
        else
          (* Store the module name for the loader. *)
          modify (set_moduleName s);;
          if negb COMPILED then
            l ← get;
            (* Ensure that the same namespace isn't provided twice. *)
            if isProvided_ s l then
              throw (Error ("Namespace " ++ quoted s ++ " already declared."))
            else modify (delete_implicitNamespace s)
          else mret tt
  | _ =>
      (* typeof name !== 'string' *)
      throw (Error "Invalid module identifier")
  end.

End Goog.

(** ** solutions_api: the [Solution] facade *)

Module SolutionsApi.
Import JS.

(** *** Data passed to and from the WASM engine *)

(** [GraphOptionXRef] (declared in solutions_wasm): the properties the
    bundle's own configuration gives it. *)
Record GraphOptionXRef := {
  calculatorType : string;
  calculatorIndex : Z;
  fieldName : string
}.

(** [Object.assign(Object.assign({}, xref), {valueNumber})]: the properties
    of the cross-reference and, after them, [valueNumber]. *)
Record GraphOptionChangeRequest := {
  xref : GraphOptionXRef;
  valueNumber : value
}.

Record FrameMetadataWasm := {
  width : value;
  height : value;
  timestampMs : float
}.

(** A [ResultWasm] is known by what its six methods answer. *)
Record ResultWasm := {
  isNumber : bool;
  getNumber : float;
  isRect : bool;
  getRect : NormalizedRect;
  isLandmarks : bool;
  getLandmarks : list NormalizedLandmark
}.

Definition ArrayBuffer : Type := list Byte.byte.
Abbreviation ResultMap := (gmap string value).

(** Objects the bundle holds on to.  The number is the length of the trace
    when the object was made, which tells two of them apart. *)
Inductive MediapipeWasm := MediapipeWasmRef (born : nat).
Inductive SolutionWasm := SolutionWasmRef (born : nat).
Inductive HTMLCanvasElement := CanvasRef (born : nat).
Inductive WebGL2RenderingContext := WebGL2Ref (id : nat).

(** A JavaScript function handed around as a value: one supplied by the
    user of the bundle, or a closure the bundle creates itself. *)
Inductive function :=
| UserFunction (id : nat)
| Closure (name : string).

(** *** Configuration *)

Record Graph := { url : option string }.

(** [const OptionType = { NUMBER: 0 }] *)
Inductive OptionType := NUMBER.

Record OptionConfig := {
  type : OptionType;
  graphOptionXref : option GraphOptionXRef
}.

(** [onRegisterListeners] is a function of the user that is given
    [attachListener]; it is represented by the calls it makes to it. *)
Record SolutionConfig := {
  files : option (list string);
  graph : Graph;
  locateFile_ : option (string → string → string);
  options : option (gmap string OptionConfig);
  onRegisterListeners : option (list (list string * function))
}.

(** [OptionList]: own enumerable properties in [Object.keys] order. *)
Definition OptionList : Type := list (string * value).

Record FrameInputs := { video : value }.

(** *** The world outside the bundle *)

Inductive event :=
| SetWindow (key : string)
| LoadScript (src : string)
| CreateMediapipeWasm
| CreateCanvas
| WasmSetCanvas
| WasmCreateContext
| NewSolutionWasm
| Fetch (resource : string)
| LoadGraph (data : ArrayBuffer)
| BindTextureToCanvas
| GetContext (contextId : string)
| Alert (msg : string)
| ConsoleLog (msg : string)
| ChangeOptions (changes : list GraphOptionChangeRequest)
| AttachMultiListener (wants : list string) (listener : function)
| TexImage2D (gl : WebGL2RenderingContext) (source : value)
| ProcessFrame (inputStreamName : string) (metadata : FrameMetadataWasm)
| Delete
| CallListener (listener : function) (results : ResultMap).

(** What the browser answers. *)
Record Browser := {
  webgl2 : nat → option WebGL2RenderingContext;
  performance_now : nat → float;
  response_body : string → option ArrayBuffer;
  pathname : option string
}.

Record World := {
  trace : list event;
  getContext_calls : nat;
  now_calls : nat
}.

Definition start : World :=
  {| trace := []; getContext_calls := 0; now_calls := 0 |}.

(** *** The [Solution] object *)

Record Solution := {
  config : SolutionConfig;
  needToInitializeWasm : bool;
  needToInitializeGraph : bool;
  locateFile : string → string → string;
  packagePath : string;
  wasm : option MediapipeWasm;
  glCanvas : option HTMLCanvasElement;
  gl : option WebGL2RenderingContext;
  solutionWasm : option SolutionWasm;
  pendingChanges : option (list GraphOptionChangeRequest)
}.

Definition set_needToInitializeWasm (b : bool) (s : Solution) : Solution :=
  {| config := config s; needToInitializeWasm := b;
     needToInitializeGraph := needToInitializeGraph s;
     locateFile := locateFile s; packagePath := packagePath s;
     wasm := wasm s; glCanvas := glCanvas s; gl := gl s;
     solutionWasm := solutionWasm s; pendingChanges := pendingChanges s |}.

Definition set_needToInitializeGraph (b : bool) (s : Solution) : Solution :=
  {| config := config s; needToInitializeWasm := needToInitializeWasm s;
     needToInitializeGraph := b;
     locateFile := locateFile s; packagePath := packagePath s;
     wasm := wasm s; glCanvas := glCanvas s; gl := gl s;
     solutionWasm := solutionWasm s; pendingChanges := pendingChanges s |}.

Definition set_wasm (w : MediapipeWasm) (s : Solution) : Solution :=
  {| config := config s; needToInitializeWasm := needToInitializeWasm s;
     needToInitializeGraph := needToInitializeGraph s;
     locateFile := locateFile s; packagePath := packagePath s;
     wasm := Some w; glCanvas := glCanvas s; gl := gl s;
     solutionWasm := solutionWasm s; pendingChanges := pendingChanges s |}.

Definition set_glCanvas (c : HTMLCanvasElement) (s : Solution) : Solution :=
  {| config := config s; needToInitializeWasm := needToInitializeWasm s;
     needToInitializeGraph := needToInitializeGraph s;
     locateFile := locateFile s; packagePath := packagePath s;
     wasm := wasm s; glCanvas := Some c; gl := gl s;
     solutionWasm := solutionWasm s; pendingChanges := pendingChanges s |}.

Definition set_gl (g : WebGL2RenderingContext) (s : Solution) : Solution :=
  {| config := config s; needToInitializeWasm := needToInitializeWasm s;
     needToInitializeGraph := needToInitializeGraph s;
     locateFile := locateFile s; packagePath := packagePath s;
     wasm := wasm s; glCanvas := glCanvas s; gl := Some g;
     solutionWasm := solutionWasm s; pendingChanges := pendingChanges s |}.

Definition set_solutionWasm (w : SolutionWasm) (s : Solution) : Solution :=
  {| config := config s; needToInitializeWasm := needToInitializeWasm s;
     needToInitializeGraph := needToInitializeGraph s;
     locateFile := locateFile s; packagePath := packagePath s;
     wasm := wasm s; glCanvas := glCanvas s; gl := gl s;
     solutionWasm := Some w; pendingChanges := pendingChanges s |}.

Definition set_pendingChanges (p : option (list GraphOptionChangeRequest))
    (s : Solution) : Solution :=
  {| config := config s; needToInitializeWasm := needToInitializeWasm s;
     needToInitializeGraph := needToInitializeGraph s;
     locateFile := locateFile s; packagePath := packagePath s;
     wasm := wasm s; glCanvas := glCanvas s; gl := gl s;
     solutionWasm := solutionWasm s; pendingChanges := p |}.

(** *** Effects: an object [this] of type [T] next to the [World] *)

Definition Eff (T A : Type) : Type := M (T * World) A.

Definition this {T} : Eff T T := λ σ, (Returns (fst σ), σ).

Definition update {T} (f : T → T) : Eff T unit :=
  modify (λ σ, (f (fst σ), snd σ)).

Definition emit {T} (e : event) : Eff T unit :=
  modify (λ σ, (fst σ,
                {| trace := trace (snd σ) ++ [e];
                   getContext_calls := getContext_calls (snd σ);
                   now_calls := now_calls (snd σ) |})).

(** A stamp for an object made now. *)
Definition born {T} : Eff T nat := λ σ, (Returns (length (trace (snd σ))), σ).

(** Reading a property or calling a method of [o]: a [TypeError] when [o] is
    [undefined]. *)
Definition defined {T A} (o : option A) (what : string) : Eff T A :=
  match o with
  | Some a => mret a
  | None =>
      throw (TypeError ("Cannot read properties of undefined (reading '"
                        ++ what ++ "')"))
  end.

(** *** Module-level helpers *)

Definition API_EXPORT_NAME : string := "createMediapipeSolutionsWasm".
Definition PACK_EXPORT_NAME : string := "createMediapipeSolutionsPackedAssets".

(** [extractWasmResult(result)] *)
Definition extractWasmResult (result : ResultWasm) : value :=
  if isNumber result then VNumber (getNumber result)
  else if isRect result then VRect (getRect result)
  else if isLandmarks result then VLandmarks (getLandmarks result)
  else VUndefined.

(** [defaultLocateFile(file, prefix)] *)
Definition defaultLocateFile (file prefix : string) : string := prefix ++ file.

(** [s.lastIndexOf(c)], [-1] when [c] does not occur. *)
Fixpoint lastIndexOf_from (c : ascii) (s : string) (i found : Z) : Z :=
  match s with
  | EmptyString => found
  | String c' s' =>
      lastIndexOf_from c s' (i + 1) (if Ascii.eqb c c' then i else found)
  end.

Definition lastIndexOf (c : ascii) (s : string) : Z :=
  lastIndexOf_from c s 0 (-1).

(** [s.substring(0, e)]; a negative [e] counts as [0]. *)
Definition substring_to (s : string) (e : Z) : string :=
  String.substring 0 (Z.to_nat e) s.

Section WithBrowser.
Context (env : Browser).

(** [getPackagePath()]: [window.location] on a page, [location] in a worker. *)
Definition getPackagePath : outcome string :=
  match pathname env with
  | Some p => Returns (substring_to p (lastIndexOf "/" p) ++ "/")
  | None =>
      Throws (Error
        "solutions can only be loaded on a web page or in a web worker")
  end.

(** [loadScript(url)], awaited. *)
Definition loadScript {T} (src : string) : Eff T unit := emit (LoadScript src).

(** The browser's next answer to [getContext('webgl2')]. *)
Definition next_webgl2 {T} : Eff T (option WebGL2RenderingContext) :=
  λ σ, (Returns (webgl2 env (getContext_calls (snd σ))),
        (fst σ, {| trace := trace (snd σ);
                   getContext_calls := S (getContext_calls (snd σ));
                   now_calls := now_calls (snd σ) |})).

(** [canvas.getContext('webgl2')] *)
Definition getContext {T} (canvas : HTMLCanvasElement)
    : Eff T (option WebGL2RenderingContext) :=
  emit (GetContext "webgl2");;
  next_webgl2.

(** [performance.now()] *)
Definition now {T} : Eff T float :=
  λ σ, (Returns (performance_now env (now_calls (snd σ))),
        (fst σ, {| trace := trace (snd σ);
                   getContext_calls := getContext_calls (snd σ);
                   now_calls := S (now_calls (snd σ)) |})).

(** [GraphDataImpl] *)
Record GraphDataImpl := {
  gd_graph : Graph;
  gd_locateFile : string → string → string;
  gd_packagePath : string
}.

(** [GraphDataImpl.toArrayBuffer()] *)
Definition toArrayBuffer {T} (g : GraphDataImpl) : Eff T ArrayBuffer :=
  match url (gd_graph g) with
  | Some u =>
      if truthy (VString u) then
        let resource := gd_locateFile g u (gd_packagePath g) in
        emit (Fetch resource);;
        match response_body env resource with
        | Some body => mret body
        | None => mret []
        end
      else mret []
  | None => mret []
  end.

(** [new Solution(config)] *)
Definition new_Solution (config : SolutionConfig) : outcome Solution :=
  match getPackagePath with
  | Returns path =>
      Returns {| config := config;
                 needToInitializeWasm := true;
                 needToInitializeGraph := true;
                 locateFile := default defaultLocateFile (locateFile_ config);
                 packagePath := path;
                 wasm := None; glCanvas := None; gl := None;
                 solutionWasm := None; pendingChanges := None |}
  | Throws e => Throws e
  end.

(** [Solution.prototype.close] *)
Definition close : Eff Solution unit :=
  s ← this;
  match solutionWasm s with
  | Some _ => emit Delete
  | None => mret tt
  end.

(** [Solution.prototype.loadGraph] *)
Definition loadGraph (graph : GraphDataImpl) : Eff Solution unit :=
  graphData ← toArrayBuffer graph;
  s ← this;
  _ ← defined (solutionWasm s) "loadGraph";
  emit (LoadGraph graphData).

(** [Solution.prototype.tryToInitializeWasm] *)
Definition tryToInitializeWasm : Eff Solution unit :=
  s ← this;
  if negb (needToInitializeWasm s) then mret tt
  else
    (* Set up the file loader for both external loaders. *)
    emit (SetWindow API_EXPORT_NAME);;
    emit (SetWindow PACK_EXPORT_NAME);;
    for_each (default [] (files (config s)))
             (λ x, loadScript (locateFile s x (packagePath s)));;
    (* const apiFn = getWindow(API_EXPORT_NAME): the module factory that
       the loader scripts have put there.  When there was no script to
       load it is still the object stored above, and calling it throws. *)
    match default [] (files (config s)) with
    | [] => throw (TypeError "apiFn is not a function")
    | _ :: _ =>
        (* this.wasm = yield apiFn(packFn) *)
        w ← born;
        emit CreateMediapipeWasm;;
        update (set_wasm (MediapipeWasmRef w));;
        c ← born;
        emit CreateCanvas;;
        update (set_glCanvas (CanvasRef c));;
        emit WasmSetCanvas;;
        emit WasmCreateContext;;
        sw ← born;
        emit NewSolutionWasm;;
        update (set_solutionWasm (SolutionWasmRef sw));;
        loadGraph {| gd_graph := graph (config s);
                     gd_locateFile := locateFile s;
                     gd_packagePath := packagePath s |};;
        update (set_needToInitializeWasm false)
    end.

(** [Solution.prototype.setOptions] *)
Definition lookup_option (options : OptionList) (option : string) : value :=
  match List.find (λ kv, String.eqb (fst kv) option) options with
  | Some kv => snd kv
  | None => VUndefined
  end.

Definition change_request (configs : gmap string OptionConfig)
    (options : OptionList) (option : string)
    : list GraphOptionChangeRequest :=
  (* Look each option in the option config.  A name inherited from
     Object.prototype yields an object without graphOptionXref and is
     skipped like a name that is absent. *)
  match configs !! option with
  | Some optionConfig =>
      match graphOptionXref optionConfig with
      | Some x =>
          [ {| xref := x;
               valueNumber := match type optionConfig with
                              | NUMBER => lookup_option options option
                              end |} ]
      | None => []
      end
  | None => []
  end.

Definition setOptions (options : OptionList) : Eff Solution unit :=
  s ← this;
  match SolutionsApi.options (config s) with
  | None => mret tt
  | Some configs =>
      let pendingChanges :=
        flat_map (change_request configs options) (map fst options) in
      if negb (Nat.eqb (length pendingChanges) 0) then
        update (set_needToInitializeGraph true);;
        update (set_pendingChanges (Some pendingChanges))
      else mret tt
  end.

(** [Solution.prototype.attachListener] *)
Definition attachListener (wants : list string) (listener : function)
    : Eff Solution unit :=
  s ← this;
  _ ← defined (wasm s) "StringList";
  _ ← defined (wasm s) "PacketListener";
  _ ← defined (solutionWasm s) "attachMultiListener";
  emit (AttachMultiListener wants listener).

(** [results[key] = v] on an object made by [{}]: an own property, except
    for the key [__proto__], the accessor that [Object.prototype] gives
    every such object: its setter makes no own property.  (A [ResultMap]
    holds the own properties.) *)
Definition assign (key : string) (v : value) (results : ResultMap)
    : ResultMap :=
  if String.eqb key "__proto__" then results else <[key := v]> results.

(** The [onResults] of the listener made by [attachListener].  [wantsCopy]
    is the copy taken when attaching; [wants] is the caller's array as it
    is when the results arrive. *)
Fixpoint collect_results (wantsCopy : list string) (values : list ResultWasm)
    (indices : list nat) (results : ResultMap) : outcome ResultMap :=
  match indices with
  | [] => Returns results
  | index :: rest =>
      match values !! index with
      | Some result =>
          collect_results wantsCopy values rest
            (assign (default "undefined" (wantsCopy !! index))
                    (extractWasmResult result) results)
      | None =>
          Throws (TypeError
            "Cannot read properties of undefined (reading 'isNumber')")
      end
  end.

Definition onResults {T} (wants wantsCopy : list string) (listener : function)
    (values : list ResultWasm) : Eff T unit :=
  match collect_results wantsCopy values (seq 0 (length wants)) ∅ with
  | Returns results => emit (CallListener listener results)
  | Throws e => throw e
  end.

(** [Solution.prototype.tryToInitializeGraph] *)
Definition tryToInitializeGraph : Eff Solution unit :=
  s ← this;
  if negb (needToInitializeGraph s) then mret tt
  else
    _ ← defined (solutionWasm s) "bindTextureToCanvas";
    emit BindTextureToCanvas;;
    (* Move the video frame into the texture. *)
    canvas ← defined (glCanvas s) "getContext";
    gl ← getContext canvas;
    match gl with
    | None =>
        emit (Alert
          "Failed to create WebGL canvas context when passing video frame.")
    | Some gl =>
        update (set_gl gl);;
        (* Changing options on the graph will mutate the graph config. *)
        match pendingChanges s with
        | Some changes =>
            _ ← defined (wasm s) "GraphOptionChangeRequestList";
            emit (ChangeOptions changes);;
            update (set_pendingChanges None)
        | None => mret tt
        end;;
        match onRegisterListeners (config s) with
        | Some attachments =>
            for_each attachments (λ a, attachListener (fst a) (snd a))
        | None => mret tt
        end;;
        update (set_needToInitializeGraph false)
    end.

(** [Solution.prototype.initialize] *)
Definition initialize : Eff Solution unit :=
  tryToInitializeWasm;;
  tryToInitializeGraph.

(** Reading [videoWidth] or [videoHeight] of [inputs.video]. *)
Definition video_property {T} (proj : HTMLVideoElement → float) (what : string)
    (video : value) : Eff T value :=
  match video with
  | VVideo v => mret (VNumber (proj v))
  | VUndefined | VNull =>
      throw (TypeError ("Cannot read properties of undefined (reading '"
                        ++ what ++ "')"))
  | _ => mret VUndefined
  end.

(** [Solution.prototype.processFrame] *)
Definition processFrame (inputStreamName : string)
    (metadata : FrameMetadataWasm) (inputs : FrameInputs)
    : Eff Solution unit :=
  initialize;;
  s ← this;
  _ ← defined (solutionWasm s) "bindTextureToCanvas";
  emit BindTextureToCanvas;;
  gl ← defined (gl s) "texImage2D";
  emit (TexImage2D gl (video inputs));;
  w ← video_property videoWidth "videoWidth" (video inputs);
  h ← video_property videoHeight "videoHeight" (video inputs);
  t ← now;
  emit (ProcessFrame inputStreamName
          {| width := w; height := h; timestampMs := t |}).

End WithBrowser.

End SolutionsApi.

(** ** pose_tracking: [PoseSolution] *)

Module PoseTracking.
Import JS SolutionsApi.

Record PoseSolutionConfig := {
  pose_locateFile : option (string → string → string)
}.

Record Inputs := { inputs_video : value }.

Record Pose := { landmarks : value; rect : value }.
Record Results := { pose : Pose }.

Record PoseSolution := {
  solution : Solution;
  listener : option function
}.

(** The arrow function given to [attachFn] in the constructor. *)
Definition results_relay : function := Closure "PoseSolution.results".

(** The configuration object literal of the constructor. *)
Definition solution_config (config : PoseSolutionConfig) : SolutionConfig :=
  {| locateFile_ := pose_locateFile config;
     files := Some [ "pose_tracking_solution_packed_assets_loader.js";
                     "pose_tracking_solution_wasm_bin.js" ];
     graph := {| url := Some "pose_web.binarypb" |};
     onRegisterListeners :=
       Some [ (["pose_landmarks"; "pose_rect"], results_relay) ];
     options :=
       Some {[ "poseThreshold" :=
                 {| type := NUMBER;
                    graphOptionXref :=
                      Some {| calculatorType := "ThresholdingCalculator";
                              calculatorIndex := 1;
                              fieldName := "threshold" |} |} ]} |}.

(** What [results_relay] does with a result map: the call to the registered
    listener, if there is one. *)
Definition relay_results (results : ResultMap) (p : PoseSolution)
    : option (function * Results) :=
  match listener p with
  | Some l =>
      Some (l, {| pose :=
                    {| landmarks := default VUndefined (results !! "pose_landmarks");
                       rect := default VUndefined (results !! "pose_rect") |} |})
  | None => None
  end.

(** [this.solution.method(...)] *)
Definition on_solution {A} (m : Eff Solution A) : Eff PoseSolution A :=
  zoom (λ σ, (solution (fst σ), snd σ))
       (λ τ σ, ({| solution := fst τ; listener := listener (fst σ) |}, snd τ))
       m.

Section WithBrowser.
Context (env : Browser).

(** [new PoseSolution(config)]; [config = config || {}]. *)
Definition new_PoseSolution (config : option PoseSolutionConfig)
    : outcome PoseSolution :=
  let config := default {| pose_locateFile := None |} config in
  match new_Solution env (solution_config config) with
  | Returns s => Returns {| solution := s; listener := None |}
  | Throws e => Throws e
  end.

(** [PoseSolution.prototype.close] *)
Definition close : Eff PoseSolution unit :=
  on_solution SolutionsApi.close;;
  mret tt.

(** [PoseSolution.prototype.onResults] *)
Definition onResults (l : function) : Eff PoseSolution unit :=
  update (λ p, {| solution := solution p; listener := Some l |}).

(** [PoseSolution.prototype.initialize] *)
Definition initialize : Eff PoseSolution unit :=
  on_solution (SolutionsApi.initialize env).

(** [PoseSolution.prototype.send] *)
Definition send (inputs : Inputs) : Eff PoseSolution unit :=
  if truthy (inputs_video inputs) then
    let video := inputs_video inputs in
    h ← video_property videoHeight "videoHeight" video;
    w ← video_property videoWidth "videoWidth" video;
    t ← now env;
    on_solution
      (processFrame env "input_frames_gpu"
         {| height := h; width := w; timestampMs := t |}
         {| video := video |})
  else mret tt.

(** [PoseSolution.prototype.setOptions] *)
Definition setOptions (options : OptionList) : Eff PoseSolution unit :=
  on_solution (SolutionsApi.setOptions options).

End WithBrowser.

End PoseTracking.

(** ** Clients: sequences of awaited calls *)

Module Client.
Import JS SolutionsApi.

Inductive call :=
| Initialize
| Frame (inputStreamName : string) (metadata : FrameMetadataWasm)
        (inputs : FrameInputs)
| SetOptions (options : OptionList)
| Close.

Definition perform (env : Browser) (c : call) : Eff Solution unit :=
  match c with
  | Initialize => initialize env
  | Frame name metadata inputs => processFrame env name metadata inputs
  | SetOptions options => setOptions options
  | Close => close
  end.

(** A client that awaits each call before it makes the next; it goes on
    after a rejected promise as after a resolved one. *)
Fixpoint run (env : Browser) (calls : list call) (σ : Solution * World)
    : Solution * World :=
  match calls with
  | [] => σ
  | c :: calls' => run env calls' (snd (perform env c σ))
  end.

(** Does the call go through [initialize()]? *)
Definition initializes (c : call) : bool :=
  match c with
  | Initialize | Frame _ _ _ => true
  | SetOptions _ | Close => false
  end.

Inductive pose_call :=
| PoseInitialize
| PoseSend (inputs : PoseTracking.Inputs)
| PoseSetOptions (options : OptionList)
| PoseOnResults (listener : function)
| PoseClose.

Definition pose_perform (env : Browser) (c : pose_call)
    : Eff PoseTracking.PoseSolution unit :=
  match c with
  | PoseInitialize => PoseTracking.initialize env
  | PoseSend inputs => PoseTracking.send env inputs
  | PoseSetOptions options => PoseTracking.setOptions options
  | PoseOnResults l => PoseTracking.onResults l
  | PoseClose => PoseTracking.close
  end.

Fixpoint pose_run (env : Browser) (calls : list pose_call)
    (σ : PoseTracking.PoseSolution * World)
    : PoseTracking.PoseSolution * World :=
  match calls with
  | [] => σ
  | c :: calls' => pose_run env calls' (snd (pose_perform env c σ))
  end.

(** Counting the events of one kind in a trace. *)
Fixpoint count (p : event → bool) (t : list event) : nat :=
  match t with
  | [] => 0
  | e :: t' => (if p e then 1 else 0) + count p t'
  end.

Definition is_LoadScript (e : event) : bool :=
  match e with LoadScript _ => true | _ => false end.
Definition is_CreateMediapipeWasm (e : event) : bool :=
  match e with CreateMediapipeWasm => true | _ => false end.
Definition is_NewSolutionWasm (e : event) : bool :=
  match e with NewSolutionWasm => true | _ => false end.
Definition is_LoadGraph (e : event) : bool :=
  match e with LoadGraph _ => true | _ => false end.
Definition is_ChangeOptions (e : event) : bool :=
  match e with ChangeOptions _ => true | _ => false end.
Definition is_ConsoleLog (e : event) : bool :=
  match e with ConsoleLog _ => true | _ => false end.

(** The events a computation adds to the trace. *)
Definition added {T} (before after : T * World) : list event :=
  drop (length (trace (snd before))) (trace (snd after)).

(** "A [setOptions] that marked the graph dirty makes the next
    [initialize()] load the graph binary again." *)
Definition dirty_graph_is_loaded_again (env : Browser)
    (σ : Solution * World) (options : OptionList) : Prop :=
  let σ1 := snd (setOptions options σ) in
  needToInitializeGraph (fst σ1) = true →
  (1 ≤ count is_LoadGraph (added σ1 (snd (initialize env σ1))))%nat.

(** "When [getContext('webgl2')] gives [null], [initialize()] logs to the
    console and does not throw." *)
Definition context_failure_is_logged (env : Browser)
    (σ : Solution * World) : Prop :=
  webgl2 env (getContext_calls (snd σ)) = None →
  fst (initialize env σ) = Returns tt ∧
  ∃ msg, ConsoleLog msg ∈ added σ (snd (initialize env σ)).

End Client.

(** ** Calls that are not awaited

    [__awaiter] starts the generator of a method at once and runs it as far
    as its first [yield]; there the call returns its promise.  The rest of
    the generator runs later, one stretch from [yield] to [yield] at a
    time, and finds [this] as the calls made in between have left it.  The
    methods of [Solution] that [yield] are given here once more, cut at
    their [yield]s. *)

Module Awaiter.
Import JS SolutionsApi.
#[local] Open Scope list_scope.
#[local] Open Scope nat_scope.

(** The body of a method: it returns, or runs synchronous code and goes
    on, or is at a [yield]. *)
Inductive generator (S A : Type) : Type :=
| Return (a : A)
| Step {X : Type} (m : M S X) (k : X → generator S A)
| Yield (k : generator S A).
Arguments Return {S A} a.
Arguments Step {S A X} m k.
Arguments Yield {S A} k.

Fixpoint gbind {S A B} (g : generator S A) (f : A → generator S B)
    : generator S B :=
  match g with
  | Return a => f a
  | Step m k => Step m (λ x, gbind (k x) f)
  | Yield k => Yield (gbind k f)
  end.

#[export] Instance generator_ret {S} : MRet (generator S) := λ A, Return.
#[export] Instance generator_bind {S} : MBind (generator S) :=
  λ A B f g, gbind g f.

(** Code without a [yield]. *)
Definition sync {S A} (m : M S A) : generator S A := Step m Return.

(** [yield promise], for a promise that settles outside the bundle. *)
Definition yield {S} : generator S unit := Yield (Return tt).

(** [yield this.method()]: the method called runs at once, as far as its
    first [yield]; the caller goes on in a later turn, when the promise of
    the method has settled. *)
Definition await {S A} (callee : generator S A) : generator S A :=
  a ← callee; Yield (Return a).

(** A call that was made: its promise has settled, or its generator is
    suspended at a [yield]. *)
Inductive status (S A : Type) : Type :=
| Settled (r : outcome A)
| Suspended (g : generator S A).
Arguments Settled {S A} r.
Arguments Suspended {S A} g.

Definition settled {S A} (t : status S A) : bool :=
  match t with
  | Settled _ => true
  | Suspended _ => false
  end.

(** Running a generator up to its next [yield]: what [generator.next()]
    does.  A throw rejects the promise. *)
Fixpoint advance {S A} (g : generator S A) (σ : S) : status S A * S :=
  match g with
  | Return a => (Settled (Returns a), σ)
  | Step m k =>
      match m σ with
      | (Returns x, σ') => advance (k x) σ'
      | (Throws e, σ') => (Settled (Throws e), σ')
      end
  | Yield k => (Suspended k, σ)
  end.

Definition resume {S A} (t : status S A) (σ : S) : status S A * S :=
  match t with
  | Settled r => (Settled r, σ)
  | Suspended g => advance g σ
  end.

(** A call that is awaited: nothing else runs before it has settled. *)
Fixpoint complete {S A} (g : generator S A) (σ : S) : outcome A * S :=
  match g with
  | Return a => (Returns a, σ)
  | Step m k =>
      match m σ with
      | (Returns x, σ') => complete (k x) σ'
      | (Throws e, σ') => (Throws e, σ')
      end
  | Yield k => complete k σ
  end.

(** [first(); second()]: the second call is made when the first has
    returned its promise. *)
Definition overlapping {S A B} (first : generator S A)
    (second : generator S B) (σ : S) : status S A * status S B * S :=
  let (p, σ1) := advance first σ in
  let (q, σ2) := advance second σ1 in
  (p, q, σ2).

(** Two calls that were made are resumed in turn, the first before the
    second, [turns] times each. *)
Fixpoint in_turn {S A B} (turns : nat) (p : status S A) (q : status S B)
    (σ : S) : status S A * status S B * S :=
  match turns with
  | 0 => (p, q, σ)
  | S n =>
      let (p', σ1) := resume p σ in
      let (q', σ2) := resume q σ1 in
      in_turn n p' q' σ2
  end.

Definition unawaited {S A B} (first : generator S A)
    (second : generator S B) (turns : nat) (σ : S)
    : status S A * status S B * S :=
  let '(p, q, σ') := overlapping first second σ in
  in_turn turns p q σ'.

Section WithBrowser.
Context (env : Browser).

(** [GraphDataImpl.toArrayBuffer()] *)
Definition toArrayBuffer (g : GraphDataImpl)
    : generator (Solution * World) ArrayBuffer :=
  match url (gd_graph g) with
  | Some u =>
      if truthy (VString u) then
        let resource := gd_locateFile g u (gd_packagePath g) in
        (* const fetched = yield fetch(...) *)
        sync (emit (Fetch resource));;
        yield;;
        match response_body env resource with
        | Some body => mret body
        | None => mret []
        end
      else mret []
  | None => mret []
  end.

(** [Solution.prototype.loadGraph] *)
Definition loadGraph (graph : GraphDataImpl)
    : generator (Solution * World) unit :=
  graphData ← await (toArrayBuffer graph);
  sync (s ← this;
        _ ← defined (solutionWasm s) "loadGraph";
        emit (LoadGraph graphData)).

(** [Solution.prototype.tryToInitializeWasm] *)
Definition tryToInitializeWasm : generator (Solution * World) unit :=
  s ← sync this;
  if negb (needToInitializeWasm s) then mret tt
  else
    (* yield Promise.all(files.map(x => loadScript(...))) *)
    sync (emit (SetWindow API_EXPORT_NAME);;
          emit (SetWindow PACK_EXPORT_NAME);;
          for_each (default [] (files (config s)))
                   (λ x, loadScript (locateFile s x (packagePath s))));;
    yield;;
    match default [] (files (config s)) with
    | [] => sync (throw (TypeError "apiFn is not a function"))
    | _ :: _ =>
        (* this.wasm = yield apiFn(packFn) *)
        w ← sync (w ← born; emit CreateMediapipeWasm;; mret w);
        yield;;
        graphData ← sync (
          update (set_wasm (MediapipeWasmRef w));;
          c ← born;
          emit CreateCanvas;;
          update (set_glCanvas (CanvasRef c));;
          emit WasmSetCanvas;;
          emit WasmCreateContext;;
          sw ← born;
          emit NewSolutionWasm;;
          update (set_solutionWasm (SolutionWasmRef sw));;
          s ← this;
          mret {| gd_graph := graph (config s);
                  gd_locateFile := locateFile s;
                  gd_packagePath := packagePath s |});
        (* yield this.loadGraph(graphData) *)
        await (loadGraph graphData);;
        sync (update (set_needToInitializeWasm false))
    end.

(** [Solution.prototype.initialize]; [tryToInitializeGraph] has no
    [yield]. *)
Definition initialize : generator (Solution * World) unit :=
  await tryToInitializeWasm;;
  await (sync (SolutionsApi.tryToInitializeGraph env)).

(** [Solution.prototype.processFrame] *)
Definition processFrame (inputStreamName : string)
    (metadata : FrameMetadataWasm) (inputs : FrameInputs)
    : generator (Solution * World) unit :=
  await initialize;;
  sync (s ← this;
        _ ← defined (solutionWasm s) "bindTextureToCanvas";
        emit BindTextureToCanvas;;
        gl ← defined (gl s) "texImage2D";
        emit (TexImage2D gl (video inputs));;
        w ← video_property videoWidth "videoWidth" (video inputs);
        h ← video_property videoHeight "videoHeight" (video inputs);
        t ← now env;
        emit (ProcessFrame inputStreamName
                {| width := w; height := h; timestampMs := t |})).

End WithBrowser.

End Awaiter.

(** ** What the properties are stated with *)

Module GoogSpec.
Import JS Goog.

Definition code (c : ascii) : N := N_of_ascii c.

Definition is_letter (c : ascii) : bool :=
  ((97 <=? code c) && (code c <=? 122) || (65 <=? code c) && (code c <=? 90))%N.

Definition is_digit (c : ascii) : bool :=
  ((48 <=? code c) && (code c <=? 57))%N.

Definition identifier_start (c : ascii) : bool :=
  is_letter c || (code c =? 95)%N || (code c =? 36)%N.

Definition identifier_part (c : ascii) : bool :=
  is_letter c || is_digit c || (code c =? 46)%N || (code c =? 95)%N
  || (code c =? 36)%N.

Fixpoint all_chars (p : ascii → bool) (s : string) : bool :=
  match s with
  | EmptyString => true
  | String c s' => p c && all_chars p s'
  end.

(** The pattern read as prose: a non-empty string that begins with a
    letter, [_] or [$] and goes on with letters, digits, [.], [_] and [$]
    up to its end. *)
Definition is_module_identifier (name : value) : bool :=
  match name with
  | VString (String c rest) => identifier_start c && all_chars identifier_part rest
  | _ => false
  end.

(** The loader while a [goog.module] file is being loaded. *)
Definition loader_in_goog_module : Loader :=
  {| moduleLoaderState_ :=
       Some {| moduleName := None; declareLegacyNamespace := false;
               type := Some GOOG |};
     loadedModules_ := ∅;
     implicitNamespaces_ := {[ "goog.module" := true ]};
     global := Obj [("goog", Obj [])] |}.

End GoogSpec.

Module Spec.
Import JS SolutionsApi Client.
Import PoseTracking (PoseSolution, solution, listener).
#[local] Open Scope list_scope.
#[local] Open Scope nat_scope.

(** [m] takes every state to one that [R] relates to it. *)
Definition within {T : Type} (R : T * World → T * World → Prop) {A : Type}
    (m : Eff T A) : Prop :=
  ∀ σ, R σ (snd (m σ)).

(** The events of the WASM phase that are counted. *)
Definition is_load (e : event) : bool :=
  is_LoadScript e || is_CreateMediapipeWasm e || is_NewSolutionWasm e
  || is_LoadGraph e.

(** [σ'] comes after [σ] without any loading: the fields set by the WASM
    phase are as they were and no counted event was added. *)
Definition no_load (σ σ' : Solution * World) : Prop :=
  config (fst σ') = config (fst σ) ∧
  needToInitializeWasm (fst σ') = needToInitializeWasm (fst σ) ∧
  wasm (fst σ') = wasm (fst σ) ∧
  glCanvas (fst σ') = glCanvas (fst σ) ∧
  solutionWasm (fst σ') = solutionWasm (fst σ) ∧
  ∃ evs, trace (snd σ') = trace (snd σ) ++ evs ∧
         Forall (λ e, is_load e = false) evs.

Abbreviation quiet := (within no_load).

(** [w] with [evs] added to its trace. *)
Definition logged (evs : list event) (w : World) : World :=
  {| trace := trace w ++ evs;
     getContext_calls := getContext_calls w;
     now_calls := now_calls w |}.

(** The events of one WASM phase. *)
Definition wasm_phase (env : Browser) (s : Solution) : list event :=
  [SetWindow API_EXPORT_NAME; SetWindow PACK_EXPORT_NAME]
  ++ map (λ x, LoadScript (locateFile s x (packagePath s)))
         (default [] (files (config s)))
  ++ [CreateMediapipeWasm; CreateCanvas; WasmSetCanvas; WasmCreateContext;
      NewSolutionWasm]
  ++ match url (graph (config s)) with
     | Some u =>
         if truthy (VString u) then
           let resource := locateFile s u (packagePath s) in
           [Fetch resource;
            LoadGraph (default [] (response_body env resource))]
         else [LoadGraph []]
     | None => [LoadGraph []]
     end.

(** The fields that the WASM phase sets are set. *)
Definition loaded (s : Solution) : Prop :=
  is_Some (wasm s) ∧ is_Some (glCanvas s) ∧ is_Some (solutionWasm s).

(** What one WASM phase adds to the counts. *)
Definition one_load (cfg : SolutionConfig) (evs : list event) : Prop :=
  count is_LoadScript evs = length (default [] (files cfg)) ∧
  count is_CreateMediapipeWasm evs = 1 ∧
  count is_NewSolutionWasm evs = 1 ∧
  count is_LoadGraph evs = 1.

(** [σ'] comes after [σ] with at most one WASM phase, the first. *)
Definition at_most_first_load (σ σ' : Solution * World) : Prop :=
  no_load σ σ'
  ∨ (config (fst σ') = config (fst σ) ∧
     needToInitializeWasm (fst σ) = true ∧
     needToInitializeWasm (fst σ') = false ∧
     loaded (fst σ') ∧
     ∃ evs, trace (snd σ') = trace (snd σ) ++ evs ∧
            one_load (config (fst σ)) evs).

(** The state of a solution that clients can reach: once
    [needToInitializeWasm] is [false] the fields of the WASM phase are set. *)
Definition well_formed (s : Solution) : Prop :=
  needToInitializeWasm s = false → loaded s.

(** What the WASM phase does before its first [yield]. *)
Definition loader_scripts (s : Solution) : list event :=
  [SetWindow API_EXPORT_NAME; SetWindow PACK_EXPORT_NAME]
  ++ map (λ x, LoadScript (locateFile s x (packagePath s)))
         (default [] (files (config s))).

(** The WASM phase, if it is still to run, has loader scripts to load. *)
Definition can_load (s : Solution) : Prop :=
  needToInitializeWasm s = true → default [] (files (config s)) ≠ [].

(** What a WASM phase adds when the configuration has no loader script,
    before it throws. *)
Definition failed_phase : list event :=
  [SetWindow API_EXPORT_NAME; SetWindow PACK_EXPORT_NAME].

Definition is_GetContext (e : event) : bool :=
  match e with GetContext _ => true | _ => false end.

(** [initialize()], called in [σ], gets as far as asking the canvas for
    its context. *)
Definition asks_for_context (env : Browser) (σ : Solution * World) : Prop :=
  existsb is_GetContext (added σ (snd (initialize env σ))) = true.

(** The value extracted from a result, as the specification words it: the
    number, or the rect, or the landmark list, and [undefined] if the result
    is none of those. *)
Definition extracted (r : ResultWasm) : value :=
  if isNumber r then VNumber (getNumber r)
  else if isRect r then VRect (getRect r)
  else if isLandmarks r then VLandmarks (getLandmarks r)
  else VUndefined.

(** Once the WASM phase is over, [needToInitializeWasm] stays [false]. *)
Definition stays_initialized (σ σ' : Solution * World) : Prop :=
  needToInitializeWasm (fst σ) = false → needToInitializeWasm (fst σ') = false.

(** The world once the graph phase has asked for the WebGL2 context. *)
Definition asked (w : World) : World :=
  {| trace := trace w ++ [BindTextureToCanvas; GetContext "webgl2"];
     getContext_calls := S (getContext_calls w);
     now_calls := now_calls w |}.

Definition no_context_alert : event :=
  Alert "Failed to create WebGL canvas context when passing video frame.".

(** What the graph phase does with the context [g]. *)
Definition configure (s : Solution) (g : WebGL2RenderingContext)
    : Eff Solution unit :=
  update (set_gl g);;
  match pendingChanges s with
  | Some changes =>
      _ ← defined (wasm s) "GraphOptionChangeRequestList";
      emit (ChangeOptions changes);;
      update (set_pendingChanges None)
  | None => mret tt
  end;;
  match onRegisterListeners (config s) with
  | Some attachments =>
      for_each attachments (λ a, attachListener (fst a) (snd a))
  | None => mret tt
  end;;
  update (set_needToInitializeGraph false).

(** The [Solution] inside a [PoseSolution], with the world. *)
Definition inner (σ : PoseSolution * World) : Solution * World :=
  (solution (fst σ), snd σ).

Definition threshold_request (v : value) : GraphOptionChangeRequest :=
  {| xref := {| calculatorType := "ThresholdingCalculator";
                calculatorIndex := 1;
                fieldName := "threshold" |};
     valueNumber := v |}.

(** Does the static option configuration map [option] to a graph parameter
    reference? *)
Definition maps_to_graph_option (cfg : SolutionConfig) (option : string)
    : bool :=
  match options cfg with
  | Some configs =>
      match configs !! option with
      | Some optionConfig =>
          match graphOptionXref optionConfig with
          | Some _ => true
          | None => false
          end
      | None => false
      end
  | None => false
  end.

(** [initialize()] does not read the clock. *)
Definition same_clock (σ σ' : Solution * World) : Prop :=
  now_calls (snd σ') = now_calls (snd σ).

(** What [processFrame] does after [initialize()]. *)
Definition submit env (inputStreamName : string) (inputs : FrameInputs)
    : Eff Solution unit :=
  s ← this;
  _ ← defined (solutionWasm s) "bindTextureToCanvas";
  emit BindTextureToCanvas;;
  gl ← defined (gl s) "texImage2D";
  emit (TexImage2D gl (video inputs));;
  w ← video_property videoWidth "videoWidth" (video inputs);
  h ← video_property videoHeight "videoHeight" (video inputs);
  t ← now env;
  emit (ProcessFrame inputStreamName
          {| width := w; height := h; timestampMs := t |}).

End Spec.

(** ** A page to try things on *)

Module Demo.
Import JS SolutionsApi PoseTracking Client.

Definition context : WebGL2RenderingContext := WebGL2Ref 0.

(** A browser with WebGL2. *)
Definition browser : Browser :=
  {| webgl2 := λ _, Some context;
     performance_now := λ n, PrimFloat.of_uint63 (Uint63.of_Z (16 * Z.of_nat n));
     response_body := λ _, Some [];
     pathname := Some "/demo/index.html" |}.

(** A browser without. *)
Definition browser_without_webgl2 : Browser :=
  {| webgl2 := λ _, None;
     performance_now := performance_now browser;
     response_body := response_body browser;
     pathname := pathname browser |}.

Definition config : SolutionConfig :=
  solution_config {| pose_locateFile := None |}.

(** [new Solution(config)] on that page. *)
Definition fresh : Solution :=
  {| SolutionsApi.config := config;
     needToInitializeWasm := true;
     needToInitializeGraph := true;
     locateFile := defaultLocateFile;
     packagePath := "/demo/";
     wasm := None; glCanvas := None; gl := None;
     solutionWasm := None; pendingChanges := None |}.

(** [new PoseSolution()] on that page. *)
Definition fresh_pose : PoseSolution :=
  {| solution := fresh; listener := None |}.

Definition camera : value :=
  VVideo {| videoWidth := 640; videoHeight := 480; frame := 0 |}.

Definition metadata : FrameMetadataWasm :=
  {| width := VNumber 640; height := VNumber 480; timestampMs := 0 |}.

Definition threshold (v : float) : OptionList := [("poseThreshold", VNumber v)].

Definition session : list call :=
  [ Initialize;
    Frame "input_frames_gpu" metadata {| video := camera |};
    SetOptions (threshold 0.5);
    Initialize;
    Frame "input_frames_gpu" metadata {| video := camera |};
    Close ].

Definition pose_session_calls : list pose_call :=
  [ PoseOnResults (UserFunction 0);
    PoseSend {| PoseTracking.inputs_video := camera |};
    PoseSetOptions (threshold 0.25) ].

Definition loaded_solution : Solution :=
  fst (run browser [Initialize] (fresh, start)).

Definition a_rect : ResultWasm :=
  {| isNumber := false; getNumber := 0;
     isRect := true; getRect := 7;
     isLandmarks := false; getLandmarks := [] |}.

Definition some_landmarks : ResultWasm :=
  {| isNumber := false; getNumber := 0;
     isRect := false; getRect := 0;
     isLandmarks := true;
     getLandmarks := [ {| x := 0.5; y := 0.25; visibility := 1 |} ] |}.

End Demo.

(** ** More to state the behaviour of the facade with *)

Module FacadeSpec.
Import JS SolutionsApi Client Spec.
Import PoseTracking (PoseSolution, solution, listener).
#[local] Open Scope list_scope.
#[local] Open Scope nat_scope.

(** The solution once the graph phase has run with the context [g]. *)
Definition configured (g : WebGL2RenderingContext) (s : Solution) : Solution :=
  {| config := config s;
     needToInitializeWasm := needToInitializeWasm s;
     needToInitializeGraph := false;
     locateFile := locateFile s;
     packagePath := packagePath s;
     wasm := wasm s;
     glCanvas := glCanvas s;
     gl := Some g;
     solutionWasm := solutionWasm s;
     pendingChanges := None |}.

(** What the graph phase asks of the engine once it has the context: the
    pending changes, if any, then every listener of the configuration. *)
Definition configuration_events (s : Solution) : list event :=
  match pendingChanges s with
  | Some changes => [ChangeOptions changes]
  | None => []
  end
  ++ map (λ a, AttachMultiListener (fst a) (snd a))
         (default [] (onRegisterListeners (config s))).

(** The requests that [setOptions(options)] makes of a configuration. *)
Definition requests (cfg : SolutionConfig) (options : OptionList)
    : list GraphOptionChangeRequest :=
  match SolutionsApi.options cfg with
  | Some configs =>
      flat_map (change_request configs options) (map fst options)
  | None => []
  end.

Definition is_ProcessFrame (e : event) : bool :=
  match e with ProcessFrame _ _ => true | _ => false end.
Definition is_TexImage2D (e : event) : bool :=
  match e with TexImage2D _ _ => true | _ => false end.

(** [s.indexOf(c) >= 0] *)
Fixpoint contains (c : ascii) (s : string) : bool :=
  match s with
  | EmptyString => false
  | String c' s' => Ascii.eqb c c' || contains c s'
  end.

(** A configuration with two loader scripts, two graph options and two
    listeners. *)
Definition two_options : SolutionConfig :=
  {| files := Some [ "two_solution_packed_assets_loader.js";
                     "two_solution_wasm_bin.js" ];
     graph := {| url := Some "two.binarypb" |};
     locateFile_ := None;
     options :=
       Some {[ "poseThreshold" :=
                 {| type := NUMBER;
                    graphOptionXref :=
                      Some {| calculatorType := "ThresholdingCalculator";
                              calculatorIndex := 1;
                              fieldName := "threshold" |} |};
               "smoothing" :=
                 {| type := NUMBER;
                    graphOptionXref :=
                      Some {| calculatorType := "SmoothingCalculator";
                              calculatorIndex := 0;
                              fieldName := "alpha" |} |} ]};
     onRegisterListeners :=
       Some [ (["out_landmarks"; "out_rect"], UserFunction 3);
              (["out_score"], UserFunction 4) ] |}.

Definition two_option_solution : Solution :=
  {| config := two_options;
     needToInitializeWasm := true;
     needToInitializeGraph := true;
     locateFile := defaultLocateFile;
     packagePath := "/";
     wasm := None; glCanvas := None; gl := None;
     solutionWasm := None; pendingChanges := None |}.

Definition queued : list GraphOptionChangeRequest :=
  requests two_options [("poseThreshold", VNumber 0.5)].

(** That solution after a [setOptions] that queued a change. *)
Definition pending_solution : Solution :=
  set_pendingChanges (Some queued) two_option_solution.

(** A pose solution that has been initialized on the demo page. *)
Definition loaded_pose : PoseSolution :=
  {| solution := Demo.loaded_solution; listener := None |}.

(** A browser whose first [getContext('webgl2')] fails and whose later ones
    succeed. *)
Definition late_webgl2 : Browser :=
  {| webgl2 := λ n, match n with 0 => None | _ => Some Demo.context end;
     performance_now := performance_now Demo.browser;
     response_body := response_body Demo.browser;
     pathname := pathname Demo.browser |}.

End FacadeSpec.

(** ** Closure: [goog.normalizePath_] *)

Module GoogPaths.
#[local] Open Scope list_scope.
#[local] Open Scope nat_scope.

(** [s.split(sep)] for a separator of one character. *)
Fixpoint split (sep : ascii) (s : string) : list string :=
  match s with
  | EmptyString => [EmptyString]
  | String c s' =>
      if Ascii.eqb c sep then EmptyString :: split sep s'
      else match split sep s' with
           | x :: xs => String c x :: xs
           | [] => [String c EmptyString]
           end
  end.

(** [a.join(sep)] *)
Fixpoint join (sep : string) (a : list string) : string :=
  match a with
  | [] => EmptyString
  | [x] => x
  | x :: xs => x +:+ sep +:+ join sep xs
  end.

(** [a.splice(start, deleteCount)], as it leaves [a]. *)
Definition splice {A} (start deleteCount : nat) (a : list A) : list A :=
  take start a ++ drop (start + deleteCount) a.

(** [components[i] == s] *)
Definition at_is (components : list string) (i : nat) (s : string) : bool :=
  bool_decide (components !! i = Some s).

(** [components[i]] as a condition: there and not the empty string. *)
Definition at_truthy (components : list string) (i : nat) : bool :=
  match components !! i with
  | Some s => negb (String.eqb s EmptyString)
  | None => false
  end.

(** The [while] loop of [goog.normalizePath_]. *)
Equations normalize_loop (components : list string) (i : nat)
    : list string by wf (2 * length components - i) lt :=
  normalize_loop components i with lt_dec i (length components) := {
    | right _ => components
    | left Hi =>
        if at_is components i "." then
          normalize_loop (splice i 1 components) i
        else if negb (Nat.eqb i 0) && at_is components i ".."
                && at_truthy components (i - 1)
                && negb (at_is components (i - 1) "..") then
          normalize_loop (splice (i - 1) 2 components) (i - 1)
        else
          normalize_loop components (i + 1)
  }.
Next Obligation.
  unfold splice. rewrite length_app, length_take, length_drop. lia.
Qed.
Next Obligation.
  unfold splice. rewrite length_app, length_take, length_drop. lia.
Qed.
Next Obligation. lia. Qed.

(** [goog.normalizePath_] *)
Definition normalizePath_ (path : string) : string :=
  join "/" (normalize_loop (split "/" path) 0).

(** *** The loop without indices

    The components before index [i], last first, and those from [i] on. *)

Definition climbs (previous component : string) : bool :=
  String.eqb component ".." && negb (String.eqb previous "")
  && negb (String.eqb previous "..").

Fixpoint normalize_zip (seen rest : list string) : list string :=
  match rest with
  | [] => rev seen
  | c :: rest' =>
      if String.eqb c "." then normalize_zip seen rest'
      else match seen with
           | p :: seen' =>
               if climbs p c then normalize_zip seen' rest'
               else normalize_zip (c :: seen) rest'
           | [] => normalize_zip [c] rest'
           end
  end.

(** No component is [.], and no [..] stands right after a component that
    it could take away. *)
Fixpoint normal (components : list string) : bool :=
  match components with
  | [] => true
  | p :: rest =>
      negb (String.eqb p ".")
      && match rest with
         | c :: _ => negb (climbs p c)
         | [] => true
         end
      && normal rest
  end.

(** [s.indexOf(c) < 0] *)
Fixpoint without (c : ascii) (s : string) : bool :=
  match s with
  | EmptyString => true
  | String c' s' => negb (Ascii.eqb c' c) && without c s'
  end.

End GoogPaths.

(** ** Closure: [goog.protectScriptTag_] *)

Module GoogScript.
#[local] Open Scope list_scope.
#[local] Open Scope nat_scope.

(** The letters [A]-[Z] as [a]-[z]: what the [i] flag makes of a character
    of the pattern and of the input before comparing them. *)
Definition fold_case (c : ascii) : ascii :=
  let n := N_of_ascii c in
  if ((65 <=? n) && (n <=? 90))%N then ascii_of_N (n + 32) else c.

(** Does [s] begin with a match of the literal pattern [pat] under the [i]
    flag?  If so, the matched text and what follows it. *)
Fixpoint match_literal (pat s : string) : option (string * string) :=
  match pat, s with
  | EmptyString, _ => Some (EmptyString, s)
  | String p pat', String c s' =>
      if Ascii.eqb (fold_case p) (fold_case c) then
        match match_literal pat' s' with
        | Some (m, rest) => Some (String c m, rest)
        | None => None
        end
      else None
  | String _ _, EmptyString => None
  end.

(** The equation a [with] clause remembers. *)
Definition inspect {A} (a : A) : {b : A | a = b} := exist _ a eq_refl.

(** [str.replace(/<\/(SCRIPT)/ig, '\\x3c/$1')]: from the left, each match is
    replaced by [\x3c/] and the text of group 1, and the search goes on
    after the match. *)
#[local] Obligation Tactic := idtac.

Equations replace_script_tags (str : string) : string
    by wf (String.length str) lt :=
  replace_script_tags EmptyString := EmptyString;
  replace_script_tags (String c str')
    with inspect (match_literal "</SCRIPT" (String c str')) := {
    | exist _ (Some (m, rest)) Hm =>
        "\x3c/" +:+ String.substring 2 6 m +:+ replace_script_tags rest
    | exist _ None _ => String c (replace_script_tags str')
  }.
Next Obligation.
  intros c str' m rest Hm _.
  assert (Hlen : ∀ pat s m' r, match_literal pat s = Some (m', r) →
            String.length s = String.length pat + String.length r).
  { induction pat as [|p pat IH]; intros [|c0 s] m' r;
      cbn [match_literal String.length]; try congruence;
      try (intros [= _ <-]; reflexivity).
    destruct (Ascii.eqb _ _); [|done].
    destruct (match_literal pat s) as [[m'' r']|] eqn:Hrec; [|done].
    intros [= _ <-]. by rewrite (IH _ _ _ Hrec). }
  rewrite (Hlen _ _ _ _ Hm). cbn [String.length]. lia.
Qed.
Next Obligation. intros. cbn [String.length]. lia. Qed.

(** [goog.protectScriptTag_] *)
Definition protectScriptTag_ (str : string) : string :=
  replace_script_tags str.

(** Is there a match of [pat], under the [i] flag, anywhere in [s]? *)
Fixpoint test_literal (pat s : string) : bool :=
  match match_literal pat s with
  | Some _ => true
  | None =>
      match s with
      | EmptyString => false
      | String _ s' => test_literal pat s'
      end
  end.

(** Characters of a pattern that cannot match a backslash. *)
Fixpoint no_backslash (pat : string) : bool :=
  match pat with
  | EmptyString => true
  | String p pat' =>
      negb (Ascii.eqb (fold_case p) (fold_case "\")) && no_backslash pat'
  end.

End GoogScript.

(** ** Closure: more of the loader *)

Module LoaderSpec.
Import JS Goog.

(** [goog.moduleLoaderState_.moduleName] as a condition. *)
Definition named (l : Loader) : bool :=
  match moduleLoaderState_ l ≫= moduleName with
  | Some m => truthy (VString m)
  | None => false
  end.

(** The loader of a page on which base.js has run and no module is being
    loaded. *)
Definition page_loader : Loader :=
  {| moduleLoaderState_ := None;
     loadedModules_ := ∅;
     implicitNamespaces_ := {[ "goog.module" := true ]};
     global := Obj [("goog", Obj [])] |}.

End LoaderSpec.


(** ** Closure: [goog.loadModule] and [goog.module.get]

    A module is known by the reference of its exports object; the function
    given to [goog.loadModule] gets the reference of the new object [{}]
    and gives back the reference of what it exports.  What
    [goog.loadModule] calls but this file does not define
    ([goog.constructNamespace_] for legacy namespaces, and [eval] of a
    module given as source text behind [goog.loadModuleFromSource_] and
    [goog.useSafari10Workaround]) is a parameter; [Object.seal] changes no
    state of the loader. *)

Module GoogLoading.
Import JS Goog.

Inductive moduleDef :=
| DefFunction (f : nat → M Loader nat)
| DefString (source : string)
| DefOther.

Definition set_moduleLoaderState_ (st : option ModuleLoaderState)
    (l : Loader) : Loader :=
  {| moduleLoaderState_ := st;
     loadedModules_ := loadedModules_ l;
     implicitNamespaces_ := implicitNamespaces_ l;
     global := global l |}.

(** [goog.loadedModules_[moduleName] = data] *)
Definition set_loadedModule (moduleName : string) (exports : nat)
    (l : Loader) : Loader :=
  {| moduleLoaderState_ := moduleLoaderState_ l;
     loadedModules_ := <[moduleName := exports]> (loadedModules_ l);
     implicitNamespaces_ := implicitNamespaces_ l;
     global := global l |}.

(** [try { body } finally { cleanup }] *)
Definition try_finally {S A} (body : M S A) (cleanup : S → S) : M S A :=
  λ s, let '(r, s') := body s in (r, cleanup s').

Definition line_feed : string := String (ascii_of_nat 10) EmptyString.

(** [goog.workaroundSafari10EvalBug] *)
Definition workaroundSafari10EvalBug (moduleDef : string) : string :=
  "(function(){" ++ moduleDef ++ line_feed ++ ";" ++ "})();" ++ line_feed.

(** [goog.moduleLoaderState_.moduleName], read where the state may be
    [null]. *)
Definition read_moduleName : M Loader (option string) :=
  l ← get;
  match moduleLoaderState_ l with
  | Some st => mret (moduleName st)
  | None =>
      throw (TypeError "Cannot read properties of null (reading 'moduleName')")
  end.

Section WithCallees.
Context (constructNamespace_ : string → nat → bool → M Loader unit)
        (loadModuleFromSource_ : nat → string → M Loader nat)
        (useSafari10Workaround : bool).

(** [goog.loadModule(moduleDef)]; [origExports] is the reference of the
    object that [var origExports = {}] makes. *)
Definition loadModule (origExports : nat) (moduleDef : moduleDef)
    : M Loader unit :=
  l ← get;
  let previousState := moduleLoaderState_ l in
  try_finally
    (modify (set_moduleLoaderState_
               (Some {| moduleName := Some EmptyString;
                        declareLegacyNamespace := false;
                        type := Some GOOG |}));;
     exports ←
       match moduleDef with
       | DefFunction f => f origExports
       | DefString source =>
           loadModuleFromSource_ origExports
             (if useSafari10Workaround
              then workaroundSafari10EvalBug source else source)
       | DefOther => throw (Error "Invalid module definition")
       end;
     moduleName ← read_moduleName;
     match moduleName with
     | Some name =>
         if truthy (VString name) then
           l ← get;
           (* Don't seal legacy namespaces as they may be used as a parent
              of another namespace *)
           (if match moduleLoaderState_ l with
               | Some st => declareLegacyNamespace st
               | None => false
               end
            then
              let isDefaultExport := negb (Nat.eqb origExports exports) in
              constructNamespace_ name exports isDefaultExport
            else mret tt);;
           _ ← read_moduleName;
           modify (set_loadedModule name exports)
         else throw (Error ("Invalid module name " ++ quoted name))
     | None => throw (Error ("Invalid module name " ++ quoted "undefined"))
     end)
    (set_moduleLoaderState_ previousState).

End WithCallees.

(** What [goog.module.get] gives. *)
Inductive found :=
| Exports (exports : nat)
| Namespace (ns : jsobject)
| Undefined
| Null.

(** [goog.module.getInternal_] *)
Definition getInternal_ (name : string) (l : Loader) : found :=
  if negb COMPILED then
    match loadedModules_ l !! name with
    | Some exports => Exports exports
    | None =>
        if inherited name then
          (* [name in goog.loadedModules_] through [Object.prototype],
             whose members have no [exports] *)
          Undefined
        else if negb match implicitNamespaces_ l !! name with
                     | Some b => b
                     | None => inherited name
                     end then
          match getObjectByName name l with
          | Some ns => Namespace ns
          | None => Null
          end
        else Null
    end
  else Null.

(** [goog.module.get] *)
Definition module_get (name : string) (l : Loader) : found :=
  getInternal_ name l.

(** [goog.module.declareLegacyNamespace] *)
Definition module_declareLegacyNamespace : M Loader unit :=
  l ← get;
  if negb COMPILED && negb (isInGoogModuleLoader_ l) then
    throw (Error ("goog.module.declareLegacyNamespace must be called from " ++
                  "within a goog.module"))
  else if negb COMPILED
          && negb match moduleLoaderState_ l ≫= moduleName with
                  | Some m => truthy (VString m)
                  | None => false
                  end then
    throw (Error ("goog.module must be called prior to " ++
                  "goog.module.declareLegacyNamespace."))
  else
    modify (λ l,
      set_moduleLoaderState_
        ((λ st, {| moduleName := moduleName st;
                   declareLegacyNamespace := true;
                   type := type st |}) <$> moduleLoaderState_ l) l).

(** The function that each file of the bundle gives to [goog.loadModule]:
    [goog.module(name); ...; return exports;]. *)
Definition bundled (name : string) : moduleDef :=
  DefFunction (λ exports, module (VString name);; mret exports).

End GoogLoading.

(** ** Closure: [goog.Dependency], load callbacks

    Callbacks are functions of the caller, known by a reference; calling
    one is recorded, in order, and the callback does not itself call back
    into the dependency. *)

Module GoogDependency.
Import JS.
#[local] Open Scope list_scope.

Record Dependency := {
  path : string;
  relativePath : string;
  provides : list string;
  requires : list string;
  loaded_ : bool;
  loadCallbacks_ : list nat
}.

(** [new goog.Dependency(path, relativePath, provides, requires,
    loadFlags)] *)
Definition new_Dependency (path relativePath : string)
    (provides requires : list string) : Dependency :=
  {| path := path; relativePath := relativePath;
     provides := provides; requires := requires;
     loaded_ := false; loadCallbacks_ := [] |}.

Definition set_loaded_ (b : bool) (d : Dependency) : Dependency :=
  {| path := path d; relativePath := relativePath d;
     provides := provides d; requires := requires d;
     loaded_ := b; loadCallbacks_ := loadCallbacks_ d |}.

Definition set_loadCallbacks_ (cs : list nat) (d : Dependency) : Dependency :=
  {| path := path d; relativePath := relativePath d;
     provides := provides d; requires := requires d;
     loaded_ := loaded_ d; loadCallbacks_ := cs |}.

(** The dependency and the callbacks called so far. *)
Definition D (A : Type) : Type := M (Dependency * list nat) A.

(** [callback()] *)
Definition call (callback : nat) : D unit :=
  modify (λ σ, (fst σ, snd σ ++ [callback])).

(** [goog.Dependency.prototype.onLoad] *)
Definition onLoad (callback : nat) : D unit :=
  σ ← get;
  if loaded_ (fst σ) then call callback
  else
    modify (λ σ, (set_loadCallbacks_ (loadCallbacks_ (fst σ) ++ [callback])
                    (fst σ), snd σ)).

(** [goog.Dependency.prototype.loaded] *)
Definition loaded : D unit :=
  modify (λ σ, (set_loaded_ true (fst σ), snd σ));;
  σ ← get;
  let callbacks := loadCallbacks_ (fst σ) in
  modify (λ σ, (set_loadCallbacks_ [] (fst σ), snd σ));;
  for_each callbacks call.

(** What a loader and its clients do with one dependency. *)
Inductive op := OnLoad (callback : nat) | Loaded.

Definition perform (o : op) : D unit :=
  match o with
  | OnLoad callback => onLoad callback
  | Loaded => loaded
  end.

Definition run (ops : list op) : D unit := for_each ops perform.

(** The callbacks given to [onLoad], in the order of the calls. *)
Definition registered (ops : list op) : list nat :=
  flat_map (λ o, match o with OnLoad c => [c] | Loaded => [] end) ops.

Definition is_Loaded (o : op) : bool :=
  match o with Loaded => true | OnLoad _ => false end.

(** What holds of a dependency and the calls made so far, after the
    operations [ops]. *)
Definition settled (ops : list op) (σ : Dependency * list nat) : Prop :=
  snd σ ++ loadCallbacks_ (fst σ) = registered ops ∧
  loaded_ (fst σ) = existsb is_Loaded ops ∧
  (loaded_ (fst σ) = true → loadCallbacks_ (fst σ) = []) ∧
  (loaded_ (fst σ) = false → snd σ = []).

End GoogDependency.

(** ** Closure: unique ids

    Objects are plain objects known by a reference; [goog.UID_PROPERTY_] is
    an own property that only these functions write, and no object has a
    [removeAttribute] method. *)

Module GoogUid.
Import JS.

Record Uids := {
  uidCounter_ : nat;
  (** [obj[goog.UID_PROPERTY_]], where the property is there *)
  uid_of : gmap nat nat
}.

(** [goog.uidCounter_ = 0] *)
Definition no_uids : Uids := {| uidCounter_ := 0; uid_of := ∅ |}.

(** [goog.getUid] *)
Definition getUid (obj : nat) : M Uids nat :=
  s ← get;
  match uid_of s !! obj with
  | Some uid =>
      if negb (Nat.eqb uid 0) then mret uid
      else
        let uid := S (uidCounter_ s) in
        put {| uidCounter_ := uid; uid_of := <[obj := uid]> (uid_of s) |};;
        mret uid
  | None =>
      let uid := S (uidCounter_ s) in
      put {| uidCounter_ := uid; uid_of := <[obj := uid]> (uid_of s) |};;
      mret uid
  end.

(** [goog.hasUid] *)
Definition hasUid (obj : nat) (s : Uids) : bool :=
  match uid_of s !! obj with
  | Some uid => negb (Nat.eqb uid 0)
  | None => false
  end.

(** [goog.removeUid] *)
Definition removeUid (obj : nat) : M Uids unit :=
  modify (λ s, {| uidCounter_ := uidCounter_ s;
                  uid_of := delete obj (uid_of s) |}).

Inductive op := GetUid (obj : nat) | RemoveUid (obj : nat).

Definition perform (o : op) : M Uids unit :=
  match o with
  | GetUid obj => getUid obj;; mret tt
  | RemoveUid obj => removeUid obj
  end.

Definition run (ops : list op) : M Uids unit := for_each ops perform.

(** Every id in use was given by the counter, and to one object only. *)
Definition uids_ok (s : Uids) : Prop :=
  (∀ obj uid, uid_of s !! obj = Some uid → 0 < uid ≤ uidCounter_ s) ∧
  (∀ obj1 obj2 uid,
      uid_of s !! obj1 = Some uid → uid_of s !! obj2 = Some uid →
      obj1 = obj2).

End GoogUid.


(** ** tslib: [__values] without [Symbol.iterator], private fields *)

Module Tslib.
Import JS.
#[local] Open Scope list_scope.
#[local] Open Scope nat_scope.

(** [{ value, done }] *)
Record IteratorResult := { r_value : value; r_done : bool }.

(** The variables [o] and [i] that the object made by [__values] closes
    over; [o] is an array or [undefined]. *)
Record values_closure := {
  values_o : option (list value);
  values_i : nat
}.

(** What [__values(o)] returns where [Symbol] is not a function or [o] has
    no [Symbol.iterator]: an object with [next] alone, and [i = 0]. *)
Definition values_of (o : option (list value)) : values_closure :=
  {| values_o := o; values_i := 0 |}.

(** Its [next]. *)
Definition values_next : M values_closure IteratorResult :=
  c ← get;
  (* if (o && i >= o.length) o = void 0; *)
  let o := match values_o c with
           | Some a => if length a <=? values_i c then None else Some a
           | None => None
           end in
  (* return { value: o && o[i++], done: !o }; *)
  match o with
  | Some a =>
      put {| values_o := o; values_i := S (values_i c) |};;
      mret {| r_value := default VUndefined (a !! values_i c);
              r_done := false |}
  | None =>
      put {| values_o := None; values_i := values_i c |};;
      mret {| r_value := VUndefined; r_done := true |}
  end.

(** The two kinds of result. *)
Definition yielded (x : value) : IteratorResult :=
  {| r_value := x; r_done := false |}.
Definition finished : IteratorResult :=
  {| r_value := VUndefined; r_done := true |}.

(** [next()], [n] times. *)
Fixpoint pull (n : nat) : M values_closure (list IteratorResult) :=
  match n with
  | 0 => mret []
  | S n' => r ← values_next; rs ← pull n'; mret (r :: rs)
  end.

(** A [WeakMap] from objects, known by reference, to values. *)
Abbreviation WeakMap := (gmap nat value).

(** [__classPrivateFieldGet] *)
Definition classPrivateFieldGet (receiver : nat) : M WeakMap value :=
  privateMap ← get;
  match privateMap !! receiver with
  | None =>
      throw (TypeError "attempted to get private field on non-instance")
  | Some v => mret v
  end.

(** [__classPrivateFieldSet] *)
Definition classPrivateFieldSet (receiver : nat) (v : value)
    : M WeakMap value :=
  privateMap ← get;
  match privateMap !! receiver with
  | None =>
      throw (TypeError "attempted to set private field on non-instance")
  | Some _ =>
      put (<[receiver := v]> privateMap);;
      mret v
  end.

(** Assignments to private fields, one after the other, as long as none
    throws. *)
Fixpoint assign (sets : list (nat * value)) : M WeakMap unit :=
  match sets with
  | [] => mret tt
  | (receiver, v) :: rest => classPrivateFieldSet receiver v;; assign rest
  end.

End Tslib.
(* ===================================================================== *)
(** * Properties *)
(* ===================================================================== *)

(** ** [goog.module] rejects what is not a module identifier *)

Module GoogFacts.
Import JS Goog GoogSpec.

Lemma first_class_spec c :
  class_matches [Range "a" "z"; Range "A" "Z"; Single "_"; Single "$"] c
  = identifier_start c.
Proof.
  destruct c as [[] [] [] [] [] [] [] []]; reflexivity.
Qed.

Lemma rest_class_spec c :
  class_matches [Range "a" "z"; Range "A" "Z"; Range "0" "9";
                 Single "."; Single "_"; Single "$"] c
  = identifier_part c.
Proof.
  destruct c as [[] [] [] [] [] [] [] []]; reflexivity.
Qed.

(** A starred class at the end of an anchored pattern accepts exactly the
    strings made of that class. *)
Lemma match_here_star_last cl s :
  match_here [(cl, Star)] s = all_chars (class_matches cl) s.
Proof.
  induction s as [|c s IH]; [reflexivity|].
  change (match_here [(cl, Star)] (String c s))
    with (false || class_matches cl c && match_here [(cl, Star)] s).
  rewrite IH. reflexivity.
Qed.

Lemma all_chars_ext p q s :
  (∀ c, p c = q c) → all_chars p s = all_chars q s.
Proof.
  intros Hpq. induction s as [|c s IH]; simpl; [reflexivity|].
  by rewrite Hpq, IH.
Qed.

Lemma match_VALID_MODULE_RE_ s :
  match_here VALID_MODULE_RE_ s = is_module_identifier (VString s).
Proof.
  destruct s as [|c rest]; [reflexivity|].
  change (match_here VALID_MODULE_RE_ (String c rest))
    with (class_matches [Range "a" "z"; Range "A" "Z"; Single "_"; Single "$"] c
          && match_here [([Range "a" "z"; Range "A" "Z"; Range "0" "9";
                           Single "."; Single "_"; Single "$"], Star)] rest).
  rewrite first_class_spec, match_here_star_last.
  simpl. f_equal. apply all_chars_ext, rest_class_spec.
Qed.

Example module_accepts_pose_tracking :
  is_module_identifier
    (VString "google3.third_party.mediapipe.web.solutions.pose_tracking.pose_tracking")
  = true.
Proof. reflexivity. Qed.

Example module_rejects_path :
  search "third_party/mediapipe" VALID_MODULE_RE_ = (-1)%Z.
Proof. reflexivity. Qed.

(** C8. Whatever [name] is, if it is not a non-empty string matching
    [/^[a-zA-Z_$][a-zA-Z0-9._$]*$/] then [goog.module(name)] throws
    [Error('Invalid module identifier')] and the loader state is the one it
    was called in. *)
Theorem module_invalid_identifier_throws (name : value) (l : Loader) :
  is_module_identifier name = false →
  module name l = (Throws (Error "Invalid module identifier"), l).
Proof.
  intros Hbad. destruct name as [| |b|n|s|v|r|ls|ref]; try reflexivity.
  unfold module, search.
  rewrite match_VALID_MODULE_RE_, Hbad. simpl.
  by rewrite orb_true_r.
Qed.

Lemma module_invalid_identifier_throws_witness :
  is_module_identifier (VString "third_party/mediapipe") = false ∧
  module (VString "third_party/mediapipe") loader_in_goog_module
  = (Throws (Error "Invalid module identifier"), loader_in_goog_module).
Proof.
  split; [reflexivity|].
  apply (module_invalid_identifier_throws
           (VString "third_party/mediapipe") loader_in_goog_module).
  reflexivity.
Defined.

End GoogFacts.

(** ** The [Solution] facade *)

Module SolutionFacts.
Import JS SolutionsApi Client Spec.
#[local] Open Scope list_scope.
#[local] Open Scope nat_scope.

(** *** Computations that stay inside a relation between states *)

Section Within.
Context {T : Type} (R : T * World → T * World → Prop).
Context (R_refl : ∀ σ, R σ σ).
Context (R_trans : ∀ σ1 σ2 σ3, R σ1 σ2 → R σ2 σ3 → R σ1 σ3).

Lemma within_ret {A} (a : A) : within R (mret a).
Proof. intros σ. apply R_refl. Qed.

Lemma within_throw {A} (e : error) : within R (@throw _ A e).
Proof. intros σ. apply R_refl. Qed.

Lemma within_this : within R this.
Proof. intros σ. apply R_refl. Qed.

Lemma within_born : within R born.
Proof. intros σ. apply R_refl. Qed.

Lemma within_defined {A} (o : option A) what : within R (defined o what).
Proof. destruct o; [apply within_ret | apply within_throw]. Qed.

Lemma within_bind {A B} (m : Eff T A) (k : A → Eff T B) :
  within R m → (∀ a, within R (k a)) → within R (m ≫= k).
Proof.
  intros Hm Hk σ. unfold mbind, M_bind, bind.
  specialize (Hm σ). destruct (m σ) as [[a|e] σ1]; simpl in *.
  - eapply R_trans; [exact Hm | apply Hk].
  - exact Hm.
Qed.

Lemma within_for_each {A} (xs : list A) (body : A → Eff T unit) :
  (∀ x, within R (body x)) → within R (for_each xs body).
Proof.
  intros Hbody. induction xs as [|x xs IH]; simpl.
  - apply (within_ret tt).
  - apply (within_bind (body x) (λ _, for_each xs body)); auto.
Qed.

End Within.

(** *** Counting *)

Lemma count_app p t1 t2 : count p (t1 ++ t2) = count p t1 + count p t2.
Proof. induction t1 as [|e t1 IH]; simpl; [reflexivity | rewrite IH; lia]. Qed.

Lemma count_none p t : Forall (λ e, p e = false) t → count p t = 0.
Proof. induction 1 as [|e t He _ IH]; simpl; [reflexivity | by rewrite He, IH]. Qed.

Lemma count_map_LoadScript (f : string → string) xs :
  count is_LoadScript (map (λ x, LoadScript (f x)) xs) = length xs.
Proof. induction xs as [|x xs IH]; simpl; [reflexivity | by rewrite IH]. Qed.

Lemma count_map_other p (f : string → string) xs :
  (∀ u, p (LoadScript u) = false) →
  count p (map (λ x, LoadScript (f x)) xs) = 0.
Proof. intros Hp. induction xs as [|x xs IH]; simpl; [reflexivity | by rewrite Hp, IH]. Qed.

(** *** The WASM phase *)

Lemma no_load_refl σ : no_load σ σ.
Proof.
  repeat split. exists []. by rewrite app_nil_r.
Qed.

Lemma no_load_trans σ1 σ2 σ3 : no_load σ1 σ2 → no_load σ2 σ3 → no_load σ1 σ3.
Proof.
  intros (Hc & Hn & Hw & Hg & Hs & evs & Ht & Hq)
         (Hc' & Hn' & Hw' & Hg' & Hs' & evs' & Ht' & Hq').
  repeat split; try congruence.
  exists (evs ++ evs'). split.
  - by rewrite Ht', Ht, app_assoc.
  - by apply Forall_app.
Qed.

Lemma quiet_emit e : is_load e = false → quiet (emit e).
Proof.
  intros He σ. repeat split. exists [e]. split; [reflexivity | by constructor].
Qed.

Lemma quiet_update (f : Solution → Solution) :
  (∀ s, config (f s) = config s ∧
        needToInitializeWasm (f s) = needToInitializeWasm s ∧
        wasm (f s) = wasm s ∧ glCanvas (f s) = glCanvas s ∧
        solutionWasm (f s) = solutionWasm s) →
  quiet (update f).
Proof.
  intros Hf σ. destruct (Hf (fst σ)) as (? & ? & ? & ? & ?).
  repeat split; try assumption. exists []. by rewrite app_nil_r.
Qed.

Lemma quiet_next_webgl2 env : quiet (next_webgl2 env).
Proof. intros σ. repeat split. exists []. by rewrite app_nil_r. Qed.

Lemma quiet_now env : quiet (now env).
Proof. intros σ. repeat split. exists []. by rewrite app_nil_r. Qed.

Create HintDb quiet.

#[local] Hint Resolve no_load_refl no_load_trans : quiet.
#[local] Hint Resolve quiet_next_webgl2 quiet_now : quiet.

(** One step through a computation, for a relation [R] with its
    reflexivity [refl] and transitivity [trans]; [base] deals with [emit],
    [update] and the methods already treated. *)
Ltac within_step R refl trans base :=
  match goal with
  | |- within R (_ ≫= _) => apply (within_bind R trans); [|intros ?]
  | |- within R (mret _) => apply (within_ret R refl)
  | |- within R (throw _) => apply (within_throw R refl)
  | |- within R this => apply (within_this R refl)
  | |- within R born => apply (within_born R refl)
  | |- within R (defined _ _) => apply (within_defined R refl)
  | |- within R (for_each _ _) =>
      apply (within_for_each R refl trans); intros ?
  | |- within R (if ?b then _ else _) => destruct b
  | |- within R (match ?o with Some _ => _ | None => _ end) => destruct o
  | |- within R _ => base
  end.

Ltac quiet_base :=
  idtac;
  match goal with
  | |- within no_load (emit _) => apply quiet_emit; reflexivity
  | |- within no_load (update _) =>
      apply quiet_update; intros ?; by repeat split
  | |- _ => solve [eauto with quiet]
  end.

Ltac quiet :=
  repeat within_step no_load no_load_refl no_load_trans ltac:(quiet_base).

Lemma quiet_close : quiet close.
Proof. unfold close. quiet. Qed.

Lemma quiet_setOptions options : quiet (setOptions options).
Proof. unfold setOptions. quiet. Qed.

Lemma quiet_attachListener wants l : quiet (attachListener wants l).
Proof. unfold attachListener. quiet. Qed.

#[local] Hint Resolve quiet_attachListener : quiet.

Lemma quiet_tryToInitializeGraph env : quiet (tryToInitializeGraph env).
Proof. unfold tryToInitializeGraph, getContext. quiet. Qed.

Lemma quiet_video_property proj what v :
  quiet (video_property proj what v).
Proof. unfold video_property. destruct v; quiet. Qed.

#[local] Hint Resolve quiet_video_property quiet_tryToInitializeGraph : quiet.

Lemma for_each_loadScript (f : string → string) xs (s : Solution) w :
  for_each xs (λ x, loadScript (f x)) (s, w)
  = (Returns tt, (s, logged (map (λ x, LoadScript (f x)) xs) w)).
Proof.
  revert w. induction xs as [|x xs IH]; intros w; simpl.
  - unfold ret, logged. rewrite app_nil_r. by destruct w.
  - unfold bind, loadScript, emit, modify at 1. simpl. rewrite IH.
    unfold logged. simpl. by rewrite <- app_assoc.
Qed.

(** Running the monad on an explicit state. *)
Ltac run1 :=
  cbv [mbind M_bind bind mret M_ret ret throw modify this update emit born
       defined];
  cbn [fst snd trace getContext_calls now_calls logged default negb
       config needToInitializeWasm needToInitializeGraph locateFile
       packagePath wasm glCanvas gl solutionWasm pendingChanges
       set_needToInitializeWasm set_needToInitializeGraph set_wasm
       set_glCanvas set_gl set_solutionWasm set_pendingChanges
       gd_graph gd_locateFile gd_packagePath].

Ltac run := repeat progress run1.

Lemma tryToInitializeWasm_done env s w :
  needToInitializeWasm s = false →
  tryToInitializeWasm env (s, w) = (Returns tt, (s, w)).
Proof. intros Hn. unfold tryToInitializeWasm. run. by rewrite Hn. Qed.

Lemma tryToInitializeWasm_first env s w :
  needToInitializeWasm s = true →
  default [] (files (config s)) ≠ [] →
  ∃ s', tryToInitializeWasm env (s, w)
        = (Returns tt, (s', logged (wasm_phase env s) w)) ∧
        needToInitializeWasm s' = false ∧ loaded s' ∧
        config s' = config s ∧
        needToInitializeGraph s' = needToInitializeGraph s ∧
        pendingChanges s' = pendingChanges s ∧
        gl s' = gl s.
Proof.
  intros Hn Hfiles. unfold tryToInitializeWasm. run. rewrite Hn. run.
  rewrite for_each_loadScript.
  unfold wasm_phase, loadGraph, toArrayBuffer.
  destruct (default [] (files (config s))) as [|file rest] eqn:Hf; [done|].
  cbn [gd_graph gd_locateFile gd_packagePath].
  destruct (url (graph (config s))) as [u|];
    [destruct (truthy (VString u));
     [destruct (response_body env _)|]|].
  all: run.
  all: eexists; split;
    [repeat rewrite <- app_assoc; cbn [app]; reflexivity
    |unfold loaded; cbn; eauto 10].
Qed.

(** With no loader script, the WASM phase stops at [apiFn(packFn)] and
    leaves the solution as it was. *)
Lemma tryToInitializeWasm_no_loader env s w :
  needToInitializeWasm s = true →
  default [] (files (config s)) = [] →
  tryToInitializeWasm env (s, w)
  = (Throws (TypeError "apiFn is not a function"),
     (s, logged failed_phase w)).
Proof.
  intros Hn Hfiles. unfold tryToInitializeWasm. run. rewrite Hn. run.
  rewrite for_each_loadScript, Hfiles. run.
  unfold logged, failed_phase. cbn [map trace]. by rewrite <- !app_assoc.
Qed.

Lemma one_load_wasm_phase env s : one_load (config s) (wasm_phase env s).
Proof.
  unfold one_load, wasm_phase.
  repeat split; rewrite !count_app;
    [rewrite count_map_LoadScript | rewrite count_map_other by done ..];
    destruct (url (graph (config s))) as [u|];
    try destruct (truthy (VString u)); simpl; lia.
Qed.

Lemma count_no_load p evs :
  (∀ e, p e = true → is_load e = true) →
  Forall (λ e, is_load e = false) evs → count p evs = 0.
Proof.
  intros Hp Hq. apply count_none. eapply Forall_impl; [exact Hq|].
  intros e He. simpl in He. destruct (p e) eqn:Hpe; [|done].
  apply Hp in Hpe. congruence.
Qed.

Lemma no_load_counts evs :
  Forall (λ e, is_load e = false) evs →
  count is_LoadScript evs = 0 ∧ count is_CreateMediapipeWasm evs = 0 ∧
  count is_NewSolutionWasm evs = 0 ∧ count is_LoadGraph evs = 0.
Proof.
  intros Hq. repeat split; apply count_no_load; try exact Hq;
    intros e He; unfold is_load; rewrite He; rewrite ?orb_true_r; reflexivity.
Qed.

Lemma one_load_app_l cfg evs evs' :
  Forall (λ e, is_load e = false) evs → one_load cfg evs' →
  one_load cfg (evs ++ evs').
Proof.
  intros Hq (H1 & H2 & H3 & H4). unfold one_load. rewrite !count_app.
  rewrite !(count_no_load _ evs) by
    (try exact Hq; intros e He; unfold is_load; rewrite He;
     rewrite ?orb_true_r; reflexivity).
  auto.
Qed.

Lemma one_load_app_r cfg evs evs' :
  one_load cfg evs → Forall (λ e, is_load e = false) evs' →
  one_load cfg (evs ++ evs').
Proof.
  intros (H1 & H2 & H3 & H4) Hq. unfold one_load. rewrite !count_app.
  rewrite !(count_no_load _ evs') by
    (try exact Hq; intros e He; unfold is_load; rewrite He;
     rewrite ?orb_true_r; reflexivity).
  rewrite !Nat.add_0_r. auto.
Qed.

Lemma at_most_first_load_refl σ : at_most_first_load σ σ.
Proof. left. apply no_load_refl. Qed.

Lemma at_most_first_load_trans σ1 σ2 σ3 :
  at_most_first_load σ1 σ2 → at_most_first_load σ2 σ3 →
  at_most_first_load σ1 σ3.
Proof.
  intros [H|(Hc & Hn1 & Hn2 & Hl & evs & Ht & Ho)]
         [H'|(Hc' & Hn1' & Hn2' & Hl' & evs' & Ht' & Ho')].
  - left. by eapply no_load_trans.
  - destruct H as (Hc & Hn & _ & _ & _ & evs & Ht & Hq).
    right. split; [congruence|]. split; [congruence|].
    split; [done|]. split; [done|].
    exists (evs ++ evs'). split; [by rewrite Ht', Ht, app_assoc|].
    rewrite Hc in Ho'. by apply one_load_app_l.
  - destruct H' as (Hc' & Hn' & Hw' & Hg' & Hs' & evs' & Ht' & Hq').
    right. split; [congruence|]. split; [done|]. split; [congruence|].
    split; [unfold loaded in *; by rewrite Hw', Hg', Hs'|].
    exists (evs ++ evs'). split; [by rewrite Ht', Ht, app_assoc|].
    by apply one_load_app_r.
  - congruence.
Qed.

Lemma at_most_first_load_trace σ σ' :
  at_most_first_load σ σ' → ∃ evs, trace (snd σ') = trace (snd σ) ++ evs.
Proof.
  intros [(_ & _ & _ & _ & _ & evs & Ht & _)|(_ & _ & _ & _ & evs & Ht & _)];
    by exists evs.
Qed.

Lemma quiet_at_most {A} (m : Eff Solution A) :
  quiet m → within at_most_first_load m.
Proof. intros Hm σ. left. apply Hm. Qed.

Lemma tryToInitializeWasm_at_most env :
  within at_most_first_load (tryToInitializeWasm env).
Proof.
  intros [s w]. destruct (needToInitializeWasm s) eqn:Hn.
  - destruct (default [] (files (config s))) as [|file rest] eqn:Hf.
    + rewrite tryToInitializeWasm_no_loader by done.
      left. repeat split. exists failed_phase. split; [done|].
      by repeat constructor.
    + destruct (tryToInitializeWasm_first env s w Hn)
        as (s' & -> & Hn' & Hl & Hc & _); [by rewrite Hf|].
      right. split; [done|]. split; [done|]. split; [done|]. split; [done|].
      exists (wasm_phase env s). split; [done|]. apply one_load_wasm_phase.
  - rewrite tryToInitializeWasm_done by done. apply at_most_first_load_refl.
Qed.

Lemma initialize_at_most env : within at_most_first_load (initialize env).
Proof.
  apply (within_bind _ at_most_first_load_trans).
  - apply tryToInitializeWasm_at_most.
  - intros _. apply quiet_at_most, quiet_tryToInitializeGraph.
Qed.

Lemma processFrame_at_most env name metadata inputs :
  within at_most_first_load (processFrame env name metadata inputs).
Proof.
  apply (within_bind _ at_most_first_load_trans);
    [apply initialize_at_most|].
  intros _. apply quiet_at_most. quiet.
Qed.

Lemma perform_at_most env c : within at_most_first_load (perform env c).
Proof.
  destruct c as [|name metadata inputs|options|]; simpl.
  - apply initialize_at_most.
  - apply processFrame_at_most.
  - apply quiet_at_most, quiet_setOptions.
  - apply quiet_at_most, quiet_close.
Qed.

Lemma run_at_most env calls σ : at_most_first_load σ (run env calls σ).
Proof.
  revert σ. induction calls as [|c calls IH]; intros σ; simpl.
  - apply at_most_first_load_refl.
  - eapply at_most_first_load_trans; [apply perform_at_most | apply IH].
Qed.

Lemma at_most_first_load_well_formed σ σ' :
  at_most_first_load σ σ' → well_formed (fst σ) → well_formed (fst σ').
Proof.
  intros [(_ & Hn & Hw & Hg & Hs & _)|(_ & _ & _ & Hl & _)] Hwf Hn'.
  - unfold loaded. rewrite Hw, Hg, Hs. apply Hwf. congruence.
  - exact Hl.
Qed.

Lemma run_stays_initialized env calls σ :
  stays_initialized σ (run env calls σ).
Proof.
  intros Hn.
  destruct (run_at_most env calls σ) as [(_ & -> & _)|(_ & Hn' & _)];
    congruence.
Qed.

Lemma initialize_initializes env σ :
  default [] (files (config (fst σ))) ≠ [] →
  needToInitializeWasm (fst (snd (initialize env σ))) = false.
Proof.
  destruct σ as [s w]. intros Hfiles. unfold initialize.
  unfold mbind, M_bind, bind.
  destruct (needToInitializeWasm s) eqn:Hn.
  - destruct (tryToInitializeWasm_first env s w Hn Hfiles)
      as (s' & -> & Hn' & _).
    destruct (quiet_tryToInitializeGraph env (s', logged (wasm_phase env s) w))
      as (_ & -> & _). exact Hn'.
  - rewrite tryToInitializeWasm_done by done.
    by destruct (quiet_tryToInitializeGraph env (s, w)) as (_ & -> & _).
Qed.

Lemma perform_initializes env c σ :
  default [] (files (config (fst σ))) ≠ [] →
  initializes c = true →
  needToInitializeWasm (fst (snd (perform env c σ))) = false.
Proof.
  intros Hfiles.
  destruct c as [|name metadata inputs|options|]; simpl; try done; intros _.
  - by apply initialize_initializes.
  - unfold processFrame. unfold mbind at 1, M_bind, bind.
    pose proof (initialize_initializes env σ Hfiles) as Hi.
    destruct (initialize env σ) as [[[]|e] σ1]; [|exact Hi].
    match goal with
    | |- context [?k σ1] =>
        assert (Hq : no_load σ1 (snd (k σ1))) by
          (generalize σ1; change (quiet k); quiet)
    end.
    destruct Hq as (_ & -> & _). exact Hi.
Qed.

Lemma at_most_first_load_config σ σ' :
  at_most_first_load σ σ' → config (fst σ') = config (fst σ).
Proof. by intros [(Hc & _)|(Hc & _)]. Qed.

Lemma added_app {T} (σ σ' : T * World) evs :
  trace (snd σ') = trace (snd σ) ++ evs → added σ σ' = evs.
Proof. intros Ht. unfold added. rewrite Ht. apply drop_app_length. Qed.

Lemma new_Solution_fresh env cfg s0 :
  new_Solution env cfg = Returns s0 →
  config s0 = cfg ∧ needToInitializeWasm s0 = true ∧
  needToInitializeGraph s0 = true ∧ pendingChanges s0 = None.
Proof.
  unfold new_Solution. destruct (getPackagePath env); [|done].
  intros [= <-]. done.
Qed.

(** What the trace of a session counts, from a fresh solution. *)
Lemma session_counts env cfg s0 calls :
  new_Solution env cfg = Returns s0 →
  let σ := run env calls (s0, start) in
  (needToInitializeWasm (fst σ) = true ∧
   Forall (λ e, is_load e = false) (trace (snd σ)))
  ∨ (needToInitializeWasm (fst σ) = false ∧ loaded (fst σ) ∧
     one_load cfg (trace (snd σ))).
Proof.
  intros Hnew. destruct (new_Solution_fresh _ _ _ Hnew) as (Hc & Hn & _).
  simpl.
  destruct (run_at_most env calls (s0, start))
    as [(_ & Hn' & _ & _ & _ & evs & Ht & Hq)
       |(_ & _ & Hn' & Hl & evs & Ht & Ho)]; simpl in *.
  - left. rewrite Ht. split; [congruence | done].
  - right. rewrite Ht, <- Hc. done.
Qed.

Lemma session_initialized env calls σ :
  default [] (files (config (fst σ))) ≠ [] →
  existsb initializes calls = true →
  needToInitializeWasm (fst (run env calls σ)) = false.
Proof.
  revert σ. induction calls as [|c calls IH]; intros σ Hfiles; simpl; [done|].
  destruct (initializes c) eqn:Hc; simpl.
  - intros _. apply run_stays_initialized. by apply perform_initializes.
  - apply IH.
    by rewrite (at_most_first_load_config _ _ (perform_at_most env c σ)).
Qed.

(** *** Loading happens once *)

(** X27. When every call is awaited before the next is made, loading
    happens at most once: in any sequence of awaited calls on a new
    [Solution] (calls of [initialize], of [processFrame], which begins with
    [initialize], of [setOptions] and of [close], in any order) the scripts
    listed in [config.files] are loaded at most once each, the WASM module
    and the [SolutionWasm] object are made at most once, and
    [SolutionWasm.loadGraph] is called at most once. *)
Theorem initialize_loads_at_most_once env cfg s0 calls :
  new_Solution env cfg = Returns s0 →
  let t := trace (snd (run env calls (s0, start))) in
  count is_LoadScript t ≤ length (default [] (files cfg)) ∧
  count is_CreateMediapipeWasm t ≤ 1 ∧
  count is_NewSolutionWasm t ≤ 1 ∧
  count is_LoadGraph t ≤ 1.
Proof.
  intros Hnew.
  destruct (session_counts env cfg s0 calls Hnew)
    as [(_ & Hq)|(_ & _ & H1 & H2 & H3 & H4)]; simpl.
  - destruct (no_load_counts _ Hq) as (-> & -> & -> & ->). lia.
  - lia.
Qed.

Lemma initialize_loads_at_most_once_witness :
  let t := trace (snd (run Demo.browser Demo.session (Demo.fresh, start))) in
  count is_LoadScript t ≤ 2 ∧
  count is_CreateMediapipeWasm t ≤ 1 ∧
  count is_NewSolutionWasm t ≤ 1 ∧
  count is_LoadGraph t ≤ 1.
Proof.
  apply (initialize_loads_at_most_once
           Demo.browser Demo.config Demo.fresh Demo.session).
  reflexivity.
Defined.

(** After [initialize()], [setOptions({poseThreshold: 0.5})] marks the graph
    dirty, and the [initialize()] that follows does not call
    [SolutionWasm.loadGraph]. *)
Example dirty_graph_is_not_loaded_again :
  ¬ dirty_graph_is_loaded_again Demo.browser
      (run Demo.browser [Initialize] (Demo.fresh, start))
      (Demo.threshold 0.5).
Proof.
  unfold dirty_graph_is_loaded_again. intros H.
  specialize (H eq_refl). vm_compute in H. lia.
Qed.

(** *** The graph phase *)

Lemma quiet_configure s g : quiet (configure s g).
Proof. unfold configure. quiet. Qed.

Lemma tryToInitializeGraph_clean env s w :
  needToInitializeGraph s = false →
  tryToInitializeGraph env (s, w) = (Returns tt, (s, w)).
Proof. intros Hn. unfold tryToInitializeGraph. run. by rewrite Hn. Qed.

Lemma tryToInitializeGraph_dirty env s w :
  needToInitializeGraph s = true → loaded s →
  tryToInitializeGraph env (s, w)
  = match webgl2 env (getContext_calls w) with
    | Some g => configure s g (s, asked w)
    | None => (Returns tt, (s, logged [no_context_alert] (asked w)))
    end.
Proof.
  intros Hn (_ & [c Hc] & [sw Hsw]).
  unfold tryToInitializeGraph, getContext, next_webgl2, configure, asked.
  run. rewrite Hn, Hsw, Hc. run. rewrite <- app_assoc. cbn [app].
  destruct (webgl2 env (getContext_calls w)); reflexivity.
Qed.

(** On a solution whose WASM phase is over, [initialize()] is the graph
    phase. *)
Lemma initialize_loaded env s w :
  needToInitializeWasm s = false →
  initialize env (s, w) = tryToInitializeGraph env (s, w).
Proof.
  intros Hn. unfold initialize, mbind, M_bind, bind.
  by rewrite tryToInitializeWasm_done.
Qed.

(** C2, as the code has it. In any sequence of awaited calls on a new
    [Solution] whose configuration names its loader scripts, with at least
    one [initialize] or [processFrame], the first phase, guarded by
    [needToInitializeWasm], has run exactly once: each script of
    [config.files] is loaded once, the WASM module and the [SolutionWasm]
    object are made once and the graph binary is loaded once, in that
    phase.  A [setOptions] that marks the graph dirty makes the next
    [initialize()] run the graph phase again (it binds the texture and asks
    for the WebGL2 context), and that does not load the graph binary
    again. *)
Theorem initialize_loads_exactly_once env cfg s0 calls :
  new_Solution env cfg = Returns s0 →
  default [] (files cfg) ≠ [] →
  existsb initializes calls = true →
  let σ := run env calls (s0, start) in
  needToInitializeWasm (fst σ) = false ∧
  count is_LoadScript (trace (snd σ)) = length (default [] (files cfg)) ∧
  count is_CreateMediapipeWasm (trace (snd σ)) = 1 ∧
  count is_NewSolutionWasm (trace (snd σ)) = 1 ∧
  count is_LoadGraph (trace (snd σ)) = 1 ∧
  ∀ options,
    let σ1 := snd (setOptions options σ) in
    let σ2 := snd (initialize env σ1) in
    count is_LoadGraph (added σ1 σ2) = 0 ∧
    (needToInitializeGraph (fst σ1) = true →
     take 2 (added σ1 σ2) = [BindTextureToCanvas; GetContext "webgl2"]).
Proof.
  intros Hnew Hfiles Hinit.
  assert (Hn : needToInitializeWasm (fst (run env calls (s0, start))) = false).
  { apply session_initialized; [|done]. cbn [fst].
    by destruct (new_Solution_fresh _ _ _ Hnew) as (-> & _). }
  destruct (session_counts env cfg s0 calls Hnew)
    as [(Hn' & _)|(_ & Hl & H1 & H2 & H3 & H4)]; [simpl in *; congruence|].
  simpl. repeat (split; [assumption|]).
  intros options.
  set (σ := run env calls (s0, start)) in *.
  destruct (quiet_setOptions options σ) as (_ & Hn1 & Hw & Hg & Hs & _).
  set (σ1 := snd (setOptions options σ)) in *.
  assert (Hl1 : loaded (fst σ1)) by (unfold loaded; by rewrite Hw, Hg, Hs).
  rewrite Hn in Hn1. destruct σ1 as [s1 w1]; simpl in *.
  rewrite initialize_loaded by done. split.
  - destruct (quiet_tryToInitializeGraph env (s1, w1))
      as (_ & _ & _ & _ & _ & evs & Ht & Hq).
    rewrite (added_app _ _ _ Ht). by apply no_load_counts.
  - intros Hdirty. rewrite tryToInitializeGraph_dirty by done.
    destruct (webgl2 env (getContext_calls w1)) as [g|].
    + destruct (quiet_configure s1 g (s1, asked w1))
        as (_ & _ & _ & _ & _ & evs & Ht & _).
      erewrite added_app; [|rewrite Ht; simpl; by rewrite <- app_assoc].
      reflexivity.
    + erewrite added_app; [|simpl; by rewrite <- app_assoc]. reflexivity.
Qed.

Lemma initialize_loads_exactly_once_witness :
  let σ := run Demo.browser Demo.session (Demo.fresh, start) in
  needToInitializeWasm (fst σ) = false ∧
  count is_LoadScript (trace (snd σ)) = 2 ∧
  count is_CreateMediapipeWasm (trace (snd σ)) = 1 ∧
  count is_NewSolutionWasm (trace (snd σ)) = 1 ∧
  count is_LoadGraph (trace (snd σ)) = 1 ∧
  ∀ options,
    let σ1 := snd (setOptions options σ) in
    let σ2 := snd (initialize Demo.browser σ1) in
    count is_LoadGraph (added σ1 σ2) = 0 ∧
    (needToInitializeGraph (fst σ1) = true →
     take 2 (added σ1 σ2) = [BindTextureToCanvas; GetContext "webgl2"]).
Proof.
  apply (initialize_loads_exactly_once
           Demo.browser Demo.config Demo.fresh Demo.session);
    [reflexivity | discriminate | reflexivity].
Defined.

(** *** [getContext('webgl2')] gives [null] *)

(** On a page without WebGL2 the first [initialize()] returns, and no
    event of its trace is a console message. *)
Example context_failure_is_not_logged :
  ¬ context_failure_is_logged Demo.browser_without_webgl2 (Demo.fresh, start).
Proof.
  unfold context_failure_is_logged. intros H.
  destruct (H eq_refl) as (_ & msg & Hin).
  vm_compute in Hin. apply list_elem_of_In in Hin. simpl in Hin.
  intuition discriminate.
Qed.

Lemma wasm_phase_no_console env s msg : ConsoleLog msg ∉ wasm_phase env s.
Proof.
  unfold wasm_phase. rewrite !not_elem_of_app. repeat split.
  - intros H. apply list_elem_of_In in H. simpl in H. intuition discriminate.
  - intros (x & Hx & _)%list_elem_of_fmap. discriminate.
  - intros H. apply list_elem_of_In in H. simpl in H. intuition discriminate.
  - destruct (url (graph (config s))) as [u|];
      [destruct (truthy (VString u))|];
      intros H; apply list_elem_of_In in H; simpl in H;
      intuition discriminate.
Qed.

Lemma initialize_no_loader env s w :
  needToInitializeWasm s = true →
  default [] (files (config s)) = [] →
  initialize env (s, w)
  = (Throws (TypeError "apiFn is not a function"),
     (s, logged failed_phase w)).
Proof.
  intros Hn Hfiles. unfold initialize, mbind, M_bind, bind.
  by rewrite tryToInitializeWasm_no_loader.
Qed.

(** An [initialize()] that asks for the context has got through its WASM
    phase. *)
Lemma asks_for_context_can_load env s w :
  asks_for_context env (s, w) → can_load s.
Proof.
  intros Hasks Hn Hfiles. unfold asks_for_context in Hasks.
  rewrite initialize_no_loader in Hasks by done.
  erewrite added_app in Hasks by reflexivity. discriminate Hasks.
Qed.

(** C4, as the code has it. When [initialize()] asks for the context and
    [getContext('webgl2')] gives [null], [initialize()] does not throw.
    After the WASM phase, if that was still to run, the graph phase binds
    the texture, asks for the context, calls [alert('Failed to create WebGL
    canvas context when passing video frame.')] and returns: nothing is
    logged to the console, [needToInitializeGraph] stays [true], [gl] is
    left as it was and pending option changes stay queued. *)
Theorem initialize_without_webgl2 env s w :
  well_formed s →
  needToInitializeGraph s = true →
  asks_for_context env (s, w) →
  webgl2 env (getContext_calls w) = None →
  let r := initialize env (s, w) in
  fst r = Returns tt ∧
  added (s, w) (snd r)
  = (if needToInitializeWasm s then wasm_phase env s else [])
    ++ [BindTextureToCanvas; GetContext "webgl2";
        Alert "Failed to create WebGL canvas context when passing video frame."] ∧
  (∀ msg, ConsoleLog msg ∉ added (s, w) (snd r)) ∧
  needToInitializeGraph (fst (snd r)) = true ∧
  gl (fst (snd r)) = gl s ∧
  pendingChanges (fst (snd r)) = pendingChanges s.
Proof.
  intros Hwf Hdirty Hasks%asks_for_context_can_load Hnull.
  assert (Hadd : ∀ evs (σ' : Solution * World),
    added (s, w) σ' = evs ++ [BindTextureToCanvas; GetContext "webgl2";
                              no_context_alert] →
    (∀ msg, ConsoleLog msg ∉ evs) →
    ∀ msg, ConsoleLog msg ∉ added (s, w) σ').
  { intros evs σ' -> Hevs msg. rewrite not_elem_of_app. split; [apply Hevs|].
    intros H. apply list_elem_of_In in H. simpl in H.
    unfold no_context_alert in H. intuition discriminate. }
  destruct (needToInitializeWasm s) eqn:Hn.
  - destruct (tryToInitializeWasm_first env s w Hn (Hasks Hn))
      as (s' & Hrun & Hn' & Hl & Hc & Hg & Hp & Hgl).
    assert (Hr : initialize env (s, w)
                 = (Returns tt,
                    (s', logged [no_context_alert]
                           (asked (logged (wasm_phase env s) w))))).
    { unfold initialize, mbind, M_bind, bind. rewrite Hrun.
      rewrite tryToInitializeGraph_dirty by congruence.
      simpl. by rewrite Hnull. }
    simpl. rewrite Hr. simpl.
    assert (Ht : added (s, w)
                   (s', logged [no_context_alert]
                          (asked (logged (wasm_phase env s) w)))
                 = wasm_phase env s
                   ++ [BindTextureToCanvas; GetContext "webgl2";
                       no_context_alert]).
    { apply added_app. cbn [trace snd fst logged asked].
      rewrite <- !app_assoc. reflexivity. }
    split; [done|]. split; [exact Ht|].
    split; [apply (Hadd _ _ Ht), wasm_phase_no_console|].
    repeat split; congruence.
  - assert (Hr : initialize env (s, w)
                 = (Returns tt, (s, logged [no_context_alert] (asked w)))).
    { rewrite initialize_loaded, tryToInitializeGraph_dirty by auto.
      by rewrite Hnull. }
    simpl. rewrite Hr. simpl.
    assert (Ht : added (s, w) (s, logged [no_context_alert] (asked w))
                 = [] ++ [BindTextureToCanvas; GetContext "webgl2";
                          no_context_alert]).
    { apply added_app. cbn [trace snd fst logged asked].
      rewrite <- !app_assoc. reflexivity. }
    split; [done|]. split; [exact Ht|].
    split; [apply (Hadd _ _ Ht); intros msg; apply not_elem_of_nil|]. done.
Qed.

Lemma initialize_without_webgl2_witness :
  let r := initialize Demo.browser_without_webgl2 (Demo.fresh, start) in
  fst r = Returns tt ∧
  added (Demo.fresh, start) (snd r)
  = wasm_phase Demo.browser_without_webgl2 Demo.fresh
    ++ [BindTextureToCanvas; GetContext "webgl2";
        Alert "Failed to create WebGL canvas context when passing video frame."] ∧
  (∀ msg, ConsoleLog msg ∉ added (Demo.fresh, start) (snd r)) ∧
  needToInitializeGraph (fst (snd r)) = true ∧
  gl (fst (snd r)) = None ∧
  pendingChanges (fst (snd r)) = None.
Proof.
  apply (initialize_without_webgl2
           Demo.browser_without_webgl2 Demo.fresh start).
  - intros Hn. discriminate Hn.
  - reflexivity.
  - reflexivity.
  - reflexivity.
Defined.

End SolutionFacts.

(** ** [PoseSolution] *)

Module PoseFacts.
Import JS SolutionsApi Client Spec SolutionFacts.
Import PoseTracking (PoseSolution, solution, listener, on_solution,
                     new_PoseSolution, solution_config, results_relay).
#[local] Open Scope list_scope.
#[local] Open Scope nat_scope.

Lemma on_solution_run {A} (m : Eff Solution A) σ :
  fst (on_solution m σ) = fst (m (inner σ)) ∧
  inner (snd (on_solution m σ)) = snd (m (inner σ)).
Proof.
  unfold on_solution, zoom, inner.
  destruct (m (solution σ.1, σ.2)) as [r [s' w']]. done.
Qed.

Lemma on_solution_at_most {A} (m : Eff Solution A) σ :
  within at_most_first_load m →
  at_most_first_load (inner σ) (inner (snd (on_solution m σ))).
Proof.
  intros Hm. destruct (on_solution_run m σ) as (_ & ->). apply Hm.
Qed.

Lemma video_property_state {T} proj what v (σ : T * World) :
  snd (video_property proj what v σ) = σ.
Proof. destruct v; reflexivity. Qed.

Lemma pose_perform_at_most env c σ :
  at_most_first_load (inner σ) (inner (snd (pose_perform env c σ))).
Proof.
  destruct c as [|inputs|options|l|]; simpl.
  - apply on_solution_at_most, initialize_at_most.
  - unfold PoseTracking.send.
    destruct (truthy _); [|apply at_most_first_load_refl].
    unfold mbind, M_bind, bind.
    pose proof (video_property_state (T:=PoseSolution)
                  videoHeight "videoHeight"
                  (PoseTracking.inputs_video inputs) σ) as Hh.
    destruct (video_property videoHeight _ _ σ) as [[h|e] σh];
      simpl in Hh; subst σh; [|apply at_most_first_load_refl].
    pose proof (video_property_state (T:=PoseSolution)
                  videoWidth "videoWidth"
                  (PoseTracking.inputs_video inputs) σ) as Hw.
    destruct (video_property videoWidth _ _ σ) as [[w|e] σw];
      simpl in Hw; subst σw; [|apply at_most_first_load_refl].
    unfold now. cbn [fst snd].
    eapply at_most_first_load_trans;
      [|apply on_solution_at_most, processFrame_at_most].
    left. repeat split. exists []. by rewrite app_nil_r.
  - apply on_solution_at_most, quiet_at_most, quiet_setOptions.
  - apply at_most_first_load_refl.
  - unfold PoseTracking.close, mbind, M_bind, bind.
    pose proof (on_solution_at_most close σ (quiet_at_most _ quiet_close)) as H.
    destruct (on_solution close σ) as [[[]|e] σ1]; exact H.
Qed.

Lemma pose_run_at_most env calls σ :
  at_most_first_load (inner σ) (inner (pose_run env calls σ)).
Proof.
  revert σ. induction calls as [|c calls IH]; intros σ; simpl.
  - apply at_most_first_load_refl.
  - eapply at_most_first_load_trans; [apply pose_perform_at_most | apply IH].
Qed.

(** A pose solution, whenever a client gets to call it, has the
    configuration of the constructor and is well formed. *)
Lemma pose_session env cfg p0 calls :
  new_PoseSolution env cfg = Returns p0 →
  let s := solution (fst (pose_run env calls (p0, start))) in
  config s = solution_config (default {| PoseTracking.pose_locateFile := None |} cfg)
  ∧ well_formed s.
Proof.
  unfold new_PoseSolution. intros Hnew.
  destruct (new_Solution env _) as [s0|e] eqn:Hs0; [|done].
  injection Hnew as <-.
  destruct (new_Solution_fresh _ _ _ Hs0) as (Hc & Hn & _).
  pose proof (pose_run_at_most env calls
                ({| solution := s0; listener := None |}, start)) as H.
  split.
  - destruct H as [(Hc' & _)|(Hc' & _)]; simpl in Hc'; simpl; congruence.
  - apply (at_most_first_load_well_formed _ _ H). simpl.
    intros Hn'. congruence.
Qed.

(** *** [setOptions({poseThreshold: v})] *)

Lemma setOptions_poseThreshold c s w v :
  config s = solution_config c →
  setOptions [("poseThreshold", v)] (s, w)
  = (Returns tt,
     (set_pendingChanges (Some [threshold_request v])
        (set_needToInitializeGraph true s), w)).
Proof.
  intros Hc. unfold setOptions. run. rewrite Hc. reflexivity.
Qed.

Lemma configure_pose c s g w changes :
  config s = solution_config c → loaded s →
  pendingChanges s = Some changes →
  configure s g (s, w)
  = (Returns tt,
     (set_needToInitializeGraph false (set_pendingChanges None (set_gl g s)),
      logged [ChangeOptions changes;
              AttachMultiListener ["pose_landmarks"; "pose_rect"]
                results_relay] w)).
Proof.
  intros Hc ([m Hm] & _ & [sw Hsw]) Hp.
  unfold configure, attachListener. run. rewrite Hp, Hm, Hc.
  cbn [onRegisterListeners solution_config for_each]. run.
  rewrite Hm, Hsw. run. rewrite <- app_assoc. reflexivity.
Qed.

(** C3. On a pose solution, at any point of its life,
    [setOptions({poseThreshold: v})] leaves exactly one change request
    queued: [calculatorType = 'ThresholdingCalculator'],
    [calculatorIndex = 1], [fieldName = 'threshold'], [valueNumber = v].
    If the WebGL2 context can be had, the next [initialize()] passes that
    one request, and nothing else, to [SolutionWasm.changeOptions] and
    leaves [pendingChanges] undefined. *)
Theorem setOptions_poseThreshold_then_initialize env cfg p0 calls v :
  new_PoseSolution env cfg = Returns p0 →
  let σ := pose_run env calls (p0, start) in
  let r1 := PoseTracking.setOptions [("poseThreshold", v)] σ in
  fst r1 = Returns tt ∧
  pendingChanges (solution (fst (snd r1))) = Some [threshold_request v] ∧
  (is_Some (webgl2 env (getContext_calls (snd (snd r1)))) →
   let r2 := PoseTracking.initialize env (snd r1) in
   fst r2 = Returns tt ∧
   added (snd r1) (snd r2)
   = (if needToInitializeWasm (solution (fst σ))
      then wasm_phase env (solution (fst σ)) else [])
     ++ [BindTextureToCanvas; GetContext "webgl2";
         ChangeOptions [threshold_request v];
         AttachMultiListener ["pose_landmarks"; "pose_rect"] results_relay] ∧
   pendingChanges (solution (fst (snd r2))) = None).
Proof.
  intros Hnew. destruct (pose_session env cfg p0 calls Hnew) as (Hc & Hwf).
  cbv zeta in *.
  destruct (pose_run env calls (p0, start)) as [p w]. cbn [fst snd] in *.
  set (s := solution p) in *.
  set (s1 := set_pendingChanges (Some [threshold_request v])
               (set_needToInitializeGraph true s)).
  assert (Hr1 : PoseTracking.setOptions [("poseThreshold", v)] (p, w)
                = (Returns tt, ({| solution := s1; listener := listener p |}, w))).
  { unfold PoseTracking.setOptions, on_solution, zoom. cbn [fst snd].
    fold s. by rewrite (setOptions_poseThreshold _ _ _ _ Hc). }
  rewrite Hr1. cbn [fst snd solution]. split; [done|]. split; [done|].
  intros [g Hg].
  unfold PoseTracking.initialize, on_solution, zoom. cbn [fst snd solution].
  destruct (needToInitializeWasm s) eqn:Hn.
  - assert (Hfiles : default [] (files (config s1)) ≠ [])
      by (change (config s1) with (config s); by rewrite Hc).
    destruct (tryToInitializeWasm_first env s1 w Hn Hfiles)
      as (s' & Hrun & Hn' & Hl & Hc' & Hg' & Hp' & _).
    assert (Hr : initialize env (s1, w)
                 = (Returns tt,
                    (set_needToInitializeGraph false
                       (set_pendingChanges None (set_gl g s')),
                     logged [ChangeOptions [threshold_request v];
                             AttachMultiListener
                               ["pose_landmarks"; "pose_rect"] results_relay]
                       (asked (logged (wasm_phase env s1) w))))).
    { unfold initialize, mbind, M_bind, bind. rewrite Hrun.
      rewrite tryToInitializeGraph_dirty by (rewrite ?Hg'; done).
      cbn [logged getContext_calls]. rewrite Hg.
      apply (configure_pose _ _ _ _ _ (eq_trans Hc' Hc) Hl Hp'). }
    rewrite Hr. cbn [fst snd solution]. split; [done|]. split; [|done].
    apply added_app. cbn [trace snd fst logged asked].
    rewrite <- !app_assoc. reflexivity.
  - assert (Hl : loaded s1) by (apply Hwf, Hn).
    assert (Hr : initialize env (s1, w)
                 = (Returns tt,
                    (set_needToInitializeGraph false
                       (set_pendingChanges None (set_gl g s1)),
                     logged [ChangeOptions [threshold_request v];
                             AttachMultiListener
                               ["pose_landmarks"; "pose_rect"] results_relay]
                       (asked w)))).
    { rewrite initialize_loaded, tryToInitializeGraph_dirty by done.
      rewrite Hg. by apply (configure_pose _ s1 _ _ _ Hc Hl). }
    rewrite Hr. cbn [fst snd solution]. split; [done|]. split; [|done].
    apply added_app. cbn [trace snd fst logged asked].
    rewrite <- !app_assoc. reflexivity.
Qed.

Lemma setOptions_poseThreshold_then_initialize_witness :
  let σ := pose_run Demo.browser Demo.pose_session_calls (Demo.fresh_pose, start) in
  let r1 := PoseTracking.setOptions [("poseThreshold", VNumber 0.5)] σ in
  fst r1 = Returns tt ∧
  pendingChanges (solution (fst (snd r1)))
  = Some [threshold_request (VNumber 0.5)] ∧
  (is_Some (webgl2 Demo.browser (getContext_calls (snd (snd r1)))) →
   let r2 := PoseTracking.initialize Demo.browser (snd r1) in
   fst r2 = Returns tt ∧
   added (snd r1) (snd r2)
   = (if needToInitializeWasm (solution (fst σ))
      then wasm_phase Demo.browser (solution (fst σ)) else [])
     ++ [BindTextureToCanvas; GetContext "webgl2";
         ChangeOptions [threshold_request (VNumber 0.5)];
         AttachMultiListener ["pose_landmarks"; "pose_rect"] results_relay] ∧
   pendingChanges (solution (fst (snd r2))) = None).
Proof.
  exact (setOptions_poseThreshold_then_initialize
           Demo.browser None Demo.fresh_pose Demo.pose_session_calls
           (VNumber 0.5) eq_refl).
Defined.

End PoseFacts.

(** ** Listeners, options, frames and [close] *)

Module FacadeFacts.
Import JS SolutionsApi Client Spec SolutionFacts.
Import PoseTracking (PoseSolution, solution, listener).
#[local] Open Scope list_scope.
#[local] Open Scope nat_scope.

(** *** Results reach the listener *)

Example extractWasmResult_number r :
  isNumber r = true → extractWasmResult r = VNumber (getNumber r).
Proof. intros H. unfold extractWasmResult. by rewrite H. Qed.

Example extractWasmResult_none r :
  isNumber r = false → isRect r = false → isLandmarks r = false →
  extractWasmResult r = VUndefined.
Proof. intros H1 H2 H3. unfold extractWasmResult. by rewrite H1, H2, H3. Qed.

(** C5. [attachListener(['pose_landmarks','pose_rect'], cb)] registers one
    multi-listener for these two streams.  When the engine delivers a
    vector of two results to it, [cb] is called once, with the object
    [{pose_landmarks: v0, pose_rect: v1}] where [v0] and [v1] are the
    values extracted from elements 0 and 1: the number, the rect or the
    landmark list the element holds, [undefined] if it holds none of
    them. *)
Theorem attachListener_relays_results (s : Solution) (w : World)
    (cb : function) (r0 r1 : ResultWasm) :
  loaded s →
  let wants := ["pose_landmarks"; "pose_rect"] in
  attachListener wants cb (s, w)
  = (Returns tt, (s, logged [AttachMultiListener wants cb] w)) ∧
  ∀ σ : Solution * World,
    onResults wants wants cb [r0; r1] σ
    = (Returns tt,
       (fst σ,
        logged [CallListener cb
                  {[ "pose_landmarks" := extracted r0;
                     "pose_rect" := extracted r1 ]}]
          (snd σ))).
Proof.
  intros ([m Hm] & _ & [sw Hsw]). split.
  - unfold attachListener. run. rewrite Hm, Hsw. reflexivity.
  - intros σ. unfold onResults. simpl. unfold assign. simpl.
    rewrite (insert_insert_ne _ "pose_rect" "pose_landmarks") by done.
    rewrite insert_empty. reflexivity.
Qed.

Lemma attachListener_relays_results_witness :
  loaded Demo.loaded_solution ∧
  let wants := ["pose_landmarks"; "pose_rect"] in
  attachListener wants (UserFunction 1) (Demo.loaded_solution, start)
  = (Returns tt,
     (Demo.loaded_solution,
      logged [AttachMultiListener wants (UserFunction 1)] start)) ∧
  ∀ σ : Solution * World,
    onResults wants wants (UserFunction 1)
      [Demo.some_landmarks; Demo.a_rect] σ
    = (Returns tt,
       (fst σ,
        logged [CallListener (UserFunction 1)
                  {[ "pose_landmarks" :=
                       VLandmarks [ {| x := 0.5; y := 0.25;
                                       visibility := 1 |} ];
                     "pose_rect" := VRect 7 ]}]
          (snd σ))).
Proof.
  assert (Hl : loaded Demo.loaded_solution).
  { unfold loaded. vm_compute. repeat split; eexists; reflexivity. }
  split; [exact Hl|].
  exact (attachListener_relays_results
           Demo.loaded_solution start (UserFunction 1)
           Demo.some_landmarks Demo.a_rect Hl).
Defined.

(** *** Options that are not graph options *)

(** C7. If no key of [options] is mapped by the option configuration to a
    graph parameter reference, [setOptions(options)] does nothing: it
    returns, the solution (with [pendingChanges] and
    [needToInitializeGraph]) is as before and nothing is added to the
    trace. *)
Theorem setOptions_without_graph_options (s : Solution) (w : World)
    (options : OptionList) :
  forallb (λ k, negb (maps_to_graph_option (config s) k)) (map fst options)
  = true →
  setOptions options (s, w) = (Returns tt, (s, w)).
Proof.
  intros Hnone. unfold setOptions. run.
  unfold maps_to_graph_option in Hnone.
  destruct (SolutionsApi.options (config s)) as [configs|]; [|done].
  assert (Hnil : flat_map (change_request configs options) (map fst options)
                 = []).
  { generalize dependent (map fst options). intros keys.
    induction keys as [|k keys IH]; simpl; [done|].
    intros [Hk Hkeys]%andb_prop. rewrite IH by done.
    unfold change_request.
    destruct (configs !! k) as [oc|]; [|done].
    by destruct (graphOptionXref oc). }
  rewrite Hnil. reflexivity.
Qed.

Lemma setOptions_without_graph_options_witness :
  setOptions [("modelComplexity", VNumber 1); ("toString", VNull)]
    (Demo.fresh, start)
  = (Returns tt, (Demo.fresh, start)).
Proof.
  apply (setOptions_without_graph_options Demo.fresh start
           [("modelComplexity", VNumber 1); ("toString", VNull)]).
  reflexivity.
Defined.

(** *** Frames *)

Example falsy_values :
  map truthy [VUndefined; VNull; VBoolean false; VNumber 0; VNumber (-0);
              VNumber nan; VString ""]
  = [false; false; false; false; false; false; false].
Proof. reflexivity. Qed.

(** C6. If [inputs.video] is falsy or missing, [send(inputs)] resolves and
    changes nothing: no initialisation, no [processFrame], no event in the
    trace, the same [PoseSolution]. *)
Theorem send_without_video env (inputs : PoseTracking.Inputs)
    (σ : PoseSolution * World) :
  truthy (PoseTracking.inputs_video inputs) = false →
  PoseTracking.send env inputs σ = (Returns tt, σ).
Proof. intros Hfalsy. unfold PoseTracking.send. by rewrite Hfalsy. Qed.

Lemma send_without_video_witness :
  PoseTracking.send Demo.browser
    {| PoseTracking.inputs_video := VUndefined |} (Demo.fresh_pose, start)
  = (Returns tt, (Demo.fresh_pose, start)).
Proof.
  apply (send_without_video Demo.browser
           {| PoseTracking.inputs_video := VUndefined |}
           (Demo.fresh_pose, start)).
  reflexivity.
Defined.

Lemma same_clock_refl σ : same_clock σ σ.
Proof. reflexivity. Qed.

Lemma same_clock_trans σ1 σ2 σ3 :
  same_clock σ1 σ2 → same_clock σ2 σ3 → same_clock σ1 σ3.
Proof. unfold same_clock. congruence. Qed.

Ltac clock_base := idtac; solve [intros ?; reflexivity].

Lemma initialize_same_clock env : within same_clock (initialize env).
Proof.
  unfold initialize, tryToInitializeWasm, tryToInitializeGraph, loadGraph,
    toArrayBuffer, getContext, attachListener, loadScript.
  repeat within_step same_clock same_clock_refl same_clock_trans
           ltac:(clock_base).
Qed.

Lemma submit_video env name inputs v s w :
  video inputs = VVideo v →
  fst (submit env name inputs (s, w)) = Returns tt →
  ∃ g, gl s = Some g ∧
    trace (snd (snd (submit env name inputs (s, w))))
    = trace w
      ++ [BindTextureToCanvas;
          TexImage2D g (VVideo v);
          ProcessFrame name
            {| width := VNumber (videoWidth v);
               height := VNumber (videoHeight v);
               timestampMs := performance_now env (now_calls w) |}].
Proof.
  intros Hv. unfold submit, now. rewrite Hv. run.
  destruct (solutionWasm s); [|done]. run.
  destruct (gl s) as [g|]; [|done]. run.
  intros _. exists g. split; [done|]. cbn. by rewrite <- !app_assoc.
Qed.

(** C9. [processFrame] does not look at its [metadata] argument: two calls
    that differ only there do the same.  When the frame is an
    [HTMLVideoElement] and the call returns, what it adds after
    [initialize()] is [bindTextureToCanvas], [texImage2D] and one
    [SolutionWasm.processFrame] whose metadata is [videoWidth],
    [videoHeight] and [performance.now()] read at that moment. *)
Theorem processFrame_ignores_metadata env (inputStreamName : string)
    (metadata metadata' : FrameMetadataWasm) (inputs : FrameInputs)
    (σ : Solution * World) :
  processFrame env inputStreamName metadata inputs σ
  = processFrame env inputStreamName metadata' inputs σ ∧
  ∀ v, video inputs = VVideo v →
    fst (processFrame env inputStreamName metadata inputs σ) = Returns tt →
    ∃ g,
      gl (fst (snd (initialize env σ))) = Some g ∧
      added σ (snd (processFrame env inputStreamName metadata inputs σ))
      = added σ (snd (initialize env σ))
        ++ [BindTextureToCanvas;
            TexImage2D g (VVideo v);
            ProcessFrame inputStreamName
              {| width := VNumber (videoWidth v);
                 height := VNumber (videoHeight v);
                 timestampMs := performance_now env (now_calls (snd σ)) |}].
Proof.
  split; [reflexivity|].
  intros v Hv.
  change (processFrame env inputStreamName metadata inputs σ)
    with (bind (initialize env) (λ _, submit env inputStreamName inputs) σ).
  unfold bind.
  pose proof (initialize_same_clock env σ) as Hclock.
  destruct (at_most_first_load_trace _ _ (initialize_at_most env σ))
    as (evs & Ht).
  destruct (initialize env σ) as [[[]|e] [s1 w1]]; [|done].
  unfold same_clock in Hclock. cbn [fst snd] in *.
  intros Hret.
  destruct (submit_video env inputStreamName inputs v s1 w1 Hv Hret)
    as (g & Hg & Hsub).
  exists g. split; [done|].
  rewrite <- Hclock, (added_app σ (s1, w1) evs Ht).
  apply added_app. rewrite Hsub, Ht, <- !app_assoc. reflexivity.
Qed.

Lemma processFrame_ignores_metadata_witness :
  let σ := (Demo.fresh, start) in
  let frame := {| videoWidth := 640; videoHeight := 480; frame := 0 |} in
  let call m := processFrame Demo.browser "input_frames_gpu" m
                  {| video := VVideo frame |} σ in
  call Demo.metadata
  = call {| width := VUndefined; height := VNull; timestampMs := 1 |} ∧
  ∃ g,
    gl (fst (snd (initialize Demo.browser σ))) = Some g ∧
    added σ (snd (call Demo.metadata))
    = added σ (snd (initialize Demo.browser σ))
      ++ [BindTextureToCanvas;
          TexImage2D g (VVideo frame);
          ProcessFrame "input_frames_gpu"
            {| width := VNumber 640; height := VNumber 480;
               timestampMs := performance_now Demo.browser 0 |}].
Proof.
  pose proof (processFrame_ignores_metadata Demo.browser "input_frames_gpu"
                Demo.metadata
                {| width := VUndefined; height := VNull; timestampMs := 1 |}
                {| video := VVideo {| videoWidth := 640; videoHeight := 480;
                                      frame := 0 |} |}
                (Demo.fresh, start)) as [Hsame Hmeta].
  split; [exact Hsame|].
  exact (Hmeta _ eq_refl eq_refl).
Defined.

(** Without a WebGL2 context [this.gl] is never set, and the frame that
    follows ends in a [TypeError] at [gl.texImage2D]. *)
Example processFrame_without_webgl2 :
  fst (processFrame Demo.browser_without_webgl2 "input_frames_gpu"
         Demo.metadata {| video := Demo.camera |} (Demo.fresh, start))
  = Throws (TypeError
      "Cannot read properties of undefined (reading 'texImage2D')").
Proof. reflexivity. Qed.

(** *** [close] *)

(** C10. [close()] can be called at any time.  On a [Solution] whose
    [SolutionWasm] object was never made it calls nothing and resolves;
    otherwise it calls [delete] on that object and resolves.
    [PoseSolution.close()] does the same through its solution and
    resolves. *)
Theorem close_resolves (s : Solution) (p : PoseSolution) (w : World) :
  close (s, w)
  = (Returns tt,
     (s, match solutionWasm s with
         | Some _ => logged [Delete] w
         | None => w
         end)) ∧
  PoseTracking.close (p, w)
  = (Returns tt,
     (p, match solutionWasm (solution p) with
         | Some _ => logged [Delete] w
         | None => w
         end)).
Proof.
  split.
  - unfold close. run. by destruct (solutionWasm s).
  - unfold PoseTracking.close, PoseTracking.on_solution, zoom, close. run.
    destruct p as [s' l]. cbn [solution listener].
    by destruct (solutionWasm s').
Qed.

Example close_before_initialize env cfg s0 :
  new_Solution env cfg = Returns s0 →
  close (s0, start) = (Returns tt, (s0, start)).
Proof.
  unfold new_Solution. destruct (getPackagePath env); [|done].
  by intros [= <-].
Qed.

End FacadeFacts.

(** ** Calls that are not awaited *)

Module AwaiterFacts.
Import JS SolutionsApi Client Spec SolutionFacts Awaiter.
#[local] Open Scope list_scope.
#[local] Open Scope nat_scope.

(** *** An awaited call is the call of [SolutionsApi] *)

Lemma complete_bind {S A B} (g : generator S A) (f : A → generator S B) σ :
  complete (gbind g f) σ
  = match complete g σ with
    | (Returns a, σ') => complete (f a) σ'
    | (Throws e, σ') => (Throws e, σ')
    end.
Proof.
  revert σ. induction g as [a|X m k IH|k IH]; intros σ; cbn [gbind complete].
  - reflexivity.
  - destruct (m σ) as [[x|e] σ']; [apply IH | reflexivity].
  - apply IH.
Qed.

Lemma bind_run {T A B} (m : Eff T A) (f : A → Eff T B) σ :
  (m ≫= f) σ
  = match m σ with
    | (Returns a, σ') => f a σ'
    | (Throws e, σ') => (Throws e, σ')
    end.
Proof. reflexivity. Qed.

Lemma complete_sync {S A} (m : M S A) σ : complete (sync m) σ = m σ.
Proof. unfold sync. cbn [complete]. by destruct (m σ) as [[a|e] σ']. Qed.

Lemma complete_await {S A} (g : generator S A) σ :
  complete (await g) σ = complete g σ.
Proof.
  unfold await. cbv [mbind generator_bind]. rewrite complete_bind.
  by destruct (complete g σ) as [[a|e] σ'].
Qed.

Ltac awaited1 :=
  cbv [mbind generator_bind mret generator_ret M_bind M_ret];
  rewrite ?complete_bind, ?complete_await, ?complete_sync;
  cbn [complete yield].

Ltac awaited := repeat progress (awaited1; run).

Lemma complete_toArrayBuffer env g σ :
  complete (Awaiter.toArrayBuffer env g) σ
  = SolutionsApi.toArrayBuffer env g σ.
Proof.
  unfold Awaiter.toArrayBuffer, SolutionsApi.toArrayBuffer.
  destruct (url (gd_graph g)) as [u|]; [|reflexivity].
  destruct (truthy (VString u)); [|reflexivity].
  awaited. destruct σ as [s w]. run.
  by destruct (response_body env _).
Qed.

Lemma complete_loadGraph env g σ :
  complete (Awaiter.loadGraph env g) σ = SolutionsApi.loadGraph env g σ.
Proof.
  unfold Awaiter.loadGraph, SolutionsApi.loadGraph.
  rewrite bind_run. awaited1. rewrite complete_toArrayBuffer.
  destruct (SolutionsApi.toArrayBuffer env g σ) as [[b|e] σ'];
    [apply complete_sync | reflexivity].
Qed.

Lemma complete_tryToInitializeWasm env σ :
  complete (Awaiter.tryToInitializeWasm env) σ
  = SolutionsApi.tryToInitializeWasm env σ.
Proof.
  destruct σ as [s w].
  unfold Awaiter.tryToInitializeWasm, SolutionsApi.tryToInitializeWasm.
  awaited. run.
  destruct (needToInitializeWasm s); [|reflexivity]. cbn [negb].
  awaited. run. rewrite for_each_loadScript.
  destruct (default [] (files (config s))) as [|file rest].
  { awaited. reflexivity. }
  awaited. run. rewrite complete_loadGraph.
  match goal with
  | |- context [SolutionsApi.loadGraph env ?g ?σ] =>
      destruct (SolutionsApi.loadGraph env g σ) as [[[]|e] [s' w']]
  end; reflexivity.
Qed.

(** Awaited, [initialize()] is the [initialize] of [SolutionsApi]. *)
Lemma complete_initialize env σ :
  complete (Awaiter.initialize env) σ = SolutionsApi.initialize env σ.
Proof.
  unfold Awaiter.initialize, SolutionsApi.initialize.
  rewrite bind_run. awaited1. rewrite complete_tryToInitializeWasm.
  destruct (SolutionsApi.tryToInitializeWasm env σ) as [[[]|e] σ'];
    [|reflexivity].
  awaited. reflexivity.
Qed.

Lemma complete_processFrame env name metadata inputs σ :
  complete (Awaiter.processFrame env name metadata inputs) σ
  = SolutionsApi.processFrame env name metadata inputs σ.
Proof.
  unfold Awaiter.processFrame, SolutionsApi.processFrame.
  rewrite bind_run. awaited1. rewrite complete_initialize.
  destruct (SolutionsApi.initialize env σ) as [[[]|e] σ'];
    [apply complete_sync | reflexivity].
Qed.

(** *** Two calls, the first not awaited *)

Lemma advance_bind {S A B} (g : generator S A) (f : A → generator S B) σ :
  advance (gbind g f) σ
  = match advance g σ with
    | (Settled (Returns a), σ') => advance (f a) σ'
    | (Settled (Throws e), σ') => (Settled (Throws e), σ')
    | (Suspended g', σ') => (Suspended (gbind g' f), σ')
    end.
Proof.
  revert σ. induction g as [a|X m k IH|k IH]; intros σ; cbn [gbind advance].
  - reflexivity.
  - destruct (m σ) as [[x|e] σ']; [apply IH | reflexivity].
  - reflexivity.
Qed.

(** A call on a solution that is still to be loaded returns its promise
    when the scripts have been appended; the solution is as it was. *)
Lemma initialize_call env s w :
  needToInitializeWasm s = true →
  ∃ g, advance (Awaiter.initialize env) (s, w)
       = (Suspended g, (s, logged (loader_scripts s) w)).
Proof.
  intros Hn. unfold Awaiter.initialize, await, Awaiter.tryToInitializeWasm.
  cbv [mbind generator_bind]. rewrite !advance_bind.
  unfold sync at 1. cbn [advance]. run. rewrite Hn. cbn [negb].
  rewrite !advance_bind. unfold sync at 1. cbn [advance]. run.
  rewrite for_each_loadScript. cbn [advance yield].
  eexists. f_equal. f_equal. unfold logged, loader_scripts.
  cbn [trace getContext_calls now_calls]. by rewrite <- !app_assoc.
Qed.

(** X28. [initialize()] returns its promise with [needToInitializeWasm]
    still set: a second [initialize()] made before the first has settled
    goes through the guard as well.  When both calls have returned their
    promises, neither has settled, the solution is as it was, and the
    window variables have been set and every script of [config.files]
    appended to the page twice. *)
Theorem unawaited_calls_load_scripts_twice env s w :
  needToInitializeWasm s = true →
  let r := overlapping (Awaiter.initialize env) (Awaiter.initialize env)
             (s, w) in
  settled (fst (fst r)) = false ∧ settled (snd (fst r)) = false ∧
  fst (snd r) = s ∧
  added (s, w) (snd r) = loader_scripts s ++ loader_scripts s.
Proof.
  intros Hn. cbv zeta. unfold overlapping.
  destruct (initialize_call env s w Hn) as (p & ->).
  destruct (initialize_call env s (logged (loader_scripts s) w) Hn)
    as (q & ->).
  cbn [fst snd settled]. repeat split.
  apply added_app. cbn [fst snd trace logged]. by rewrite <- app_assoc.
Qed.

Lemma unawaited_calls_load_scripts_twice_witness :
  let r := overlapping (Awaiter.initialize Demo.browser)
             (Awaiter.initialize Demo.browser) (Demo.fresh, start) in
  settled (fst (fst r)) = false ∧ settled (snd (fst r)) = false ∧
  fst (snd r) = Demo.fresh ∧
  added (Demo.fresh, start) (snd r)
  = loader_scripts Demo.fresh ++ loader_scripts Demo.fresh.
Proof.
  apply (unawaited_calls_load_scripts_twice Demo.browser Demo.fresh start).
  reflexivity.
Defined.

(** C1. On the demo page, [solution.initialize(); solution.initialize()]
    on the new solution, the second call made without awaiting the first
    and the two then resumed in turn: both promises resolve, and by then
    each of the two scripts has been loaded twice, the WASM module and the
    [SolutionWasm] object have been made twice and
    [SolutionWasm.loadGraph] has been called twice. *)
Theorem unawaited_initialize_loads_twice :
  let r := unawaited (Awaiter.initialize Demo.browser)
             (Awaiter.initialize Demo.browser) 7 (Demo.fresh, start) in
  let t := trace (snd (snd r)) in
  fst r = (Settled (Returns tt), Settled (Returns tt)) ∧
  count is_LoadScript t = 2 * length (default [] (files Demo.config)) ∧
  count is_CreateMediapipeWasm t = 2 ∧
  count is_NewSolutionWasm t = 2 ∧
  count is_LoadGraph t = 2.
Proof. vm_compute. repeat split. Qed.

End AwaiterFacts.

(** ** More on the facade *)

Module FacadeMore.
Import JS SolutionsApi Client Spec FacadeSpec SolutionFacts.
Import PoseTracking (PoseSolution, solution, listener, results_relay).
#[local] Open Scope list_scope.
#[local] Open Scope nat_scope.

(** *** The graph phase, for any configuration *)

Lemma for_each_attachListener atts s w :
  is_Some (wasm s) → is_Some (solutionWasm s) →
  for_each atts (λ a, attachListener (fst a) (snd a)) (s, w)
  = (Returns tt,
     (s, logged (map (λ a, AttachMultiListener (fst a) (snd a)) atts) w)).
Proof.
  intros [m Hm] [sw Hsw]. revert w.
  induction atts as [|a atts IH]; intros w; simpl.
  - unfold ret, logged. rewrite app_nil_r. by destruct w.
  - unfold bind, attachListener at 1. run. rewrite Hm, Hsw. run.
    rewrite IH. unfold logged. simpl. by rewrite <- app_assoc.
Qed.

Lemma configure_loaded s g w :
  loaded s →
  configure s g (s, w)
  = (Returns tt, (configured g s, logged (configuration_events s) w)).
Proof.
  intros Hl. pose proof Hl as ([m Hm] & [c Hc] & [sw Hsw]).
  assert (Hatt : ∀ s' w' atts,
    wasm s' = wasm s → solutionWasm s' = solutionWasm s →
    for_each atts (λ a, attachListener (fst a) (snd a)) (s', w')
    = (Returns tt,
       (s', logged (map (λ a, AttachMultiListener (fst a) (snd a)) atts) w'))).
  { intros s' w' atts Hw' Hs'. apply for_each_attachListener.
    - rewrite Hw', Hm. by eexists.
    - rewrite Hs', Hsw. by eexists. }
  unfold configure, configuration_events.
  destruct (pendingChanges s) as [changes|] eqn:Hp;
    destruct (onRegisterListeners (config s)) as [atts|] eqn:Ha;
    run; rewrite ?Hm; run; rewrite ?Ha; run; rewrite ?Hatt by reflexivity;
    run; unfold configured, logged;
    unfold set_needToInitializeGraph, set_pendingChanges, set_gl; cbn;
    rewrite ?Hp; rewrite <- ?app_assoc, ?app_nil_r; try reflexivity.
  by destruct w.
Qed.

Lemma initialize_idle env s w :
  needToInitializeWasm s = false → needToInitializeGraph s = false →
  initialize env (s, w) = (Returns tt, (s, w)).
Proof.
  intros Hw Hg. rewrite initialize_loaded by done.
  by apply tryToInitializeGraph_clean.
Qed.

(** The world in which the graph phase of [initialize()] begins. *)
Lemma initialize_phases env s w :
  well_formed s → can_load s →
  ∃ s1,
    tryToInitializeWasm env (s, w)
    = (Returns tt,
       (s1, if needToInitializeWasm s
            then logged (wasm_phase env s) w else w)) ∧
    initialize env (s, w)
    = tryToInitializeGraph env
        (s1, if needToInitializeWasm s
             then logged (wasm_phase env s) w else w) ∧
    needToInitializeWasm s1 = false ∧ loaded s1 ∧
    config s1 = config s ∧
    needToInitializeGraph s1 = needToInitializeGraph s ∧
    pendingChanges s1 = pendingChanges s ∧
    gl s1 = gl s.
Proof.
  intros Hwf Hload. destruct (needToInitializeWasm s) eqn:Hn.
  - destruct (tryToInitializeWasm_first env s w Hn (Hload Hn))
      as (s' & Hrun & Hn' & Hl & Hc & Hg & Hp & Hgl).
    exists s'. split; [done|]. split; [|done].
    unfold initialize, mbind, M_bind, bind. by rewrite Hrun.
  - exists s. split; [by apply tryToInitializeWasm_done|].
    split; [by apply initialize_loaded|]. split; [done|].
    split; [by apply Hwf|]. done.
Qed.

(** An [initialize()] that returns has got through its WASM phase. *)
Lemma returned_can_load env s w :
  fst (initialize env (s, w)) = Returns tt → can_load s.
Proof.
  intros Hret Hn Hfiles.
  by rewrite initialize_no_loader in Hret.
Qed.

(** X1. Once [initialize()] has returned, with the WebGL2 context at hand
    if the graph was to be set up, a further [initialize()] does nothing:
    it returns, and the solution and the trace are as the first call left
    them. *)
Theorem initialize_twice env s w :
  well_formed s →
  fst (initialize env (s, w)) = Returns tt →
  (needToInitializeGraph s = true →
   is_Some (webgl2 env (getContext_calls w))) →
  initialize env (snd (initialize env (s, w)))
  = (Returns tt, snd (initialize env (s, w))).
Proof.
  intros Hwf Hret%returned_can_load Hctx.
  destruct (initialize_phases env s w Hwf Hret)
    as (s1 & _ & -> & Hn1 & Hl1 & _ & Hg1 & _).
  set (w1 := if needToInitializeWasm s then _ else w).
  assert (Hw1 : getContext_calls w1 = getContext_calls w)
    by (unfold w1; by destruct (needToInitializeWasm s)).
  destruct (needToInitializeGraph s) eqn:Hg.
  - destruct (Hctx eq_refl) as [g Hsome].
    rewrite tryToInitializeGraph_dirty by done.
    rewrite Hw1, Hsome, configure_loaded by done. cbn [fst snd].
    by apply initialize_idle.
  - rewrite tryToInitializeGraph_clean by done. cbn [fst snd].
    by apply initialize_idle.
Qed.

Lemma initialize_twice_witness :
  initialize Demo.browser (snd (initialize Demo.browser (Demo.fresh, start)))
  = (Returns tt, snd (initialize Demo.browser (Demo.fresh, start))).
Proof.
  apply (initialize_twice Demo.browser Demo.fresh start).
  - intros Hn. discriminate Hn.
  - reflexivity.
  - intros _. by eexists.
Defined.

(** *** Option changes *)

Lemma setOptions_run options s w :
  setOptions options (s, w)
  = (Returns tt,
     (match requests (config s) options with
      | [] => s
      | changes =>
          set_pendingChanges (Some changes) (set_needToInitializeGraph true s)
      end, w)).
Proof.
  unfold setOptions, requests. run.
  destruct (SolutionsApi.options (config s)) as [configs|]; [|done].
  by destruct (flat_map _ _).
Qed.

(** X2. A [setOptions] that names at least one graph option replaces what
    an earlier [setOptions] had queued: only the changes of the later call
    stay pending; those of the earlier one are dropped without having been
    passed to the engine. *)
Theorem setOptions_overrides_pending (options1 options2 : OptionList)
    (s : Solution) (w : World) :
  requests (config s) options2 ≠ [] →
  snd (setOptions options2 (snd (setOptions options1 (s, w))))
  = snd (setOptions options2 (s, w)) ∧
  pendingChanges (fst (snd (setOptions options2 (s, w))))
  = Some (requests (config s) options2).
Proof.
  intros Hsome. rewrite !setOptions_run. cbn [fst snd].
  destruct (requests (config s) options1) as [|c1 cs1] eqn:H1;
    rewrite setOptions_run; cbn [fst snd config set_pendingChanges
      set_needToInitializeGraph];
    destruct (requests (config s) options2) as [|c2 cs2]; done.
Qed.

Lemma setOptions_overrides_pending_witness :
  snd (setOptions [("poseThreshold", VNumber 0.5)]
         (snd (setOptions [("smoothing", VNumber 0.75)]
                 (two_option_solution, start))))
  = snd (setOptions [("poseThreshold", VNumber 0.5)]
           (two_option_solution, start)) ∧
  pendingChanges
    (fst (snd (setOptions [("poseThreshold", VNumber 0.5)]
                 (two_option_solution, start))))
  = Some (requests (config two_option_solution)
            [("poseThreshold", VNumber 0.5)]).
Proof.
  apply (setOptions_overrides_pending
           [("smoothing", VNumber 0.75)] [("poseThreshold", VNumber 0.5)]
           two_option_solution start).
  vm_compute. discriminate.
Defined.

(** X3. For any configuration: after a [setOptions] that names at least one
    graph option, the next [initialize()] that asks for the WebGL2 context
    and gets it passes exactly the queued requests, in the order of the
    option keys, to [SolutionWasm.changeOptions], registers every
    configured listener again, and leaves nothing pending and the graph
    clean. *)
Theorem setOptions_then_initialize env (options : OptionList)
    (s : Solution) (w : World) (g : WebGL2RenderingContext) :
  well_formed s →
  requests (config s) options ≠ [] →
  asks_for_context env (snd (setOptions options (s, w))) →
  webgl2 env (getContext_calls w) = Some g →
  let σ1 := snd (setOptions options (s, w)) in
  let r := initialize env σ1 in
  fst r = Returns tt ∧
  added σ1 (snd r)
  = (if needToInitializeWasm s then wasm_phase env s else [])
    ++ [BindTextureToCanvas; GetContext "webgl2";
        ChangeOptions (requests (config s) options)]
    ++ map (λ a, AttachMultiListener (fst a) (snd a))
           (default [] (onRegisterListeners (config s))) ∧
  pendingChanges (fst (snd r)) = None ∧
  needToInitializeGraph (fst (snd r)) = false.
Proof.
  intros Hwf Hsome Hasks Hctx. cbv zeta.
  rewrite setOptions_run in Hasks |- *. cbn [fst snd] in Hasks |- *.
  destruct (requests (config s) options) as [|c cs] eqn:Hreq; [done|].
  apply asks_for_context_can_load in Hasks.
  set (s0 := set_pendingChanges _ _) in *.
  assert (Hwf0 : well_formed s0) by exact Hwf.
  destruct (initialize_phases env s0 w Hwf0 Hasks)
    as (s1 & _ & -> & Hn1 & Hl1 & Hc1 & Hg1 & Hp1 & _).
  change (needToInitializeWasm s0) with (needToInitializeWasm s).
  change (wasm_phase env s0) with (wasm_phase env s).
  set (w1 := if needToInitializeWasm s then _ else w).
  assert (Hw1 : getContext_calls w1 = getContext_calls w)
    by (unfold w1; by destruct (needToInitializeWasm s)).
  rewrite tryToInitializeGraph_dirty by done.
  rewrite Hw1, Hctx, configure_loaded by done. cbn [fst snd].
  split; [done|]. split; [|done].
  apply added_app. unfold configuration_events. rewrite Hp1, Hc1.
  cbn [trace snd logged asked pendingChanges s0 set_pendingChanges].
  unfold w1. destruct (needToInitializeWasm s);
    cbn [trace logged]; rewrite <- ?app_assoc; reflexivity.
Qed.

Lemma setOptions_then_initialize_witness :
  let σ1 := snd (setOptions [("smoothing", VNumber 0.75);
                             ("poseThreshold", VNumber 0.5)]
                   (two_option_solution, start)) in
  let r := initialize Demo.browser σ1 in
  fst r = Returns tt ∧
  added σ1 (snd r)
  = (if needToInitializeWasm two_option_solution
     then wasm_phase Demo.browser two_option_solution else [])
    ++ [BindTextureToCanvas; GetContext "webgl2";
        ChangeOptions
          (requests (config two_option_solution)
             [("smoothing", VNumber 0.75); ("poseThreshold", VNumber 0.5)])]
    ++ map (λ a, AttachMultiListener (fst a) (snd a))
           (default [] (onRegisterListeners (config two_option_solution))) ∧
  pendingChanges (fst (snd r)) = None ∧
  needToInitializeGraph (fst (snd r)) = false.
Proof.
  refine (setOptions_then_initialize Demo.browser
            [("smoothing", VNumber 0.75); ("poseThreshold", VNumber 0.5)]
            two_option_solution start Demo.context _ _ _ eq_refl).
  - intros Hn. discriminate Hn.
  - vm_compute. discriminate.
  - vm_compute. reflexivity.
Defined.

Example requests_in_key_order :
  map (λ r, (fieldName (xref r), valueNumber r))
    (requests two_options [("smoothing", VNumber 0.75);
                           ("unknown", VNull);
                           ("poseThreshold", VNumber 0.5)])
  = [("alpha", VNumber 0.75); ("threshold", VNumber 0.5)].
Proof. reflexivity. Qed.

(** X4. Option changes outlive a failed context: if [initialize()] asks
    for the WebGL2 context and cannot get it, the queued requests stay
    pending, and the first later [initialize()] that gets the context
    passes them to [SolutionWasm.changeOptions]. *)
Theorem pending_changes_survive_context_failure env (s : Solution)
    (w : World) (changes : list GraphOptionChangeRequest)
    (g : WebGL2RenderingContext) :
  well_formed s →
  needToInitializeGraph s = true →
  pendingChanges s = Some changes →
  asks_for_context env (s, w) →
  webgl2 env (getContext_calls w) = None →
  webgl2 env (S (getContext_calls w)) = Some g →
  let σ1 := snd (initialize env (s, w)) in
  let σ2 := snd (initialize env σ1) in
  pendingChanges (fst σ1) = Some changes ∧
  count is_ChangeOptions (added (s, w) σ1) = 0 ∧
  added σ1 σ2
  = [BindTextureToCanvas; GetContext "webgl2"; ChangeOptions changes]
    ++ map (λ a, AttachMultiListener (fst a) (snd a))
           (default [] (onRegisterListeners (config s))) ∧
  pendingChanges (fst σ2) = None.
Proof.
  intros Hwf Hdirty Hp Hasks%asks_for_context_can_load Hnone Hsome.
  cbv zeta.
  destruct (initialize_phases env s w Hwf Hasks)
    as (s1 & _ & -> & Hn1 & Hl1 & Hc1 & Hg1 & Hp1 & _).
  set (w1 := if needToInitializeWasm s then _ else w).
  assert (Hw1 : getContext_calls w1 = getContext_calls w)
    by (unfold w1; by destruct (needToInitializeWasm s)).
  rewrite tryToInitializeGraph_dirty by congruence.
  rewrite Hw1, Hnone. cbn [fst snd].
  rewrite initialize_loaded, tryToInitializeGraph_dirty by congruence.
  cbn [getContext_calls logged asked]. rewrite Hw1, Hsome.
  rewrite configure_loaded by done. cbn [fst snd].
  assert (Ht1 : trace w1
                = trace w ++ if needToInitializeWasm s
                             then wasm_phase env s else []).
  { unfold w1. destruct (needToInitializeWasm s); cbn [trace logged];
      by rewrite ?app_nil_r. }
  split; [congruence|]. split; [|split; [|done]].
  - erewrite added_app;
      [|cbn [trace snd logged asked]; rewrite Ht1, <- !app_assoc;
        reflexivity].
    rewrite count_app. cbn [count is_ChangeOptions app no_context_alert].
    rewrite Nat.add_0_r.
    destruct (needToInitializeWasm s); [|reflexivity].
    unfold wasm_phase. rewrite !count_app, count_map_other by done.
    destruct (url (graph (config s))) as [u|];
      [destruct (truthy (VString u))|]; reflexivity.
  - apply added_app. unfold configuration_events. rewrite Hp1, Hp, Hc1.
    cbn [trace snd logged asked]. rewrite <- !app_assoc. reflexivity.
Qed.

Lemma pending_changes_survive_context_failure_witness :
  let σ1 := snd (initialize late_webgl2 (pending_solution, start)) in
  let σ2 := snd (initialize late_webgl2 σ1) in
  pendingChanges (fst σ1) = Some queued ∧
  count is_ChangeOptions (added (pending_solution, start) σ1) = 0 ∧
  added σ1 σ2
  = [BindTextureToCanvas; GetContext "webgl2"; ChangeOptions queued]
    ++ map (λ a, AttachMultiListener (fst a) (snd a))
           (default [] (onRegisterListeners (config pending_solution))) ∧
  pendingChanges (fst σ2) = None.
Proof.
  refine (pending_changes_survive_context_failure late_webgl2
            pending_solution start queued Demo.context _
            eq_refl eq_refl _ eq_refl eq_refl).
  - intros Hn. discriminate Hn.
  - vm_compute. reflexivity.
Defined.

(** *** Frames *)

(** X5. A frame sent while no WebGL2 context could ever be obtained is
    never passed on: [initialize()] asks for the context, alerts and
    returns, [this.gl] is still undefined, and [processFrame] ends in a
    [TypeError] at [gl.texImage2D] after a second [bindTextureToCanvas];
    neither [texImage2D] nor [SolutionWasm.processFrame] is called, and the
    graph stays dirty. *)
Theorem processFrame_without_context env (inputStreamName : string)
    (metadata : FrameMetadataWasm) (inputs : FrameInputs)
    (s : Solution) (w : World) :
  well_formed s →
  needToInitializeGraph s = true →
  gl s = None →
  asks_for_context env (s, w) →
  webgl2 env (getContext_calls w) = None →
  let r := processFrame env inputStreamName metadata inputs (s, w) in
  fst r = Throws (TypeError
            "Cannot read properties of undefined (reading 'texImage2D')") ∧
  added (s, w) (snd r)
  = (if needToInitializeWasm s then wasm_phase env s else [])
    ++ [BindTextureToCanvas; GetContext "webgl2"; no_context_alert;
        BindTextureToCanvas] ∧
  count is_TexImage2D (trace (snd (snd r))) = count is_TexImage2D (trace w) ∧
  count is_ProcessFrame (trace (snd (snd r)))
  = count is_ProcessFrame (trace w) ∧
  needToInitializeGraph (fst (snd r)) = true.
Proof.
  intros Hwf Hdirty Hgl Hasks%asks_for_context_can_load Hnone. cbv zeta.
  change (processFrame env inputStreamName metadata inputs (s, w))
    with (bind (initialize env) (λ _, submit env inputStreamName inputs)
            (s, w)).
  unfold bind.
  destruct (initialize_phases env s w Hwf Hasks)
    as (s1 & _ & -> & Hn1 & Hl1 & Hc1 & Hg1 & Hp1 & Hgl1).
  set (w1 := if needToInitializeWasm s then _ else w).
  assert (Ht1 : trace w1
                = trace w ++ if needToInitializeWasm s
                             then wasm_phase env s else []).
  { unfold w1. destruct (needToInitializeWasm s); cbn [trace logged];
      by rewrite ?app_nil_r. }
  assert (Hw1 : getContext_calls w1 = getContext_calls w)
    by (unfold w1; by destruct (needToInitializeWasm s)).
  rewrite tryToInitializeGraph_dirty by congruence.
  rewrite Hw1, Hnone.
  destruct Hl1 as (_ & _ & [sw Hsw]).
  unfold submit. run. rewrite Hsw. run. rewrite Hgl1, Hgl. run.
  assert (Hphase : ∀ p, (∀ u, p (LoadScript u) = false) →
            p (SetWindow API_EXPORT_NAME) = false →
            p (SetWindow PACK_EXPORT_NAME) = false →
            p CreateMediapipeWasm = false → p CreateCanvas = false →
            p WasmSetCanvas = false → p WasmCreateContext = false →
            p NewSolutionWasm = false →
            (∀ u, p (Fetch u) = false) → (∀ b, p (LoadGraph b) = false) →
            count p (if needToInitializeWasm s then wasm_phase env s else [])
            = 0).
  { intros p HL H1 H2 H3 H4 H5 H6 H7 HF HG.
    destruct (needToInitializeWasm s); [|reflexivity].
    unfold wasm_phase. rewrite !count_app, count_map_other by done.
    cbn [count]. rewrite H1, H2, H3, H4, H5, H6, H7.
    destruct (url (graph (config s))) as [u|];
      [destruct (truthy (VString u))|]; cbn [count];
      rewrite ?HF, ?HG; reflexivity. }
  split; [reflexivity|]. split; [|split; [|split; [|congruence]]].
  - apply added_app. cbn [trace snd asked]. rewrite Ht1, <- !app_assoc.
    reflexivity.
  - cbn [trace asked].
    rewrite Ht1, <- !app_assoc, !count_app, Hphase by done.
    cbn [count is_TexImage2D no_context_alert]. lia.
  - cbn [trace asked].
    rewrite Ht1, <- !app_assoc, !count_app, Hphase by done.
    cbn [count is_ProcessFrame no_context_alert]. lia.
Qed.

Lemma processFrame_without_context_witness :
  let r := processFrame Demo.browser_without_webgl2 "input_frames_gpu"
             Demo.metadata {| video := Demo.camera |} (Demo.fresh, start) in
  fst r = Throws (TypeError
            "Cannot read properties of undefined (reading 'texImage2D')") ∧
  added (Demo.fresh, start) (snd r)
  = (if needToInitializeWasm Demo.fresh
     then wasm_phase Demo.browser_without_webgl2 Demo.fresh else [])
    ++ [BindTextureToCanvas; GetContext "webgl2"; no_context_alert;
        BindTextureToCanvas] ∧
  count is_TexImage2D (trace (snd (snd r)))
  = count is_TexImage2D (trace start) ∧
  count is_ProcessFrame (trace (snd (snd r)))
  = count is_ProcessFrame (trace start) ∧
  needToInitializeGraph (fst (snd r)) = true.
Proof.
  refine (processFrame_without_context Demo.browser_without_webgl2
            "input_frames_gpu" Demo.metadata {| video := Demo.camera |}
            Demo.fresh start _ eq_refl eq_refl _ eq_refl).
  - intros Hn. discriminate Hn.
  - vm_compute. reflexivity.
Defined.

(** X6. [PoseSolution.send] with a video element, on a solution that is
    initialized and has its context, reads [performance.now()] twice: once
    for the metadata it passes to [processFrame], which are dropped, and
    once inside [processFrame].  The engine gets the frame with the video's
    own size and the second reading. *)
Theorem send_video_takes_second_clock env (v : HTMLVideoElement)
    (p : PoseSolution) (w : World) (g : WebGL2RenderingContext) :
  needToInitializeWasm (solution p) = false →
  needToInitializeGraph (solution p) = false →
  is_Some (solutionWasm (solution p)) →
  gl (solution p) = Some g →
  PoseTracking.send env {| PoseTracking.inputs_video := VVideo v |} (p, w)
  = (Returns tt,
     (p, {| trace := trace w
              ++ [BindTextureToCanvas;
                  TexImage2D g (VVideo v);
                  ProcessFrame "input_frames_gpu"
                    {| width := VNumber (videoWidth v);
                       height := VNumber (videoHeight v);
                       timestampMs := performance_now env (S (now_calls w)) |}];
            getContext_calls := getContext_calls w;
            now_calls := S (S (now_calls w)) |})).
Proof.
  intros Hw Hg [sw Hsw] Hgl. destruct p as [s l]. cbn [solution] in *.
  unfold PoseTracking.send, PoseTracking.on_solution, zoom, now.
  cbn [truthy PoseTracking.inputs_video video_property]. run.
  change (processFrame env "input_frames_gpu" ?m ?i ?σ)
    with (bind (initialize env) (λ _, submit env "input_frames_gpu" i) σ).
  unfold bind. rewrite initialize_idle by done.
  cbn [solution listener].
  unfold submit, now. run. rewrite Hsw. run. rewrite Hgl. run.
  cbn [video video_property]. run. rewrite <- !app_assoc. reflexivity.
Qed.

Lemma send_video_takes_second_clock_witness :
  PoseTracking.send Demo.browser
    {| PoseTracking.inputs_video :=
         VVideo {| videoWidth := 640; videoHeight := 480; frame := 0 |} |}
    (loaded_pose, start)
  = (Returns tt,
     (loaded_pose,
      {| trace := trace start
           ++ [BindTextureToCanvas;
               TexImage2D Demo.context
                 (VVideo {| videoWidth := 640; videoHeight := 480;
                            frame := 0 |});
               ProcessFrame "input_frames_gpu"
                 {| width := VNumber 640;
                    height := VNumber 480;
                    timestampMs :=
                      performance_now Demo.browser (S (now_calls start)) |}];
         getContext_calls := getContext_calls start;
         now_calls := S (S (now_calls start)) |})).
Proof.
  refine (send_video_takes_second_clock Demo.browser
            {| videoWidth := 640; videoHeight := 480; frame := 0 |}
            loaded_pose start Demo.context eq_refl eq_refl _ eq_refl).
  vm_compute. eexists. reflexivity.
Defined.

(** *** Results *)

Lemma collect_results_seq (wants : list string) (values : list ResultWasm) :
  ∀ n k (results : ResultMap),
    k + n ≤ length values → k + n ≤ length wants →
    ∃ results',
      collect_results wants values (seq k n) results = Returns results' ∧
      (∀ i want r,
          k ≤ i < k + n → wants !! i = Some want → want ≠ "__proto__" →
          (∀ j, i < j < k + n → wants !! j ≠ Some want) →
          values !! i = Some r →
          results' !! want = Some (extractWasmResult r)) ∧
      (∀ key,
          key = "__proto__"
          ∨ (∀ i, k ≤ i < k + n → wants !! i ≠ Some key) →
          results' !! key = results !! key).
Proof.
  induction n as [|n IH]; intros k results Hv Hw.
  - exists results. split; [reflexivity|]. split; [|done].
    intros i ? ? Hi. lia.
  - cbn [seq collect_results].
    destruct (lookup_lt_is_Some_2 values k) as [r Hr]; [lia|].
    destruct (lookup_lt_is_Some_2 wants k) as [wk Hwk]; [lia|].
    rewrite Hr, Hwk. cbn [default].
    destruct (IH (S k) (assign wk (extractWasmResult r) results))
      as (results' & Hrun & Hin & Hout); [lia | lia |].
    exists results'. split; [exact Hrun|]. split.
    + intros i want r' Hi Hwant Hproto Hlast Hval.
      destruct (decide (i = k)) as [->|Hne].
      * assert (want = wk) as -> by congruence.
        assert (r' = r) as -> by congruence.
        rewrite Hout.
        -- unfold assign. apply String.eqb_neq in Hproto.
           rewrite Hproto. by rewrite lookup_insert_eq.
        -- right. intros j Hj. apply Hlast. lia.
      * apply (Hin i want r'); [lia | done | done | | done].
        intros j Hj. apply Hlast. lia.
    + intros key Hkey. rewrite Hout.
      * unfold assign. destruct (String.eqb wk "__proto__") eqn:Hwp; [done|].
        apply lookup_insert_ne. intros ->.
        destruct Hkey as [->|Hkey]; [by rewrite String.eqb_refl in Hwp|].
        by apply (Hkey k); [lia|].
      * destruct Hkey as [->|Hkey]; [by left|].
        right. intros i Hi. apply Hkey. lia.
Qed.

(** X7. For any list of stream names, when the engine delivers at least as
    many results as names were wanted, the listener attached by
    [attachListener] is called exactly once, with an object that has, for
    every wanted name other than [__proto__], what [extractWasmResult]
    makes of the result at the name's index (at its last index, if the
    name is listed twice), and that has no other property of its own: none
    for a name that was not wanted, and none for [__proto__]. *)
Theorem onResults_maps_names_to_results (wants : list string)
    (cb : function) (values : list ResultWasm) (σ : Solution * World) :
  length wants ≤ length values →
  ∃ results : ResultMap,
    SolutionsApi.onResults wants wants cb values σ
    = (Returns tt, (fst σ, logged [CallListener cb results] (snd σ))) ∧
    (∀ i want r,
        wants !! i = Some want → want ≠ "__proto__" →
        (∀ j, i < j → wants !! j ≠ Some want) →
        values !! i = Some r →
        results !! want = Some (extractWasmResult r)) ∧
    (∀ key, key ∉ wants ∨ key = "__proto__" → results !! key = None).
Proof.
  intros Hlen.
  destruct (collect_results_seq wants values (length wants) 0 ∅)
    as (results & Hrun & Hin & Hout); [lia | lia |].
  exists results. unfold SolutionsApi.onResults. rewrite Hrun.
  split; [reflexivity|]. split.
  - intros i want r Hwant Hproto Hlast Hval.
    apply (Hin i want r); [|done|done| |done].
    + apply lookup_lt_Some in Hwant. lia.
    + intros j Hj. apply Hlast. lia.
  - intros key Hkey. rewrite Hout; [apply lookup_empty|].
    destruct Hkey as [Hkey| ->]; [|by left].
    right. intros i _ Hi. apply Hkey. by eapply list_elem_of_lookup_2.
Qed.

Lemma onResults_maps_names_to_results_witness :
  ∃ results : ResultMap,
    SolutionsApi.onResults ["a"; "__proto__"; "a"] ["a"; "__proto__"; "a"]
      (UserFunction 0)
      [Demo.a_rect; Demo.some_landmarks; Demo.some_landmarks; Demo.a_rect]
      (Demo.fresh, start)
    = (Returns tt,
       (fst (Demo.fresh, start),
        logged [CallListener (UserFunction 0) results]
          (snd (Demo.fresh, start)))) ∧
    (∀ i want r,
        ["a"; "__proto__"; "a"] !! i = Some want → want ≠ "__proto__" →
        (∀ j, i < j → ["a"; "__proto__"; "a"] !! j ≠ Some want) →
        [Demo.a_rect; Demo.some_landmarks; Demo.some_landmarks; Demo.a_rect]
          !! i = Some r →
        results !! want = Some (extractWasmResult r)) ∧
    (∀ key, key ∉ ["a"; "__proto__"; "a"] ∨ key = "__proto__" →
            results !! key = None).
Proof.
  apply (onResults_maps_names_to_results ["a"; "__proto__"; "a"]
           (UserFunction 0)
           [Demo.a_rect; Demo.some_landmarks; Demo.some_landmarks;
            Demo.a_rect] (Demo.fresh, start)).
  simpl. lia.
Defined.

Lemma collect_results_short (wants : list string)
    (values : list ResultWasm) :
  ∀ n k (results : ResultMap),
    k ≤ length values → length values < k + n →
    collect_results wants values (seq k n) results
    = Throws (TypeError
        "Cannot read properties of undefined (reading 'isNumber')").
Proof.
  induction n as [|n IH]; intros k results Hk Hn; [lia|].
  cbn [seq collect_results].
  destruct (values !! k) as [r|] eqn:Hr; [|reflexivity].
  apply lookup_lt_Some in Hr. apply IH; lia.
Qed.

(** X8. When the engine delivers fewer results than names were wanted, the
    listener made by [attachListener] throws a [TypeError] on the first
    missing result, and the user's callback is not called. *)
Theorem onResults_short_vector_throws (wants : list string) (cb : function)
    (values : list ResultWasm) (σ : Solution * World) :
  length values < length wants →
  SolutionsApi.onResults wants wants cb values σ
  = (Throws (TypeError
       "Cannot read properties of undefined (reading 'isNumber')"), σ).
Proof.
  intros Hlen. unfold SolutionsApi.onResults.
  rewrite collect_results_short by lia. reflexivity.
Qed.

Lemma onResults_short_vector_throws_witness :
  SolutionsApi.onResults ["pose_landmarks"; "pose_rect"]
    ["pose_landmarks"; "pose_rect"] (UserFunction 0) [Demo.some_landmarks]
    (Demo.fresh, start)
  = (Throws (TypeError
       "Cannot read properties of undefined (reading 'isNumber')"),
     (Demo.fresh, start)).
Proof.
  apply (onResults_short_vector_throws ["pose_landmarks"; "pose_rect"]
           (UserFunction 0) [Demo.some_landmarks] (Demo.fresh, start)).
  simpl. lia.
Defined.

(** X9. The results of the pose graph reach the callback registered last
    with [PoseSolution.onResults]: the one listener that the constructor
    configures wants [pose_landmarks] and [pose_rect], and what the engine
    delivers for them is handed to that callback as
    [{pose: {landmarks, rect}}].  A new pose solution, on which [onResults]
    was not called yet, hands the results to nobody. *)
Theorem pose_results_reach_last_callback env
    (cfg : option PoseTracking.PoseSolutionConfig) (p0 : PoseSolution)
    (l1 l2 : function) (r0 r1 : ResultWasm) (w : World) :
  PoseTracking.new_PoseSolution env cfg = Returns p0 →
  ∃ wants results,
    onRegisterListeners (config (solution p0))
    = Some [(wants, results_relay)] ∧
    collect_results wants [r0; r1] (seq 0 (length wants)) ∅
    = Returns results ∧
    PoseTracking.relay_results results p0 = None ∧
    PoseTracking.relay_results results
      (fst (snd ((PoseTracking.onResults l1;; PoseTracking.onResults l2)
                   (p0, w))))
    = Some (l2,
            {| PoseTracking.pose :=
                 {| PoseTracking.landmarks := extractWasmResult r0;
                    PoseTracking.rect := extractWasmResult r1 |} |}).
Proof.
  unfold PoseTracking.new_PoseSolution, new_Solution.
  destruct (getPackagePath env) as [path|e]; [|done].
  intros [= <-]. eexists _, _. split; [reflexivity|].
  split; [reflexivity|]. split; [reflexivity|].
  unfold PoseTracking.relay_results, PoseTracking.onResults. run.
  cbn [listener].
  change (assign _ (extractWasmResult r1) ?m)
    with (<["pose_rect" := extractWasmResult r1]> m).
  change (assign _ (extractWasmResult r0) ?m)
    with (<["pose_landmarks" := extractWasmResult r0]> m).
  rewrite lookup_insert_eq.
  rewrite lookup_insert_ne by done. rewrite lookup_insert_eq. reflexivity.
Qed.

Lemma pose_results_reach_last_callback_witness :
  ∃ wants results,
    onRegisterListeners (config (solution Demo.fresh_pose))
    = Some [(wants, results_relay)] ∧
    collect_results wants [Demo.some_landmarks; Demo.a_rect]
      (seq 0 (length wants)) ∅
    = Returns results ∧
    PoseTracking.relay_results results Demo.fresh_pose = None ∧
    PoseTracking.relay_results results
      (fst (snd ((PoseTracking.onResults (UserFunction 1);;
                  PoseTracking.onResults (UserFunction 2))
                   (Demo.fresh_pose, start))))
    = Some (UserFunction 2,
            {| PoseTracking.pose :=
                 {| PoseTracking.landmarks :=
                      extractWasmResult Demo.some_landmarks;
                    PoseTracking.rect := extractWasmResult Demo.a_rect |} |}).
Proof.
  exact (pose_results_reach_last_callback Demo.browser None Demo.fresh_pose
           (UserFunction 1) (UserFunction 2) Demo.some_landmarks Demo.a_rect
           start eq_refl).
Defined.

(** *** Where the files come from *)

Lemma lastIndexOf_from_absent c s : ∀ i found,
  contains c s = false → lastIndexOf_from c s i found = found.
Proof.
  induction s as [|c' s IH]; intros i found Hc; [reflexivity|].
  cbn [contains] in Hc. apply orb_false_iff in Hc as [Hc Hs].
  cbn [lastIndexOf_from]. rewrite Hc. by apply IH.
Qed.

Lemma lastIndexOf_from_last c dir base : ∀ i found,
  contains c base = false →
  lastIndexOf_from c (dir +:+ String c base) i found
  = (i + Z.of_nat (String.length dir))%Z.
Proof.
  induction dir as [|d dir IH]; intros i found Hc.
  - change (lastIndexOf_from c (String c base) i found
            = (i + Z.of_nat 0)%Z).
    cbn [lastIndexOf_from].
    rewrite Ascii.eqb_refl, lastIndexOf_from_absent by done. lia.
  - change (lastIndexOf_from c (String d (dir +:+ String c base)) i found
            = (i + Z.of_nat (S (String.length dir)))%Z).
    cbn [lastIndexOf_from]. rewrite IH by done. lia.
Qed.

Lemma substring_prefix a b :
  String.substring 0 (String.length a) (a +:+ b) = a.
Proof.
  induction a as [|c a IH].
  - by destruct b.
  - change (String c (String.substring 0 (String.length a) (a +:+ b))
            = String c a).
    by rewrite IH.
Qed.

Lemma getPackagePath_directory_aux env (dir base : string) :
  pathname env = Some (dir +:+ "/" +:+ base) →
  contains "/" base = false →
  getPackagePath env = Returns (dir +:+ "/").
Proof.
  intros Hp Hbase. unfold getPackagePath, lastIndexOf, substring_to.
  rewrite Hp.
  change (dir +:+ "/" +:+ base)%string with (dir ++ String "/" base)%string.
  rewrite lastIndexOf_from_last by done.
  rewrite Z.add_0_l, Nat2Z.id, substring_prefix. reflexivity.
Qed.

(** X10. On a page or in a worker whose path is [dir/base], where [base]
    has no slash, [getPackagePath()] is [dir/]: the path up to and
    including its last slash. *)
Theorem getPackagePath_directory env (dir base : string) :
  pathname env = Some (dir +:+ "/" +:+ base) →
  contains "/" base = false →
  getPackagePath env = Returns (dir +:+ "/").
Proof. exact (getPackagePath_directory_aux env dir base). Qed.

Lemma getPackagePath_directory_witness :
  getPackagePath Demo.browser = Returns ("/demo" +:+ "/").
Proof.
  exact (getPackagePath_directory Demo.browser "/demo" "index.html"
           eq_refl eq_refl).
Defined.

(** X11. When the path has no slash at all, [lastIndexOf] gives [-1],
    [substring(0, -1)] is empty and [getPackagePath()] is ["/"]. *)
Theorem getPackagePath_without_slash env (p : string) :
  pathname env = Some p →
  contains "/" p = false →
  getPackagePath env = Returns "/".
Proof.
  intros Hp Hc. unfold getPackagePath, lastIndexOf, substring_to.
  rewrite Hp, lastIndexOf_from_absent by done.
  change (Z.to_nat (-1)) with 0. by destruct p.
Qed.

Lemma getPackagePath_without_slash_witness :
  getPackagePath {| webgl2 := λ _, None;
                    performance_now := λ _, 0%float;
                    response_body := λ _, None;
                    pathname := Some "worker.js" |}
  = Returns "/".
Proof.
  exact (getPackagePath_without_slash
           {| webgl2 := λ _, None;
              performance_now := λ _, 0%float;
              response_body := λ _, None;
              pathname := Some "worker.js" |}
           "worker.js" eq_refl eq_refl).
Defined.

Lemma string_app_assoc (a b c : string) :
  (a +:+ b) +:+ c = a +:+ b +:+ c.
Proof.
  induction a as [|x a IH]; [reflexivity|].
  change (String x ((a +:+ b) +:+ c) = String x (a +:+ b +:+ c)).
  by rewrite IH.
Qed.

Lemma filter_LoadScript_map (f : string → string) xs :
  List.filter is_LoadScript (map (λ x, LoadScript (f x)) xs)
  = map (λ x, LoadScript (f x)) xs.
Proof. induction xs as [|x xs IH]; simpl; [reflexivity | by rewrite IH]. Qed.

(** X12. A solution made without a [locateFile] of its own, on a page
    whose path is [dir/base], loads its scripts from the directory of the
    page: the first phase of [initialize()] loads exactly [dir/file] for
    each configured file, in the order of the configuration. *)
Theorem scripts_load_from_page_directory env (cfg : SolutionConfig)
    (dir base : string) (w : World) :
  pathname env = Some (dir +:+ "/" +:+ base) →
  contains "/" base = false →
  locateFile_ cfg = None →
  ∃ s0,
    new_Solution env cfg = Returns s0 ∧
    List.filter is_LoadScript
      (added (s0, w) (snd (tryToInitializeWasm env (s0, w))))
    = map (λ file, LoadScript (dir +:+ "/" +:+ file))
          (default [] (files cfg)).
Proof.
  intros Hp Hbase Hlocate. unfold new_Solution.
  rewrite (getPackagePath_directory_aux env dir base Hp Hbase).
  eexists. split; [reflexivity|].
  set (s0 := {| config := cfg |}).
  destruct (default [] (files cfg)) as [|file0 rest] eqn:Hfiles.
  { rewrite (tryToInitializeWasm_no_loader env s0 w eq_refl Hfiles).
    by erewrite added_app by reflexivity. }
  rewrite <- Hfiles.
  assert (Hsome : default [] (files (config s0)) ≠ [])
    by (cbn [s0 config]; by rewrite Hfiles).
  destruct (tryToInitializeWasm_first env s0 w eq_refl Hsome)
    as (s' & -> & _).
  erewrite added_app by reflexivity.
  unfold wasm_phase. rewrite !List.filter_app, filter_LoadScript_map.
  cbn [s0 config locateFile packagePath List.filter is_LoadScript app].
  rewrite Hlocate. cbn [default]. unfold defaultLocateFile.
  rewrite (map_ext _ (λ file, LoadScript (dir +:+ "/" +:+ file)))
    by (intros file; by rewrite string_app_assoc).
  destruct (url (graph cfg)) as [u|];
    [destruct (truthy (VString u))|]; cbn [List.filter is_LoadScript];
    by rewrite app_nil_r.
Qed.

Lemma scripts_load_from_page_directory_witness :
  ∃ s0,
    new_Solution Demo.browser Demo.config = Returns s0 ∧
    List.filter is_LoadScript
      (added (s0, start) (snd (tryToInitializeWasm Demo.browser (s0, start))))
    = map (λ file, LoadScript ("/demo" +:+ "/" +:+ file))
          (default [] (files Demo.config)).
Proof.
  exact (scripts_load_from_page_directory Demo.browser Demo.config
           "/demo" "index.html" start eq_refl eq_refl eq_refl).
Defined.

(** *** After [close] *)

(** X26. [close()] forgets nothing: it leaves every field of the solution
    as it was, so a frame sent after [close()] on an initialized solution
    is not initialized again and is passed to the [SolutionWasm] object on
    which [delete] has just been called. *)
Theorem processFrame_after_close env (inputStreamName : string)
    (metadata : FrameMetadataWasm) (v : HTMLVideoElement)
    (s : Solution) (w : World) (g : WebGL2RenderingContext) :
  needToInitializeWasm s = false →
  needToInitializeGraph s = false →
  is_Some (solutionWasm s) →
  gl s = Some g →
  (close;; processFrame env inputStreamName metadata {| video := VVideo v |})
    (s, w)
  = (Returns tt,
     (s, {| trace := trace w
              ++ [Delete; BindTextureToCanvas; TexImage2D g (VVideo v);
                  ProcessFrame inputStreamName
                    {| width := VNumber (videoWidth v);
                       height := VNumber (videoHeight v);
                       timestampMs := performance_now env (now_calls w) |}];
            getContext_calls := getContext_calls w;
            now_calls := S (now_calls w) |})).
Proof.
  intros Hw Hg [sw Hsw] Hgl.
  unfold mbind, M_bind, bind at 1. unfold close. run. rewrite Hsw. run.
  change (processFrame env inputStreamName metadata ?i ?σ)
    with (bind (initialize env) (λ _, submit env inputStreamName i) σ).
  unfold bind. rewrite initialize_idle by done.
  unfold submit, now. run. rewrite Hsw. run. rewrite Hgl. run.
  cbn [video video_property]. run. rewrite <- !app_assoc. reflexivity.
Qed.

Lemma processFrame_after_close_witness :
  (close;;
   processFrame Demo.browser "input_frames_gpu" Demo.metadata
     {| video := VVideo {| videoWidth := 640; videoHeight := 480;
                           frame := 1 |} |})
    (Demo.loaded_solution, start)
  = (Returns tt,
     (Demo.loaded_solution,
      {| trace := trace start
           ++ [Delete; BindTextureToCanvas;
               TexImage2D Demo.context
                 (VVideo {| videoWidth := 640; videoHeight := 480;
                            frame := 1 |});
               ProcessFrame "input_frames_gpu"
                 {| width := VNumber 640;
                    height := VNumber 480;
                    timestampMs :=
                      performance_now Demo.browser (now_calls start) |}];
         getContext_calls := getContext_calls start;
         now_calls := S (now_calls start) |})).
Proof.
  refine (processFrame_after_close Demo.browser "input_frames_gpu"
            Demo.metadata
            {| videoWidth := 640; videoHeight := 480; frame := 1 |}
            Demo.loaded_solution start Demo.context eq_refl eq_refl _
            eq_refl).
  vm_compute. eexists. reflexivity.
Defined.

End FacadeMore.

(** ** [goog.normalizePath_] *)

Module PathFacts.
Import GoogPaths.
#[local] Open Scope list_scope.
#[local] Open Scope nat_scope.

Lemma at_is_middle (l r : list string) c s :
  at_is (l ++ c :: r) (length l) s = String.eqb c s.
Proof.
  unfold at_is. rewrite list_lookup_middle by done.
  destruct (String.eqb_spec c s) as [->|Hne].
  - by rewrite bool_decide_eq_true_2.
  - rewrite bool_decide_eq_false_2; [done|]. by intros [= ?].
Qed.

Lemma splice_middle {A} (l r : list A) c :
  splice (length l) 1 (l ++ c :: r) = l ++ r.
Proof.
  unfold splice. rewrite take_app_length.
  by rewrite drop_app_length', drop_0 || rewrite drop_app_add'.
Qed.

Lemma splice_two {A} (l r : list A) p c :
  splice (length (l ++ [p]) - 1) 2 ((l ++ [p]) ++ c :: r) = l ++ r.
Proof.
  rewrite length_app. cbn [length].
  replace (length l + 1 - 1) with (length l) by lia.
  unfold splice. rewrite <- !app_assoc. rewrite take_app_length.
  f_equal. by rewrite drop_app_add'.
Qed.

Lemma at_truthy_last (l r : list string) p :
  at_truthy ((l ++ [p]) ++ r) (length (l ++ [p]) - 1)
  = negb (String.eqb p "").
Proof.
  unfold at_truthy. rewrite length_app. cbn [length].
  replace (length l + 1 - 1) with (length l) by lia.
  rewrite <- app_assoc. cbn [app]. by rewrite list_lookup_middle.
Qed.

Lemma at_is_last (l r : list string) p s :
  at_is ((l ++ [p]) ++ r) (length (l ++ [p]) - 1) s = String.eqb p s.
Proof.
  rewrite length_app. cbn [length].
  replace (length l + 1 - 1) with (length l) by lia.
  rewrite <- app_assoc. cbn [app]. apply at_is_middle.
Qed.

Lemma normalize_loop_step (l r : list string) c :
  normalize_loop (l ++ c :: r) (length l)
  = if String.eqb c "." then normalize_loop (l ++ r) (length l)
    else if negb (Nat.eqb (length l) 0) && String.eqb c ".."
            && at_truthy (l ++ c :: r) (length l - 1)
            && negb (at_is (l ++ c :: r) (length l - 1) "..")
    then normalize_loop (splice (length l - 1) 2 (l ++ c :: r)) (length l - 1)
    else normalize_loop (l ++ c :: r) (length l + 1).
Proof.
  rewrite normalize_loop_equation_1 at 1.
  destruct (lt_dec _ _) as [Hlt|Hge];
    [|exfalso; rewrite length_app in Hge; simpl in Hge; lia].
  cbn [normalize_loop_unfold_clause_1].
  by rewrite !at_is_middle, splice_middle.
Qed.

Lemma normalize_loop_zip rest : ∀ seen,
  normalize_loop (rev seen ++ rest) (length seen) = normalize_zip seen rest.
Proof.
  induction rest as [|c rest IH]; intros seen.
  - rewrite app_nil_r. simp normalize_loop.
    destruct (lt_dec _ _) as [Hlt|Hge];
      [exfalso; rewrite length_rev in Hlt; lia|].
    reflexivity.
  - rewrite <- (length_rev seen), normalize_loop_step.
    cbn [normalize_zip]. destruct (String.eqb c ".") eqn:Hdot.
    + rewrite length_rev. apply IH.
    + destruct seen as [|p seen].
      * cbn [rev app length Nat.eqb negb andb]. apply (IH [c]).
      * cbn [rev]. rewrite at_truthy_last, at_is_last, splice_two.
        replace (negb (length (rev seen ++ [p]) =? 0)) with true
          by (rewrite length_app; cbn [length];
              by destruct (length (rev seen) + 1) eqn:?; [lia|]).
        unfold climbs. cbn [andb].
        destruct (String.eqb c ".." && negb (String.eqb p "")
                  && negb (String.eqb p "..")) eqn:Hclimb.
        -- rewrite length_app, length_rev. cbn [length].
           replace (length seen + 1 - 1) with (length seen) by lia.
           apply IH.
        -- rewrite <- app_assoc. cbn [app].
           rewrite length_app, length_rev. cbn [length].
           replace (rev seen ++ p :: c :: rest)
             with (rev (c :: p :: seen) ++ rest)
             by (cbn [rev]; by rewrite <- !app_assoc).
           replace (length seen + 1 + 1) with (length (c :: p :: seen))
             by (cbn [length]; lia).
           apply IH.
Qed.

(** **** Normal forms *)

Lemma normal_snoc l c :
  normal (l ++ [c])
  = normal l && negb (String.eqb c ".")
    && match last l with
       | Some p => negb (climbs p c)
       | None => true
       end.
Proof.
  induction l as [|p l IH]; [cbn; by rewrite !andb_true_r|].
  cbn [app normal]. rewrite IH. destruct l as [|q l].
  - cbn. by destruct (String.eqb p "."), (String.eqb c "."), (climbs p c).
  - cbn [app last]. cbn [last] in IH.
    destruct (negb (String.eqb p ".")), (negb (climbs p q)), (normal (q :: l));
      cbn [andb]; try reflexivity.
Qed.

Lemma normal_middle l c r :
  normal (l ++ c :: r) = true →
  String.eqb c "." = false ∧
  match last l with
  | Some p => climbs p c = false
  | None => True
  end.
Proof.
  induction l as [|p l IH]; cbn [app normal last].
  - intros H. apply andb_true_iff in H as [H _].
    apply andb_true_iff in H as [H _]. by apply negb_true_iff in H.
  - intros H. apply andb_true_iff in H as [H Hrest].
    apply andb_true_iff in H as [_ H].
    destruct l as [|q l].
    + cbn [app] in *. split; [|by apply negb_true_iff in H].
      by apply IH.
    + exact (IH Hrest).
Qed.

Lemma normal_prefix l r : normal (l ++ r) = true → normal l = true.
Proof.
  induction l as [|p l IH]; [done|]. cbn [app normal].
  intros H. apply andb_true_iff in H as [H Hrest].
  apply andb_true_iff in H as [Hp H].
  rewrite Hp, (IH Hrest). cbn [andb]. rewrite andb_true_r.
  destruct l as [|q l]; [done|]. exact H.
Qed.

Lemma last_rev_cons {A} (p : A) seen : last (rev (p :: seen)) = Some p.
Proof. cbn [rev]. apply last_snoc. Qed.

(** The loop ends in a normal form. *)
Lemma normalize_zip_normal rest : ∀ seen,
  normal (rev seen) = true → normal (normalize_zip seen rest) = true.
Proof.
  induction rest as [|c rest IH]; intros seen Hseen; [exact Hseen|].
  cbn [normalize_zip]. destruct (String.eqb c ".") eqn:Hdot; [by apply IH|].
  destruct seen as [|p seen].
  - apply IH. cbn. by rewrite Hdot.
  - destruct (climbs p c) eqn:Hclimb.
    + apply IH. cbn [rev] in Hseen. by apply normal_prefix in Hseen.
    + apply IH. change (rev (c :: p :: seen)) with (rev (p :: seen) ++ [c]).
      rewrite normal_snoc, Hseen, Hdot, last_rev_cons, Hclimb. reflexivity.
Qed.

(** A normal form is left as it is. *)
Lemma normalize_zip_fixed rest : ∀ seen,
  normal (rev seen ++ rest) = true →
  normalize_zip seen rest = rev seen ++ rest.
Proof.
  induction rest as [|c rest IH]; intros seen Hn;
    [by rewrite app_nil_r|].
  destruct (normal_middle _ _ _ Hn) as [Hdot Hlast].
  cbn [normalize_zip]. rewrite Hdot.
  assert (Hpush : normalize_zip (c :: seen) rest = rev seen ++ c :: rest).
  { rewrite IH; cbn [rev]; rewrite <- app_assoc; [reflexivity | exact Hn]. }
  destruct seen as [|p seen]; [exact Hpush|].
  rewrite last_rev_cons in Hlast. by rewrite Hlast.
Qed.

(** The loop only takes components away. *)
Lemma normalize_zip_Forall (P : string → Prop) rest : ∀ seen,
  Forall P seen → Forall P rest → Forall P (normalize_zip seen rest).
Proof.
  induction rest as [|c rest IH]; intros seen Hseen Hrest.
  - cbn. by apply Forall_rev.
  - apply Forall_cons in Hrest as [Hc Hrest]. cbn [normalize_zip].
    destruct (String.eqb c "."); [by apply IH|].
    destruct seen as [|p seen]; [apply IH; by repeat constructor|].
    destruct (climbs p c).
    + apply IH; [|done]. by apply Forall_cons in Hseen as [_ ?].
    + apply IH; [|done]. by constructor.
Qed.

(** **** [split] and [join] *)

Lemma split_not_nil sep s : split sep s ≠ [].
Proof.
  destruct s as [|c s]; [done|]. cbn [split].
  destruct (Ascii.eqb c sep); [done|]. by destruct (split sep s).
Qed.

Lemma join_cons sep x xs :
  xs ≠ [] → join sep (x :: xs) = x +:+ sep +:+ join sep xs.
Proof. by destruct xs. Qed.

Lemma join_split (sep : ascii) s :
  join (String sep EmptyString) (split sep s) = s.
Proof.
  induction s as [|c s IH]; [reflexivity|]. cbn [split].
  destruct (Ascii.eqb_spec c sep) as [->|Hne].
  - rewrite join_cons by apply split_not_nil. by rewrite IH.
  - pose proof (split_not_nil sep s) as Hnil.
    destruct (split sep s) as [|x xs]; [done|].
    destruct xs as [|y ys].
    + cbn [join] in *. by rewrite IH.
    + rewrite join_cons by done. rewrite join_cons in IH by done.
      by rewrite <- IH.
Qed.

Lemma split_without sep x :
  without sep x = true → split sep x = [x].
Proof.
  induction x as [|c x IH]; [done|]. cbn [without split].
  intros H. apply andb_true_iff in H as [Hc Hx].
  apply negb_true_iff in Hc. by rewrite Hc, (IH Hx).
Qed.

Lemma split_app sep x y :
  without sep x = true →
  split sep (x +:+ String sep y) = x :: split sep y.
Proof.
  induction x as [|c x IH].
  - intros _. change (EmptyString +:+ String sep y) with (String sep y).
    cbn [split]. by rewrite Ascii.eqb_refl.
  - cbn [without]. intros H. apply andb_true_iff in H as [Hc Hx].
    apply negb_true_iff in Hc.
    change (String c x +:+ String sep y) with (String c (x +:+ String sep y)).
    cbn [split]. by rewrite Hc, (IH Hx).
Qed.

Lemma split_join (sep : ascii) xs :
  xs ≠ [] → Forall (λ x, without sep x = true) xs →
  split sep (join (String sep EmptyString) xs) = xs.
Proof.
  induction xs as [|x xs IH]; [done|]. intros _ Hall.
  apply Forall_cons in Hall as [Hx Hall].
  destruct xs as [|y ys]; [by apply split_without|].
  rewrite join_cons by done.
  change (x +:+ String sep EmptyString +:+ join (String sep EmptyString) (y :: ys))
    with (x +:+ String sep (join (String sep EmptyString) (y :: ys))).
  rewrite split_app by done. by rewrite IH.
Qed.

Lemma split_components sep s :
  Forall (λ x, without sep x = true) (split sep s).
Proof.
  induction s as [|c s IH]; [by repeat constructor|]. cbn [split].
  destruct (Ascii.eqb c sep) eqn:Hc; [by constructor|].
  pose proof (split_not_nil sep s) as Hnil.
  destruct (split sep s) as [|x xs]; [done|].
  apply Forall_cons in IH as [Hx Hxs]. constructor; [|done].
  cbn [without]. by rewrite Hc, Hx.
Qed.

(** **** [goog.normalizePath_] *)

Lemma normalizePath__zip path :
  normalizePath_ path = join "/" (normalize_zip [] (split "/" path)).
Proof.
  unfold normalizePath_. by rewrite <- (normalize_loop_zip _ []).
Qed.

Lemma normalizePath__normal path :
  normal (split "/" (normalizePath_ path)) = true.
Proof.
  rewrite normalizePath__zip.
  pose proof (normalize_zip_normal (split "/" path) [] eq_refl) as Hn.
  pose proof (normalize_zip_Forall (λ x, without "/" x = true)
                (split "/" path) [] (Forall_nil_2 _)
                (split_components "/" path)) as Hall.
  destruct (normalize_zip [] (split "/" path)) as [|x xs] eqn:Hz;
    [reflexivity|].
  by rewrite split_join.
Qed.

Lemma normalizePath__fixed path :
  normal (split "/" path) = true → normalizePath_ path = path.
Proof.
  intros Hn. rewrite normalizePath__zip.
  rewrite (normalize_zip_fixed _ [] Hn). apply join_split.
Qed.

(** X13. The path that [goog.normalizePath_] returns has no [.] component,
    and none of its [..] components stands right after a component that it
    could take away (one that is neither empty nor [..] itself). *)
Theorem normalizePath__is_normal (path : string) :
  normal (split "/" (normalizePath_ path)) = true.
Proof. exact (normalizePath__normal path). Qed.

(** X14. A path in which no component is [.] and no [..] stands right
    after a component that is neither empty nor [..] is returned as it
    is. *)
Theorem normalizePath__keeps_normal_paths (path : string) :
  normal (split "/" path) = true → normalizePath_ path = path.
Proof. exact (normalizePath__fixed path). Qed.

Lemma normalizePath__keeps_normal_paths_witness :
  normalizePath_ "../../closure/goog/base.js" = "../../closure/goog/base.js".
Proof.
  exact (normalizePath__keeps_normal_paths "../../closure/goog/base.js"
           eq_refl).
Defined.

(** X15. [goog.normalizePath_] is idempotent. *)
Theorem normalizePath__idempotent (path : string) :
  normalizePath_ (normalizePath_ path) = normalizePath_ path.
Proof. apply normalizePath__fixed, normalizePath__normal. Qed.

Example normalizePath__climbs :
  normalizePath_ "closure/goog/../../third_party/./tslib.js"
  = "third_party/tslib.js".
Proof. reflexivity. Qed.

Example normalizePath__keeps_leading_parents :
  normalizePath_ "a/../../b" = "../b" ∧ normalizePath_ "/../b" = "/../b".
Proof. split; reflexivity. Qed.

End PathFacts.

(** ** [goog.protectScriptTag_] *)

Module ScriptFacts.
Import GoogScript.
#[local] Open Scope list_scope.
#[local] Open Scope nat_scope.

Lemma fold_case_lt c : fold_case c = "<"%char → c = "<"%char.
Proof. destruct c as [[] [] [] [] [] [] [] []]; cbv; congruence. Qed.

Lemma replace_script_tags_cons c str' :
  replace_script_tags (String c str')
  = match match_literal "</SCRIPT" (String c str') with
    | Some (m, rest) =>
        "\x3c/" +:+ String.substring 2 6 m +:+ replace_script_tags rest
    | None => String c (replace_script_tags str')
    end.
Proof.
  simp replace_script_tags. unfold inspect.
  assert (Hgen : ∀ o (H : match_literal "</SCRIPT" (String c str') = o),
            replace_script_tags_unfold_clause_2 c str' (o ↾ H)
            = match o with
              | Some (m, rest) =>
                  "\x3c/" +:+ String.substring 2 6 m
                  +:+ replace_script_tags rest
              | None => String c (replace_script_tags str')
              end).
  { by intros [[m rest]|] H. }
  apply Hgen.
Qed.

Lemma match_literal_empty pat :
  match_literal pat EmptyString
  = match pat with EmptyString => Some (EmptyString, EmptyString) | _ => None end.
Proof. by destruct pat. Qed.

Lemma match_literal_replaced pat : ∀ t,
  no_backslash pat = true →
  is_Some (match_literal pat (replace_script_tags t)) →
  is_Some (match_literal pat t).
Proof.
  induction pat as [|p pat IH]; intros t Hpat; [by destruct t; eauto|].
  cbn [no_backslash] in Hpat. apply andb_true_iff in Hpat as [Hp Hpat].
  apply negb_true_iff in Hp.
  destruct t as [|c t]; [by simp replace_script_tags|].
  rewrite replace_script_tags_cons.
  destruct (match_literal "</SCRIPT" (String c t)) as [[m rest]|] eqn:Htag.
  - change ("\x3c/" +:+ ?x) with (String "\" ("x3c/" +:+ x)).
    cbn [match_literal]. rewrite Hp. intros H. by apply is_Some_None in H.
  - cbn [match_literal].
    destruct (Ascii.eqb (fold_case p) (fold_case c));
      [|intros H; by apply is_Some_None in H].
    intros Hsome.
    destruct (IH t Hpat) as [[m' r'] ->]; [|by eexists].
    destruct (match_literal pat (replace_script_tags t)) as [[? ?]|];
      [by eexists | by apply is_Some_None in Hsome].
Qed.

Lemma match_literal_head p pat c s :
  is_Some (match_literal (String p pat) (String c s)) →
  fold_case p = fold_case c ∧ is_Some (match_literal pat s).
Proof.
  cbn [match_literal].
  destruct (Ascii.eqb_spec (fold_case p) (fold_case c)) as [Heq|Hne];
    [|intros H; by apply is_Some_None in H].
  destruct (match_literal pat s) as [[m r]|];
    [by eauto | intros H; by apply is_Some_None in H].
Qed.

Lemma match_literal_not_head p pat c s :
  fold_case p ≠ fold_case c → match_literal (String p pat) (String c s) = None.
Proof.
  intros Hne. cbn [match_literal].
  by destruct (Ascii.eqb_spec (fold_case p) (fold_case c)).
Qed.

Lemma test_literal_skip p pat c s :
  fold_case p ≠ fold_case c →
  test_literal (String p pat) (String c s) = test_literal (String p pat) s.
Proof.
  intros Hne. cbn [test_literal].
  by rewrite match_literal_not_head.
Qed.

Lemma match_literal_text pat : ∀ s m rest,
  match_literal pat s = Some (m, rest) →
  map fold_case (list_ascii_of_string m)
  = map fold_case (list_ascii_of_string pat) ∧
  String.length s = String.length pat + String.length rest.
Proof.
  induction pat as [|p pat IH]; intros s m rest.
  - destruct s; intros [= <- <-]; by split.
  - destruct s as [|c s]; [done|]. cbn [match_literal].
    destruct (Ascii.eqb_spec (fold_case p) (fold_case c)) as [Heq|]; [|done].
    destruct (match_literal pat s) as [[m' r']|] eqn:Hrec; [|done].
    intros [= <- <-]. destruct (IH _ _ _ Hrec) as [Hm Hlen].
    split; [|cbn [String.length]; by rewrite Hlen].
    cbn [list_ascii_of_string map]. by rewrite Hm, Heq.
Qed.

(** The text a match of [</SCRIPT] covers. *)
Lemma script_tag_shape s m rest :
  match_literal "</SCRIPT" s = Some (m, rest) →
  ∃ c2 c3 c4 c5 c6 c7,
    m = String "<" (String "/" (String c2 (String c3 (String c4 (String c5
          (String c6 (String c7 EmptyString))))))) ∧
    Forall (λ c, fold_case c ≠ "<"%char) [c2; c3; c4; c5; c6; c7].
Proof.
  intros Hm. apply match_literal_text in Hm as [Hm _].
  destruct m as [|c0 [|c1 [|c2 [|c3 [|c4 [|c5 [|c6 [|c7 [|c8 m]]]]]]]]];
    try discriminate Hm.
  cbn [list_ascii_of_string map] in Hm.
  injection Hm as H0 H1 H2 H3 H4 H5 H6 H7.
  exists c2, c3, c4, c5, c6, c7. split.
  - f_equal; [by apply fold_case_lt|]. f_equal.
    destruct c1 as [[] [] [] [] [] [] [] []]; by cbv in H1.
  - repeat constructor;
      match goal with
      | H : fold_case ?c = _ |- fold_case ?c ≠ _ => rewrite H; by cbv
      end.
Qed.

Lemma replace_script_tags_clean n : ∀ str,
  String.length str < n →
  test_literal "</SCRIPT" (replace_script_tags str) = false.
Proof.
  induction n as [|n IH]; intros str Hn; [lia|].
  destruct str as [|c str]; [by simp replace_script_tags|].
  rewrite replace_script_tags_cons.
  destruct (match_literal "</SCRIPT" (String c str)) as [[m rest]|] eqn:Htag.
  - destruct (script_tag_shape _ _ _ Htag)
      as (c2 & c3 & c4 & c5 & c6 & c7 & -> & Hfold).
    apply match_literal_text in Htag as [_ Hstr].
    assert (Hrest : String.length rest < n).
    { cbn [String.length] in Hstr, Hn. lia. }
    repeat match goal with
           | H : Forall _ (_ :: _) |- _ => apply Forall_cons in H as [? H]
           end.
    change (test_literal "</SCRIPT"
              (String "\" (String "x" (String "3" (String "c" (String "/"
                 (String c2 (String c3 (String c4 (String c5 (String c6
                    (String c7 (replace_script_tags rest))))))))))))
            = false).
    rewrite !test_literal_skip by (done || by cbv). by apply IH.
  - cbn [test_literal].
    destruct (match_literal "</SCRIPT" (String c (replace_script_tags str)))
      as [[m' r']|] eqn:Hout; [|apply IH; cbn [String.length] in Hn; lia].
    exfalso.
    destruct (match_literal_head "<" "/SCRIPT" c (replace_script_tags str))
      as [Hc Hrest]; [by rewrite Hout|].
    apply match_literal_replaced in Hrest; [|reflexivity].
    destruct Hrest as [[m'' r''] Hrest].
    cbn [match_literal] in Htag. rewrite Hc, Ascii.eqb_refl in Htag.
    cbn [match_literal] in Hrest. by rewrite Hrest in Htag.
Qed.

(** X16. What [goog.protectScriptTag_] returns never contains [</script],
    in any mix of upper and lower case. *)
Theorem protectScriptTag__has_no_closing_tag (str : string) :
  test_literal "</SCRIPT" (protectScriptTag_ str) = false.
Proof. exact (replace_script_tags_clean _ str (Nat.lt_succ_diag_r _)). Qed.

(** X17. A text without [</script], in any case, is returned as it is. *)
Theorem protectScriptTag__keeps_other_text (str : string) :
  test_literal "</SCRIPT" str = false → protectScriptTag_ str = str.
Proof.
  unfold protectScriptTag_. induction str as [|c str IH];
    [by simp replace_script_tags|].
  rewrite replace_script_tags_cons. cbn [test_literal].
  destruct (match_literal "</SCRIPT" (String c str)); [done|].
  intros Hrest. by rewrite IH.
Qed.

Lemma protectScriptTag__keeps_other_text_witness :
  protectScriptTag_ "<script src='base.js'>" = "<script src='base.js'>".
Proof.
  exact (protectScriptTag__keeps_other_text "<script src='base.js'>" eq_refl).
Defined.

Example protectScriptTag__escapes :
  protectScriptTag_ "document.write('<SCRIPT></ScRiPt>');</script>"
  = "document.write('<SCRIPT>\x3c/ScRiPt>');\x3c/script>".
Proof. reflexivity. Qed.

End ScriptFacts.

(** ** [goog.module], once per file *)

Module LoaderFacts.
Import JS Goog GoogSpec LoaderSpec.

Lemma module_identifier_checks s :
  is_module_identifier (VString s) = true →
  truthy (VString s) = true ∧ search s VALID_MODULE_RE_ = 0%Z.
Proof.
  intros Hid. split.
  - by destruct s.
  - unfold search. by rewrite GoogFacts.match_VALID_MODULE_RE_, Hid.
Qed.

(** X18. Inside one [goog.loadModule] at most one [goog.module] call gets
    through: after a first call with a module identifier, made in the goog
    module loader while no name was stored, a second call with any module
    identifier throws "goog.module may only be called once per module." and
    changes nothing.  This holds even when the first call itself threw
    because the namespace was already declared, since the name is stored
    before that check. *)
Theorem module_only_once (s1 s2 : string) (l : Loader) :
  is_module_identifier (VString s1) = true →
  is_module_identifier (VString s2) = true →
  isInGoogModuleLoader_ l = true →
  named l = false →
  module (VString s2) (snd (module (VString s1) l))
  = (Throws (Error "goog.module may only be called once per module."),
     snd (module (VString s1) l)).
Proof.
  intros [Ht1 Hs1]%module_identifier_checks
         [Ht2 Hs2]%module_identifier_checks Hin Hnamed.
  assert (Hfirst : ∃ l1, snd (module (VString s1) l) = l1 ∧
            isInGoogModuleLoader_ l1 = true ∧ named l1 = true).
  { unfold module. rewrite Ht1, Hs1. cbn [negb orb Z.eqb].
    unfold mbind, M_bind, bind, get, modify, throw, mret, M_ret, ret.
    cbn [fst snd]. rewrite Hin. cbn [negb].
    unfold named, mbind in Hnamed. rewrite Hnamed. cbn [COMPILED negb].
    assert (Hset : isInGoogModuleLoader_ (set_moduleName s1 l) = true ∧
                   named (set_moduleName s1 l) = true).
    { unfold isInGoogModuleLoader_, named, set_moduleName in *.
      cbn [moduleLoaderState_].
      destruct (moduleLoaderState_ l) as [st|]; [|done].
      cbn [fmap option_fmap option_map mbind option_bind moduleName type].
      by rewrite Ht1. }
    destruct (isProvided_ s1 (set_moduleName s1 l)); cbn [snd];
      eexists; (split; [reflexivity|]); exact Hset. }
  destruct Hfirst as (l1 & -> & Hin1 & Hnamed1).
  unfold module. rewrite Ht2, Hs2. cbn [negb orb Z.eqb].
  unfold mbind, M_bind, bind, get, throw. cbn [fst snd].
  rewrite Hin1. cbn [negb]. unfold named, mbind in Hnamed1.
  by rewrite Hnamed1.
Qed.

Lemma module_only_once_witness :
  module (VString "pose_tracking")
    (snd (module (VString "google3.third_party.javascript.tslib.tslib")
            loader_in_goog_module))
  = (Throws (Error "goog.module may only be called once per module."),
     snd (module (VString "google3.third_party.javascript.tslib.tslib")
            loader_in_goog_module)).
Proof.
  exact (module_only_once "google3.third_party.javascript.tslib.tslib"
           "pose_tracking" loader_in_goog_module
           eq_refl eq_refl eq_refl eq_refl).
Defined.

End LoaderFacts.

(** ** [goog.loadModule] *)

Module LoadingFacts.
Import JS Goog GoogSpec LoaderSpec GoogLoading.

Section WithCallees.
Context (constructNamespace_ : string → nat → bool → M Loader unit)
        (loadModuleFromSource_ : nat → string → M Loader nat)
        (useSafari10Workaround : bool).

Abbreviation loadModule :=
  (loadModule constructNamespace_ loadModuleFromSource_
     useSafari10Workaround).

(** X19. Whatever the module definition is and does, and whether
    [goog.loadModule] returns or throws, [goog.moduleLoaderState_] is
    afterwards what it was before the call. *)
Theorem loadModule_restores_loader_state (origExports : nat)
    (def : moduleDef) (l : Loader) :
  moduleLoaderState_ (snd (loadModule origExports def l))
  = moduleLoaderState_ l.
Proof.
  unfold GoogLoading.loadModule, mbind, M_bind, bind, get, try_finally.
  cbn [fst snd].
  match goal with
  | |- context [let '(r, s') := ?m in _] => by destruct m
  end.
Qed.

Lemma isProvided__loader_state name st (l : Loader) :
  isProvided_ name (set_moduleLoaderState_ st l) = isProvided_ name l.
Proof. reflexivity. Qed.

Lemma isProvided__moduleName name s (l : Loader) :
  isProvided_ name (set_moduleName s l) = isProvided_ name l.
Proof. reflexivity. Qed.

Lemma isProvided__loaded name exports (l : Loader) :
  isProvided_ name (set_loadedModule name exports l) = true.
Proof.
  unfold isProvided_, set_loadedModule. cbn [loadedModules_].
  rewrite lookup_insert_eq. by rewrite bool_decide_eq_true_2.
Qed.

Lemma restore_loader_state (l : Loader) st s :
  set_moduleLoaderState_ (moduleLoaderState_ l)
    (set_moduleName s (set_moduleLoaderState_ st l)) = l.
Proof. by destruct l. Qed.

(** X20. A file of the bundle, [goog.loadModule(function(exports) {
    goog.module(name); ...; return exports; })], whose name is a module
    identifier that is not provided yet: the call returns, the loader state
    is put back, and [goog.module.get(name)] is from then on the exports
    object of the file.  Loading a file of the same name once more throws
    'Namespace "name" already declared.' and changes nothing, so the first
    exports stay. *)
Theorem loadModule_registers_once (origExports : nat) (name : string)
    (l : Loader) :
  is_module_identifier (VString name) = true →
  isProvided_ name l = false →
  let l1 := snd (loadModule origExports (bundled name) l) in
  loadModule origExports (bundled name) l = (Returns tt, l1) ∧
  moduleLoaderState_ l1 = moduleLoaderState_ l ∧
  module_get name l1 = Exports origExports ∧
  ∀ exports',
    loadModule exports' (bundled name) l1
    = (Throws (Error ("Namespace " ++ quoted name ++ " already declared.")),
       l1).
Proof.
  intros Hid Hfree.
  destruct (LoaderFacts.module_identifier_checks name Hid) as [Ht Hs].
  assert (Hmodule : ∀ l0 : Loader,
            module (VString name)
              (set_moduleLoaderState_
                 (Some {| moduleName := Some EmptyString;
                          declareLegacyNamespace := false;
                          type := Some GOOG |}) l0)
            = let l' := set_moduleName name
                          (set_moduleLoaderState_
                             (Some {| moduleName := Some EmptyString;
                                      declareLegacyNamespace := false;
                                      type := Some GOOG |}) l0) in
              if isProvided_ name l0
              then (Throws (Error ("Namespace " ++ quoted name
                                   ++ " already declared.")), l')
              else (Returns tt, delete_implicitNamespace name l')).
  { intros l0. unfold module. rewrite Ht, Hs. cbn [negb orb Z.eqb].
    unfold mbind, M_bind, bind, get, modify, throw, mret, M_ret, ret.
    cbn -[isProvided_ set_moduleName delete_implicitNamespace].
    rewrite isProvided__moduleName, isProvided__loader_state.
    by destruct (isProvided_ name l0). }
  assert (Hfirst : loadModule origExports (bundled name) l
            = (Returns tt,
               set_loadedModule name origExports
                 (delete_implicitNamespace name l))).
  { cbv [GoogLoading.loadModule bundled try_finally read_moduleName
         mbind M_bind bind get modify mret M_ret ret throw].
    rewrite Hmodule, Hfree. cbv zeta.
    cbn [fst snd moduleLoaderState_ set_moduleName set_moduleLoaderState_
         delete_implicitNamespace fmap option_fmap option_map moduleName
         declareLegacyNamespace].
    rewrite Ht. by destruct l. }
  cbv zeta. rewrite Hfirst. cbn [snd]. split; [done|]. split; [by destruct l|].
  split.
  - unfold module_get, getInternal_, set_loadedModule.
    cbn [COMPILED negb loadedModules_]. by rewrite lookup_insert_eq.
  - intros exports'.
    pose proof (isProvided__loaded name origExports
                  (delete_implicitNamespace name l)) as Hprovided.
    cbv [GoogLoading.loadModule bundled try_finally read_moduleName
         mbind M_bind bind get modify mret M_ret ret throw].
    rewrite Hmodule, Hprovided. cbv beta iota zeta.
    by rewrite restore_loader_state.
Qed.

End WithCallees.

Lemma loadModule_registers_once_witness :
  let load := loadModule (λ _ _ _, mret tt) (λ exports _, mret exports) false in
  let name := "google3.third_party.javascript.tslib.tslib" in
  let l1 := snd (load 1 (bundled name) page_loader) in
  load 1 (bundled name) page_loader = (Returns tt, l1) ∧
  moduleLoaderState_ l1 = moduleLoaderState_ page_loader ∧
  module_get name l1 = Exports 1 ∧
  ∀ exports',
    load exports' (bundled name) l1
    = (Throws (Error ("Namespace " ++ quoted name ++ " already declared.")),
       l1).
Proof.
  exact (loadModule_registers_once (λ _ _ _, mret tt)
           (λ exports _, mret exports) false 1
           "google3.third_party.javascript.tslib.tslib" page_loader
           eq_refl eq_refl).
Defined.

(** The three files of the bundle, loaded in its order. *)
Example bundle_loads :
  let load := loadModule (λ _ _ _, mret tt) (λ exports _, mret exports) false in
  let tslib := "google3.third_party.javascript.tslib.tslib" in
  let api := "google3.third_party.mediapipe.web.solutions.solutions_api" in
  let pose :=
    "google3.third_party.mediapipe.web.solutions.pose_tracking.pose_tracking" in
  let '(r, l) :=
    (load 1 (bundled tslib);; load 2 (bundled api);; load 3 (bundled pose))
      page_loader in
  r = Returns tt ∧
  (module_get tslib l, module_get api l, module_get pose l)
  = (Exports 1, Exports 2, Exports 3) ∧
  moduleLoaderState_ l = None.
Proof. vm_compute. by repeat split. Qed.

Example loadModule_without_goog_module :
  fst (loadModule (λ _ _ _, mret tt) (λ exports _, mret exports) false 1
         (DefFunction (λ exports, mret exports)) page_loader)
  = Throws (Error ("Invalid module name " ++ quoted "")).
Proof. reflexivity. Qed.

(** X25. [goog.module.declareLegacyNamespace()] returns only inside a goog
    module whose [goog.module] call has stored the name, and then all it
    changes is the [declareLegacyNamespace] flag of the loader state;
    anywhere else, outside a goog module or before [goog.module], it throws
    and changes nothing. *)
Theorem declareLegacyNamespace_needs_module (l : Loader) :
  if isInGoogModuleLoader_ l && named l then
    ∃ st,
      moduleLoaderState_ l = Some st ∧
      module_declareLegacyNamespace l
      = (Returns tt,
         set_moduleLoaderState_
           (Some {| moduleName := moduleName st;
                    declareLegacyNamespace := true;
                    type := type st |}) l)
  else
    ∃ e, module_declareLegacyNamespace l = (Throws e, l).
Proof.
  unfold module_declareLegacyNamespace, named.
  unfold mbind, M_bind, bind, get, modify, throw. cbn [fst snd].
  cbn [COMPILED negb andb].
  destruct (isInGoogModuleLoader_ l) eqn:Hin; cbn [negb andb];
    [|by eexists].
  destruct (match option_bind _ _ moduleName (moduleLoaderState_ l) with
            | Some m => truthy (VString m)
            | None => false
            end) eqn:Hnamed; cbn [negb]; [|by eexists].
  unfold isInGoogModuleLoader_ in Hin.
  destruct (moduleLoaderState_ l) as [st|]; [|done].
  by exists st.
Qed.

Example declareLegacyNamespace_before_module :
  fst (module_declareLegacyNamespace loader_in_goog_module)
  = Throws (Error ("goog.module must be called prior to " ++
                   "goog.module.declareLegacyNamespace.")).
Proof. reflexivity. Qed.

End LoadingFacts.

(** ** [goog.Dependency]: load callbacks *)

Module DependencyFacts.
Import JS GoogDependency.
#[local] Open Scope list_scope.

Lemma for_each_call cs d calls :
  for_each cs call (d, calls) = (Returns tt, (d, calls ++ cs)).
Proof.
  revert calls. induction cs as [|c cs IH]; intros calls;
    [by rewrite app_nil_r|].
  cbn [for_each]. unfold bind, call at 1, modify. cbn [fst snd].
  rewrite IH, <- app_assoc. reflexivity.
Qed.

Lemma run_snoc ops o σ :
  run (ops ++ [o]) σ
  = match run ops σ with
    | (Returns _, σ') => perform o σ'
    | (Throws e, σ') => (Throws e, σ')
    end.
Proof.
  unfold run. revert σ. induction ops as [|o' ops IH]; intros σ.
  - cbn [app for_each]. unfold bind, ret.
    by destruct (perform o σ) as [[[]|e] σ'].
  - cbn [app for_each]. unfold bind.
    destruct (perform o' σ) as [[[]|e] σ']; [apply IH | reflexivity].
Qed.

Lemma registered_snoc ops o :
  registered (ops ++ [o])
  = registered ops ++ match o with OnLoad c => [c] | Loaded => [] end.
Proof.
  unfold registered. rewrite flat_map_app. cbn [flat_map].
  by rewrite app_nil_r.
Qed.

Lemma settled_run ops d :
  loaded_ d = false → loadCallbacks_ d = [] →
  ∃ σ, run ops (d, []) = (Returns tt, σ) ∧ settled ops σ.
Proof.
  intros Hl Hc. induction ops as [|o ops IH] using rev_ind.
  - exists (d, []). split; [reflexivity|]. by repeat split.
  - destruct IH as ([d1 calls] & Hrun & Hreg & Hloaded & Hdone & Hnone).
    cbn [fst snd] in *. rewrite run_snoc, Hrun. unfold settled.
    rewrite registered_snoc, existsb_app. cbn [existsb].
    rewrite orb_false_r, <- Hloaded, <- Hreg.
    destruct o as [c|]; cbn [perform is_Loaded].
    + unfold onLoad, mbind, M_bind, bind, get, call, modify.
      cbn [fst snd]. rewrite orb_false_r.
      destruct (loaded_ d1) eqn:Hd1; eexists; (split; [reflexivity|]);
        cbn [fst snd set_loadCallbacks_ loaded_ loadCallbacks_].
      * rewrite (Hdone eq_refl), !app_nil_r.
        repeat split; try done; congruence.
      * rewrite (Hnone eq_refl). repeat split; try done; congruence.
    + unfold loaded, mbind, M_bind, bind, get, modify. cbn [fst snd].
      cbn [set_loaded_ set_loadCallbacks_ loadCallbacks_ loaded_].
      rewrite for_each_call. eexists. split; [reflexivity|].
      cbn [fst snd loaded_ loadCallbacks_].
      rewrite orb_true_r, !app_nil_r. by repeat split.
Qed.

(** X21. On a new [goog.Dependency], whatever the sequence of [onLoad] and
    [loaded] calls: no callback is called before the first [loaded]; from
    the first [loaded] on, every callback given to [onLoad] so far has been
    called exactly once, in the order in which they were given, and none
    is kept for later. *)
Theorem onLoad_callbacks_called_once (path relativePath : string)
    (provides requires : list string) (ops : list op) :
  let σ := snd (run ops
                  (new_Dependency path relativePath provides requires, [])) in
  if existsb is_Loaded ops
  then snd σ = registered ops ∧ loadCallbacks_ (fst σ) = []
  else snd σ = [] ∧ loadCallbacks_ (fst σ) = registered ops.
Proof.
  cbv zeta.
  destruct (settled_run ops
              (new_Dependency path relativePath provides requires)
              eq_refl eq_refl)
    as (σ & -> & Hreg & Hloaded & Hdone & Hnone).
  cbn [snd]. rewrite <- Hloaded.
  destruct (loaded_ (fst σ)).
  - rewrite (Hdone eq_refl), app_nil_r in Hreg. by rewrite (Hdone eq_refl).
  - rewrite (Hnone eq_refl) in *. by split.
Qed.

Example callbacks_before_and_after_loaded :
  snd (snd (run [OnLoad 1; OnLoad 2; Loaded; OnLoad 3; Loaded]
              (new_Dependency "/js/a.js" "a.js" ["a"] [], [])))
  = [1; 2; 3].
Proof. reflexivity. Qed.

End DependencyFacts.

(** ** [goog.getUid] *)

Module UidFacts.
Import JS GoogUid.
#[local] Open Scope nat_scope.

Lemma uids_ok_fresh s obj :
  uids_ok s →
  uids_ok {| uidCounter_ := S (uidCounter_ s);
             uid_of := <[obj := S (uidCounter_ s)]> (uid_of s) |}.
Proof.
  intros [Hrange Hinj]. split; cbn [uid_of uidCounter_].
  - intros o u. destruct (decide (o = obj)) as [->|Hne].
    + rewrite lookup_insert_eq. intros [= <-]. lia.
    + rewrite lookup_insert_ne by done. intros Ho.
      specialize (Hrange _ _ Ho). lia.
  - intros o1 o2 u.
    destruct (decide (o1 = obj)) as [->|Hne1],
             (decide (o2 = obj)) as [->|Hne2];
      rewrite ?lookup_insert_eq, ?lookup_insert_ne by done; try done.
    + intros [= <-] Ho. specialize (Hrange _ _ Ho). lia.
    + intros Ho [= <-]. specialize (Hrange _ _ Ho). lia.
    + apply Hinj.
Qed.

Lemma getUid_ok obj s :
  uids_ok s →
  ∃ uid s', getUid obj s = (Returns uid, s') ∧ uids_ok s' ∧
    uid_of s' !! obj = Some uid ∧
    uidCounter_ s ≤ uidCounter_ s' ∧
    (∀ o, o ≠ obj → uid_of s' !! o = uid_of s !! o).
Proof.
  intros Hok. unfold getUid, mbind, M_bind, bind, get, put, mret, M_ret, ret.
  cbn [fst snd].
  destruct (uid_of s !! obj) as [u|] eqn:Hu;
    [destruct (Nat.eqb u 0) eqn:Hz; cbn [negb]|];
    eexists _, _; (split; [reflexivity|]).
  - apply Nat.eqb_eq in Hz as ->. destruct Hok as [Hrange _].
    specialize (Hrange _ _ Hu). lia.
  - split; [done|]. split; [done|]. split; [lia|done].
  - split; [by apply uids_ok_fresh|]. cbn [uid_of uidCounter_].
    rewrite lookup_insert_eq. split; [done|]. split; [lia|].
    intros o Ho. by rewrite lookup_insert_ne.
Qed.

Lemma removeUid_ok obj s :
  uids_ok s → uids_ok (snd (removeUid obj s)).
Proof.
  intros [Hrange Hinj]. unfold removeUid, modify.
  cbn [snd]. split; cbn [uid_of uidCounter_].
  - intros o u Ho. apply lookup_delete_Some in Ho as [_ Ho]. eauto.
  - intros o1 o2 u Ho1 Ho2.
    apply lookup_delete_Some in Ho1 as [_ Ho1].
    apply lookup_delete_Some in Ho2 as [_ Ho2]. eauto.
Qed.

Lemma run_ok ops : ∀ s,
  uids_ok s → ∃ s', run ops s = (Returns tt, s') ∧ uids_ok s'.
Proof.
  induction ops as [|o ops IH]; intros s Hok; [by exists s|].
  unfold run. cbn [for_each]. unfold bind.
  destruct o as [obj|obj]; cbn [perform].
  - destruct (getUid_ok obj s Hok) as (u & s1 & Hget & Hok1 & _).
    unfold mbind, M_bind, bind, mret, M_ret, ret. rewrite Hget.
    apply IH, Hok1.
  - unfold removeUid at 1, modify at 1. apply IH.
    exact (removeUid_ok obj s Hok).
Qed.

(** X22. After any sequence of [goog.getUid] and [goog.removeUid] calls in
    a session, two different objects never get the same id: the id that
    [getUid] gives one and the id it then gives the other differ, and
    asking again gives each its own id back. *)
Theorem getUid_unique (ops : list op) (obj1 obj2 : nat) :
  obj1 ≠ obj2 →
  let s := snd (run ops no_uids) in
  ∃ uid1 uid2 s1 s2,
    getUid obj1 s = (Returns uid1, s1) ∧
    getUid obj2 s1 = (Returns uid2, s2) ∧
    uid1 ≠ uid2 ∧
    getUid obj1 s2 = (Returns uid1, s2) ∧
    getUid obj2 s2 = (Returns uid2, s2).
Proof.
  intros Hne. cbv zeta.
  assert (Hinit : uids_ok no_uids).
  { split; intros *; unfold no_uids; cbn [uid_of]; by rewrite lookup_empty. }
  destruct (run_ok ops no_uids Hinit) as (s & -> & Hok). cbn [snd].
  destruct (getUid_ok obj1 s Hok) as (u1 & s1 & Hget1 & Hok1 & Hu1 & _ & _).
  destruct (getUid_ok obj2 s1 Hok1)
    as (u2 & s2 & Hget2 & Hok2 & Hu2 & _ & Hrest).
  exists u1, u2, s1, s2. split; [done|]. split; [done|].
  assert (Hu1' : uid_of s2 !! obj1 = Some u1) by (by rewrite Hrest).
  assert (Hpos : ∀ o u, uid_of s2 !! o = Some u → Nat.eqb u 0 = false).
  { intros o u Ho. destruct Hok2 as [Hrange _].
    specialize (Hrange _ _ Ho). apply Nat.eqb_neq. lia. }
  split; [|split].
  - intros ->. destruct Hok2 as [_ Hinj]. by apply Hne, (Hinj _ _ u2).
  - unfold getUid, mbind, M_bind, bind, get, mret, M_ret, ret.
    cbn [fst snd]. by rewrite Hu1', (Hpos _ _ Hu1').
  - unfold getUid, mbind, M_bind, bind, get, mret, M_ret, ret.
    cbn [fst snd]. by rewrite Hu2, (Hpos _ _ Hu2).
Qed.

Lemma getUid_unique_witness :
  let s := snd (run [GetUid 7; RemoveUid 7; GetUid 8] no_uids) in
  ∃ uid1 uid2 s1 s2,
    getUid 7 s = (Returns uid1, s1) ∧
    getUid 8 s1 = (Returns uid2, s2) ∧
    uid1 ≠ uid2 ∧
    getUid 7 s2 = (Returns uid1, s2) ∧
    getUid 8 s2 = (Returns uid2, s2).
Proof.
  apply (getUid_unique [GetUid 7; RemoveUid 7; GetUid 8] 7 8). lia.
Defined.

End UidFacts.


(** ** tslib *)

Module TslibFacts.
Import JS Tslib.
#[local] Open Scope list_scope.
#[local] Open Scope nat_scope.

Lemma pull_finished n i :
  pull n {| values_o := None; values_i := i |}
  = (Returns (replicate n finished), {| values_o := None; values_i := i |}).
Proof.
  induction n as [|n IH]; [reflexivity|].
  cbn [pull]. unfold mbind, M_bind, bind. unfold values_next at 1.
  unfold mbind, M_bind, bind, get, put, mret, M_ret, ret.
  cbn [values_o values_i fst snd]. by rewrite IH.
Qed.

Lemma pull_from (a : list value) n : ∀ i,
  i ≤ length a →
  fst (pull n {| values_o := Some a; values_i := i |})
  = Returns (map yielded (take n (drop i a))
             ++ replicate (n - (length a - i)) finished).
Proof.
  induction n as [|n IH]; intros i Hi; [reflexivity|].
  cbn [pull]. unfold mbind, M_bind, bind. unfold values_next at 1.
  unfold mbind, M_bind, bind, get, put, mret, M_ret, ret.
  cbn [values_o values_i fst snd].
  destruct (Nat.leb_spec (length a) i) as [Hge|Hlt].
  - rewrite pull_finished. cbn [fst].
    rewrite drop_ge by lia. rewrite take_nil. cbn [map app].
    by replace (S n - (length a - i)) with (S n) by lia.
  - specialize (IH (S i) ltac:(lia)).
    destruct (pull n _) as [[rs|e] c]; cbn [fst] in IH |- *; [|done].
    injection IH as ->.
    destruct (lookup_lt_is_Some_2 a i Hlt) as [x Hx].
    rewrite (drop_S _ _ _ Hx), Hx. cbn [take map app default].
    by replace (S n - (length a - i)) with (n - (length a - S i)) by lia.
Qed.

(** X23. The iterator that [__values] makes for an array without
    [Symbol.iterator] gives the elements of the array in order, each with
    [done: false], and after the last one [{value: undefined, done: true}]
    for every further call. *)
Theorem values_enumerates_array (a : list value) (n : nat) :
  fst (pull n (values_of (Some a)))
  = Returns (map yielded (take n a) ++ replicate (n - length a) finished).
Proof.
  unfold values_of. rewrite (pull_from a n 0) by lia.
  by rewrite drop_0, Nat.sub_0_r.
Qed.

Lemma assign_dom sets : ∀ privateMap : WeakMap,
  dom (snd (assign sets privateMap)) =@{gset nat} dom privateMap.
Proof.
  induction sets as [|[receiver v] sets IH]; intros privateMap; [done|].
  cbn [assign]. unfold mbind, M_bind, bind. unfold classPrivateFieldSet.
  unfold mbind, M_bind, bind, get, put, throw, mret, M_ret, ret.
  cbn [fst snd].
  destruct (privateMap !! receiver) as [old|] eqn:Hold; [|done].
  rewrite IH, dom_insert_L.
  apply subseteq_union_1_L, singleton_subseteq_l, elem_of_dom. eauto.
Qed.

(** X24. [__classPrivateFieldSet] never makes an object an instance:
    whatever assignments are made, the objects that have the private field
    afterwards are those that had it before.  On an object that has it, the
    value set is the value that [__classPrivateFieldGet] reads next; on one
    that has not, both throw a [TypeError] and change nothing. *)
Theorem private_field_set_then_get (sets : list (nat * value))
    (receiver : nat) (v : value) (privateMap : WeakMap) :
  dom (snd (assign sets privateMap)) =@{gset nat} dom privateMap ∧
  match privateMap !! receiver with
  | Some _ =>
      ∃ privateMap',
        classPrivateFieldSet receiver v privateMap
        = (Returns v, privateMap') ∧
        classPrivateFieldGet receiver privateMap' = (Returns v, privateMap')
  | None =>
      classPrivateFieldSet receiver v privateMap
      = (Throws (TypeError "attempted to set private field on non-instance"),
         privateMap) ∧
      classPrivateFieldGet receiver privateMap
      = (Throws (TypeError "attempted to get private field on non-instance"),
         privateMap)
  end.
Proof.
  split; [apply assign_dom|].
  unfold classPrivateFieldSet, classPrivateFieldGet.
  unfold mbind, M_bind, bind, get, put, throw, mret, M_ret, ret.
  cbn [fst snd].
  destruct (privateMap !! receiver) as [old|] eqn:Hold; [|done].
  eexists. split; [reflexivity|]. by rewrite lookup_insert_eq.
Qed.

End TslibFacts.
